(** * kklib/src/os.c: the operating-system services layer of the Koka runtime

    A shallow embedding of the POSIX build of [os.c] (the branches taken when
    [WIN32], [__APPLE__] and [__linux__] are not defined, with
    [COPY_FR_COPY] defined), over an executable model of the system calls
    the file uses.  The C functions keep their names; each is a function
    from the state of the process and its file system to a result and a new
    state.

    What is outside os.c is in module [OS]: the file system (regular
    files, directories and sockets bound to a name, each named by its path
    as given, so that another name is another file), the descriptor table,
    [errno], the environment, and the system calls over them.  The process
    owns every file and is not the superuser: the owner's permission bits
    decide whether [open] and [creat] give access to a file that is there;
    what is made gets the permission bits asked for (the file mode creation
    mask is 0).
    [errno] is written by a call that fails and by no other.  The calls
    that move bytes take their failures and short transfers from a list of
    events kept in the state, so that every finite course of interruptions
    can be played; every call made is recorded in a trace.  Memory is not
    modelled: [kk_malloc] succeeds, and dropping a string does nothing. *)

From Stdlib Require Import ZArith List String Ascii Strings.Byte Bool Lia.
From stdpp Require Import gmap strings list.

Local Open Scope Z_scope.

(** ** Constants of the system headers *)

Module Errno.
(** Values of <errno.h> (the numbering every POSIX system in use shares
    for these codes). *)
Definition ENOENT : Z := 2.
Definition EINTR : Z := 4.
Definition EIO : Z := 5.
Definition ENXIO : Z := 6.
Definition EBADF : Z := 9.
Definition EAGAIN : Z := 11.
Definition ENOMEM : Z := 12.
Definition EACCES : Z := 13.
Definition EEXIST : Z := 17.
Definition ENOTDIR : Z := 20.
Definition EISDIR : Z := 21.
Definition EINVAL : Z := 22.
End Errno.
Import Errno.

(** <fcntl.h> and <sys/stat.h>. *)
Definition O_RDONLY : Z := 0.
Definition O_WRONLY : Z := 1.
Definition O_RDWR : Z := 2.
Definition O_ACCMODE : Z := 3.
Definition S_IFMT : Z := 61440.   (* 0170000 *)
Definition S_IFCHR : Z := 8192.   (* 0020000 *)
Definition S_IFDIR : Z := 16384.  (* 0040000 *)
Definition S_IFREG : Z := 32768.  (* 0100000 *)
Definition S_IFSOCK : Z := 49152. (* 0140000 *)
Definition S_IRUSR : Z := 256.    (* 0400 *)
Definition S_IWUSR : Z := 128.    (* 0200 *)
Definition S_IRWXU : Z := 448.    (* 0700 *)
Definition S_IRGRP : Z := 32.
Definition S_IXGRP : Z := 8.
Definition S_IROTH : Z := 4.
Definition S_IXOTH : Z := 1.

(** [size_t] is 64 bits wide; its arithmetic wraps. *)
Definition SIZE_MOD : Z := 2 ^ 64.
Definition size_add (a b : Z) : Z := (a + b) mod SIZE_MOD.
Definition size_sub (a b : Z) : Z := (a - b) mod SIZE_MOD.
Definition size_mul (a b : Z) : Z := (a * b) mod SIZE_MOD.

(** [SSIZE_MAX] of <limits.h> on a 64-bit target. *)
Definition SSIZE_MAX : Z := 2 ^ 63 - 1.

(** Modelled from the spec: [KK_SSIZE_MAX] is a macro of kklib.h, which is
    not part of os.c; the spec has each call "bounded to a platform-safe
    chunk size".  It is the largest [kk_ssize_t], 2^63-1 on a 64-bit
    target. *)
Definition KK_SSIZE_MAX : Z := 2 ^ 63 - 1.

(** ** The system under the code *)

Module OS.

(** What the file system holds: regular files, directories, and sockets
    bound to a name (the kind of file that is neither of the two and
    that [stat] reports with both the bits of [S_IFREG] and of [S_IFDIR]
    set).  A directory keeps the names [readdir] reports, in the order it
    reports them, the entries for itself and its parent included. *)
Inductive body :=
| Bytes (data : list byte)
| Entries (names : list string)
| Socket.

Record inode := Inode {
  i_perm : Z;
  i_body : body;
  i_atim : Z;
  i_mtim : Z
}.

(** An open descriptor refers to a file by its path, or to the terminal
    (what descriptor 2, the standard error stream, is attached to). *)
Inductive chan :=
| OnFile (path : string)
| OnTty.

Record handle := Handle {
  h_chan : chan;
  h_pos : nat;
  h_flags : Z
}.

(** What the kernel does to the next [read], [write] or
    [copy_file_range] on a valid descriptor: fail with an error number,
    or move at most [k] bytes.  When no event is left, a call moves all
    it was asked for (as far as the file goes). *)
Inductive event :=
| Fail (e : positive)
| AtMost (k : nat).

(** The record of the calls made, most recent first. *)
Inductive syscall :=
| SysOpen (path : string) (flags ret : Z)
| SysCreat (path : string) (mode ret : Z)
| SysClose (fd ret : Z)
| SysStat (path : string) (ret : Z)
| SysFstat (fd ret : Z)
| SysRead (fd count ret : Z)
| SysWrite (fd count ret : Z)
| SysCopyRange (inp out count ret : Z)
| SysMkdir (path : string) (mode ret : Z)
| SysFutimens (fd ret : Z)
| SysRealpath (path : string) (ok : bool)
| SysOpendir (path : string) (ok : bool)
| SysReaddir (name : option string)
| SysClosedir.

Record os := Os {
  files : gmap string inode;
  fdt : gmap Z handle;
  errno : Z;
  sched : list event;
  tty : list byte;
  environ : gmap string string;
  trace : list syscall
}.

Definition set_files (f : gmap string inode) (s : os) : os :=
  Os f (fdt s) (errno s) (sched s) (tty s) (environ s) (trace s).
Definition set_fdt (t : gmap Z handle) (s : os) : os :=
  Os (files s) t (errno s) (sched s) (tty s) (environ s) (trace s).
Definition set_errno (e : Z) (s : os) : os :=
  Os (files s) (fdt s) e (sched s) (tty s) (environ s) (trace s).
Definition set_sched (l : list event) (s : os) : os :=
  Os (files s) (fdt s) (errno s) l (tty s) (environ s) (trace s).
Definition set_tty (l : list byte) (s : os) : os :=
  Os (files s) (fdt s) (errno s) (sched s) l (environ s) (trace s).
Definition log (c : syscall) (s : os) : os :=
  Os (files s) (fdt s) (errno s) (sched s) (tty s) (environ s) (c :: trace s).

(** A failing call: [errno] is set, the call is recorded with -1. *)
Definition failing (c : Z → syscall) (e : Z) (s : os) : Z * os :=
  (-1, log (c (-1)) (set_errno e s)).

(** *** stat *)

Record stat_t := Stat {
  st_mode : Z;
  st_size : Z;
  st_atim : Z;
  st_mtim : Z
}.

Definition stat_zero : stat_t := Stat 0 0 0 0.

Definition kind_bits (b : body) : Z :=
  match b with
  | Bytes _ => S_IFREG
  | Entries _ => S_IFDIR
  | Socket => S_IFSOCK
  end.

Definition body_size (b : body) : Z :=
  match b with Bytes d => Z.of_nat (length d) | Entries _ | Socket => 0 end.

Definition stat_of (i : inode) : stat_t :=
  Stat (Z.lor (kind_bits (i_body i)) (Z.land (i_perm i) 4095))
       (body_size (i_body i)) (i_atim i) (i_mtim i).

(** The terminal is a character device, mode 0620, of size 0. *)
Definition stat_tty : stat_t := Stat (Z.lor S_IFCHR 400) 0 0 0.

(** [stat(path, &st)]: [st] is written on success only. *)
Definition sys_stat (path : string) (st : stat_t) (s : os) : Z * stat_t * os :=
  match files s !! path with
  | Some i => (0, stat_of i, log (SysStat path 0) s)
  | None => let '(r, s') := failing (SysStat path) ENOENT s in (r, st, s')
  end.

(** [fstat(fd, &st)]. *)
Definition sys_fstat (fd : Z) (st : stat_t) (s : os) : Z * stat_t * os :=
  match fdt s !! fd with
  | Some (Handle OnTty _ _) => (0, stat_tty, log (SysFstat fd 0) s)
  | Some (Handle (OnFile p) _ _) =>
      match files s !! p with
      | Some i => (0, stat_of i, log (SysFstat fd 0) s)
      | None => let '(r, s') := failing (SysFstat fd) EBADF s in (r, st, s')
      end
  | None => let '(r, s') := failing (SysFstat fd) EBADF s in (r, st, s')
  end.

(** *** Descriptors *)

Fixpoint lowest_free_from (n : nat) (i : Z) (t : gmap Z handle) : Z :=
  match n with
  | O => i
  | S n' =>
      match t !! i with
      | None => i
      | Some _ => lowest_free_from n' (i + 1) t
      end
  end.

(** The lowest descriptor not in use. *)
Definition lowest_free (t : gmap Z handle) : Z :=
  lowest_free_from (size t) 0 t.

Definition is_dir (i : inode) : bool :=
  match i_body i with Entries _ => true | Bytes _ | Socket => false end.

Definition is_socket (i : inode) : bool :=
  match i_body i with Socket => true | Bytes _ | Entries _ => false end.

Definition readable (flags : Z) : bool :=
  let a := Z.land flags O_ACCMODE in (a =? O_RDONLY) || (a =? O_RDWR).

Definition writable (flags : Z) : bool :=
  let a := Z.land flags O_ACCMODE in (a =? O_WRONLY) || (a =? O_RDWR).

(** What the owner's permission bits allow. *)
Definition may_read (i : inode) : bool :=
  negb (Z.land (i_perm i) S_IRUSR =? 0).

Definition may_write (i : inode) : bool :=
  negb (Z.land (i_perm i) S_IWUSR =? 0).

(** The access mode [flags] asks for is one the permission bits of the
    file allow. *)
Definition permitted (flags : Z) (i : inode) : bool :=
  (negb (readable flags) || may_read i) &&
  (negb (writable flags) || may_write i).

(** [open(path, flags)], two arguments: nothing is created, and only
    the access mode of [flags] matters.  A directory is not opened for
    writing, a file is not opened against its permission bits, and a
    socket is not opened at all.  A name that is not there is answered with
    [ENOENT], whatever the reason it is not there. *)
Definition sys_open (path : string) (flags : Z) (s : os) : Z * os :=
  match files s !! path with
  | None => failing (SysOpen path flags) ENOENT s
  | Some i =>
      if is_dir i && writable flags
      then failing (SysOpen path flags) EISDIR s
      else if negb (permitted flags i)
      then failing (SysOpen path flags) EACCES s
      else if is_socket i
      then failing (SysOpen path flags) ENXIO s
      else
        let fd := lowest_free (fdt s) in
        (fd, log (SysOpen path flags fd)
               (set_fdt (<[fd := Handle (OnFile path) 0 flags]> (fdt s)) s))
  end.

(** [close(fd)]. *)
Definition sys_close (fd : Z) (s : os) : Z * os :=
  match fdt s !! fd with
  | Some _ => (0, log (SysClose fd 0) (set_fdt (delete fd (fdt s)) s))
  | None => failing (SysClose fd) EBADF s
  end.

(** *** Paths: the directory a name lives in.  A name without a slash
    lives in the working directory, [/name] in the root; both exist and
    are not kept in [files]. *)

Fixpoint last_slash (p : string) : option nat :=
  match p with
  | EmptyString => None
  | String c r =>
      match last_slash r with
      | Some i => Some (S i)
      | None => if Ascii.eqb c "/" then Some O else None
      end
  end.

Definition parent (p : string) : option string :=
  match last_slash p with
  | Some i => Some (substring 0 i p)
  | None => None
  end.

Definition basename (p : string) : string :=
  match last_slash p with
  | Some i => substring (S i) (String.length p - S i) p
  | None => p
  end.

(** Why a name cannot be created at [p], if it cannot. *)
Definition parent_errno (p : string) (fs : gmap string inode) : option Z :=
  match parent p with
  | None => None
  | Some d =>
      if String.eqb d "" then None
      else match fs !! d with
           | Some i => if is_dir i then None else Some ENOTDIR
           | None => Some ENOENT
           end
  end.

(** Enter the new name in the listing of its directory. *)
Definition link (p : string) (fs : gmap string inode) : gmap string inode :=
  match parent p with
  | None => fs
  | Some d =>
      match fs !! d with
      | Some (Inode m (Entries ns) a t) =>
          <[d := Inode m (Entries (ns ++ [basename p])) a t]> fs
      | _ => fs
      end
  end.

(** [mkdir(path, mode)]. *)
Definition sys_mkdir (path : string) (mode : Z) (s : os) : Z * os :=
  if String.eqb path "" then failing (SysMkdir path mode) ENOENT s
  else
    match files s !! path with
    | Some _ => failing (SysMkdir path mode) EEXIST s
    | None =>
        match parent_errno path (files s) with
        | Some e => failing (SysMkdir path mode) e s
        | None =>
            (0, log (SysMkdir path mode 0)
                  (set_files (<[path := Inode (Z.land mode 4095) (Entries ["."; ".."]) 0 0]>
                                (link path (files s))) s))
        end
    end.

(** [creat(path, mode)]: [open] with [O_WRONLY|O_CREAT|O_TRUNC].  A file
    that is there is emptied, if its permission bits allow writing; one
    that is made is open for writing whatever [mode] says. *)
Definition sys_creat (path : string) (mode : Z) (s : os) : Z * os :=
  let opened (fs : gmap string inode) :=
    let fd := lowest_free (fdt s) in
    (fd, log (SysCreat path mode fd)
           (set_fdt (<[fd := Handle (OnFile path) 0 O_WRONLY]> (fdt s))
              (set_files fs s))) in
  if String.eqb path "" then failing (SysCreat path mode) ENOENT s
  else
    match files s !! path with
    | Some i =>
        if is_dir i then failing (SysCreat path mode) EISDIR s
        else if negb (may_write i) then failing (SysCreat path mode) EACCES s
        else
          match i with
          | Inode m (Bytes _) a t =>
              opened (<[path := Inode m (Bytes []) a t]> (files s))
          | _ => failing (SysCreat path mode) ENXIO s
          end
    | None =>
        match parent_errno path (files s) with
        | Some e => failing (SysCreat path mode) e s
        | None =>
            opened (<[path := Inode (Z.land mode 4095) (Bytes []) 0 0]>
                  (link path (files s)))
        end
    end.

(** *** Transfers *)

(** The bytes a descriptor open for reading has ahead of its position;
    [None] when it cannot be read from. *)
Definition source (fd : Z) (s : os) : option (list byte) :=
  match fdt s !! fd with
  | Some (Handle c pos fl) =>
      if readable fl then
        match c with
        | OnTty => Some []
        | OnFile p =>
            match files s !! p with
            | Some (Inode _ (Bytes d) _ _) => Some (drop pos d)
            | _ => None
            end
        end
      else None
  | None => None
  end.

Definition advance (fd : Z) (n : nat) (t : gmap Z handle) : gmap Z handle :=
  match t !! fd with
  | Some (Handle c pos fl) => <[fd := Handle c (pos + n)%nat fl]> t
  | None => t
  end.

(** How many of [want] bytes the kernel moves now, and the events left. *)
Definition grant (want : nat) (l : list event) : (positive + nat) * list event :=
  match l with
  | [] => (inr want, [])
  | Fail e :: l' => (inl e, l')
  | AtMost k :: l' => (inr (Nat.min k want), l')
  end.

(** [read(fd, buf, count)]: the result and the bytes stored in [buf]. *)
Definition sys_read (fd : Z) (count : Z) (s : os) : Z * list byte * os :=
  match source fd s with
  | None =>
      let '(r, s') := failing (SysRead fd count) EBADF s in (r, [], s')
  | Some ahead =>
      match grant (Z.to_nat count) (sched s) with
      | (inl e, l) =>
          let '(r, s') := failing (SysRead fd count) (Z.pos e) (set_sched l s) in
          (r, [], s')
      | (inr k, l) =>
          let data := take k ahead in
          let n := Z.of_nat (length data) in
          (n, data,
           log (SysRead fd count n)
             (set_fdt (advance fd (length data) (fdt s)) (set_sched l s)))
      end
  end.

(** [d] with [chunk] stored at position [pos]. *)
Definition write_at (d : list byte) (pos : nat) (chunk : list byte) : list byte :=
  take pos d ++ replicate (pos - length d) x00 ++ chunk
    ++ drop (pos + length chunk) d.

(** Where a descriptor open for writing puts its bytes. *)
Definition sink (fd : Z) (s : os) : option handle :=
  match fdt s !! fd with
  | Some (Handle c pos fl) =>
      if writable fl then
        match c with
        | OnTty => Some (Handle c pos fl)
        | OnFile p =>
            match files s !! p with
            | Some (Inode _ (Bytes _) _ _) => Some (Handle c pos fl)
            | _ => None
            end
        end
      else None
  | None => None
  end.

Definition store (c : chan) (pos : nat) (chunk : list byte) (s : os) : os :=
  match c with
  | OnTty => set_tty (tty s ++ chunk) s
  | OnFile p =>
      match files s !! p with
      | Some (Inode m (Bytes d) a t) =>
          set_files (<[p := Inode m (Bytes (write_at d pos chunk)) a t]> (files s)) s
      | _ => s
      end
  end.

(** [write(fd, buf, count)], [data] being the [count] bytes at [buf]. *)
Definition sys_write (fd : Z) (data : list byte) (s : os) : Z * os :=
  let count := Z.of_nat (length data) in
  match sink fd s with
  | None => failing (SysWrite fd count) EBADF s
  | Some (Handle c pos _) =>
      match grant (length data) (sched s) with
      | (inl e, l) => failing (SysWrite fd count) (Z.pos e) (set_sched l s)
      | (inr k, l) =>
          let chunk := take k data in
          let n := Z.of_nat (length chunk) in
          (n, log (SysWrite fd count n)
                (set_fdt (advance fd (length chunk) (fdt s))
                   (store c pos chunk (set_sched l s))))
      end
  end.

(** [copy_file_range(inp, &off_in, out, &off_out, count, 0)]: the result
    and the two offsets.  Both descriptors must be on regular files, and
    not on the same one. *)
Definition sys_copy_file_range (inp off_in out off_out count : Z) (s : os)
  : Z * Z * Z * os :=
  let fails e s := let '(r, s') := failing (SysCopyRange inp out count) e s in
                   (r, off_in, off_out, s') in
  match fdt s !! inp, fdt s !! out with
  | Some (Handle ci _ fi), Some (Handle co _ fo) =>
      if negb (readable fi && writable fo) then fails EBADF s
      else
        match ci, co with
        | OnFile pi, OnFile po =>
            match files s !! pi, files s !! po with
            | Some (Inode _ (Bytes di) _ _), Some (Inode _ (Bytes _) _ _) =>
                if String.eqb pi po then fails EINVAL s
                else
                  match grant (Z.to_nat count) (sched s) with
                  | (inl e, l) => fails (Z.pos e) (set_sched l s)
                  | (inr k, l) =>
                      let chunk := take k (drop (Z.to_nat off_in) di) in
                      let n := Z.of_nat (length chunk) in
                      (n, off_in + n, off_out + n,
                       log (SysCopyRange inp out count n)
                         (store co (Z.to_nat off_out) chunk (set_sched l s)))
                  end
            | _, _ => fails EINVAL s
            end
        | _, _ => fails EINVAL s
        end
  | _, _ => fails EBADF s
  end.

(** [futimens(fd, times)]. *)
Definition sys_futimens (fd : Z) (atim mtim : Z) (s : os) : Z * os :=
  match fdt s !! fd with
  | Some (Handle (OnFile p) _ _) =>
      match files s !! p with
      | Some (Inode m b _ _) =>
          (0, log (SysFutimens fd 0)
                (set_files (<[p := Inode m b atim mtim]> (files s)) s))
      | None => failing (SysFutimens fd) EBADF s
      end
  | Some (Handle OnTty _ _) => (0, log (SysFutimens fd 0) s)
  | None => failing (SysFutimens fd) EBADF s
  end.

(** *** Directory streams.  A [DIR*] is the list of names not read yet;
    [NULL] is [None]. *)

Definition sys_opendir (path : string) (s : os) : option (list string) * os :=
  match files s !! path with
  | Some (Inode _ (Entries ns) _ _) => (Some ns, log (SysOpendir path true) s)
  | Some _ => (None, log (SysOpendir path false) (set_errno ENOTDIR s))
  | None => (None, log (SysOpendir path false) (set_errno ENOENT s))
  end.

(** [readdir(d)]: the next entry, or [NULL] at the end of the stream,
    where [errno] is left as it was. *)
Definition sys_readdir (d : list string) (s : os)
  : option string * list string * os :=
  match d with
  | [] => (None, [], log (SysReaddir None) s)
  | n :: d' => (Some n, d', log (SysReaddir (Some n)) s)
  end.

Definition sys_closedir (s : os) : unit * os := (tt, log SysClosedir s).

(** [getenv(name)]. *)
Definition sys_getenv (name : string) (s : os) : option string * os :=
  (environ s !! name, s).

End OS.
Import OS.

(** ** The code is sequenced in a state monad; [None] is a loop that ran
    out of the steps it was given. *)

Definition M (A : Type) : Type := os → option (A * os).

Definition ret {A} (a : A) : M A := fun s => Some (a, s).

Definition bind {A B} (m : M A) (k : A → M B) : M B :=
  fun s => match m s with
           | Some (a, s') => k a s'
           | None => None
           end.

(** A system call always returns. *)
Definition call {A} (f : os → A * os) : M A := fun s => Some (f s).

Notation "'do' x <- m ;; k" := (bind m (fun x => k))
  (at level 10, x name, m at level 99, k at level 200, only parsing).
Notation "'do' ' p <- m ;; k" := (bind m (fun x => let 'p := x in k))
  (at level 10, p pattern, m at level 99, k at level 200, only parsing).

(** ** Posix abstraction layer *)

(** The value of [errno]. *)
Definition get_errno : M Z := fun s => Some (errno s, s).

(** [kk_posix_open]: the descriptor, or [errno] when [open] fails. *)
Definition kk_posix_open (path : string) (mode : Z) : M Z :=
  do f <- call (sys_open path mode) ;;
  do e <- get_errno ;;
  ret (if f <? 0 then e else f).

Definition kk_posix_close (f : Z) : M Z :=
  do r <- call (sys_close f) ;;
  do e <- get_errno ;;
  ret (if r <? 0 then e else 0).

Definition kk_posix_fstat (f : Z) (st : stat_t) : M (Z * stat_t) :=
  do '(r, st1) <- call (sys_fstat f st) ;;
  do e <- get_errno ;;
  ret (if r <? 0 then e else 0, st1).

(** [kk_posix_fsize]: the status and [*fsize]. *)
Definition kk_posix_fsize (f : Z) : M (Z * Z) :=
  do '(err, st) <- kk_posix_fstat f stat_zero ;;
  if negb (err =? 0) then ret (err, 0)
  else ret (0, st_size st mod SIZE_MOD).

(** [kk_posix_stat]: [err] is [errno] when [stat] fails. *)
Definition kk_posix_stat (path : string) (st : stat_t) : M (Z * stat_t) :=
  do '(r, st1) <- call (sys_stat path st) ;;
  do e <- get_errno ;;
  let err := if r <? 0 then e else 0 in
  let err := if err <? 0 then e else err in
  ret (err, st1).

(** Steps that are enough for a retry loop moving [len] bytes: every turn
    of the loop that does not leave it uses up an event or moves a byte. *)
Definition retry_fuel (len : Z) (s : os) : nat :=
  S (length (sched s) + Z.to_nat len).

(** The [do ... while (ofs < buflen)] of [kk_posix_read_retry]; [buf] is
    what has been stored in the buffer so far, [buf[0..ofs)]. *)
Fixpoint read_loop (fuel : nat) (inp buflen ofs : Z) (buf : list byte)
  : M (Z * Z * list byte) :=
  match fuel with
  | O => fun _ => None
  | S fuel' =>
      let todo := size_sub buflen ofs in
      let todo := if todo >? KK_SSIZE_MAX then KK_SSIZE_MAX else todo in
      do '(n, data) <- call (sys_read inp todo) ;;
      if n <? 0 then
        do e <- get_errno ;;
        if negb (e =? EAGAIN) && negb (e =? EINTR) then ret (e, ofs, buf)
        else if ofs <? buflen then read_loop fuel' inp buflen ofs buf
             else ret (0, ofs, buf)
      else if n =? 0 then ret (0, ofs, buf)
      else
        let ofs' := size_add ofs n in
        if ofs' <? buflen then read_loop fuel' inp buflen ofs' (buf ++ data)
        else ret (0, ofs', buf ++ data)
  end.

(** [kk_posix_read_retry]: the status, [*read_count] and the buffer. *)
Definition kk_posix_read_retry (inp buflen : Z) : M (Z * Z * list byte) :=
  fun s => read_loop (retry_fuel buflen s) inp buflen 0 [] s.

(** The [do ... while (ofs < len)] of [kk_posix_write_retry]; [len] is the
    extent of [buf]. *)
Fixpoint write_loop (fuel : nat) (out : Z) (buf : list byte) (ofs : Z)
  : M (Z * Z) :=
  match fuel with
  | O => fun _ => None
  | S fuel' =>
      let len := Z.of_nat (length buf) in
      let todo := size_sub len ofs in
      let todo := if todo >? KK_SSIZE_MAX then KK_SSIZE_MAX else todo in
      do n <- call (sys_write out (take (Z.to_nat todo) (drop (Z.to_nat ofs) buf))) ;;
      if n <? 0 then
        do e <- get_errno ;;
        if negb (e =? EAGAIN) && negb (e =? EINTR) then ret (e, ofs)
        else if ofs <? len then write_loop fuel' out buf ofs
             else ret (0, ofs)
      else if n =? 0 then ret (EIO, ofs)
      else
        let ofs' := size_add ofs n in
        if ofs' <? len then write_loop fuel' out buf ofs'
        else ret (0, ofs')
  end.

(** [kk_posix_write_retry]: the status and [*write_count]. *)
Definition kk_posix_write_retry (out : Z) (buf : list byte) : M (Z * Z) :=
  fun s => write_loop (retry_fuel (Z.of_nat (length buf)) s) out buf 0 s.

(** ** Text files *)

(** Modelled from the spec: [kk_string_convert_from_mutf8] belongs to the
    managed string representation, which os.c only calls (the spec lists
    the encoding conversions as an external collaborator); it is taken to
    leave the bytes as they are. *)
Definition kk_string_convert_from_mutf8 (str : list byte) : list byte := str.

(** [kk_os_read_text_file]: the status, and [*result] where it is assigned. *)
Definition kk_os_read_text_file (path : string) : M (Z * option (list byte)) :=
  do f <- kk_posix_open path O_RDONLY ;;
  if f <? 0 then do e <- get_errno ;; ret (e, None)
  else
    do '(err, len) <- kk_posix_fsize f ;;
    if negb (err =? 0) then
      do _ <- kk_posix_close f ;; ret (err, None)
    else
      do '(err, nread, str) <- kk_posix_read_retry f len ;;
      do _ <- kk_posix_close f ;;
      if err <? 0 then ret (err, None)
      else
        let str := if nread <? len then take (Z.to_nat nread) str else str in
        ret (0, Some (kk_string_convert_from_mutf8 str)).

Definition kk_os_write_text_file (path : string) (content : list byte) : M Z :=
  do f <- kk_posix_open path O_WRONLY ;;
  if f <? 0 then do e <- get_errno ;; ret e
  else
    let len := Z.of_nat (length content) in
    do err <-
      (if len >? 0 then
         do '(err, nwritten) <- kk_posix_write_retry f content ;;
         ret (if (err =? 0) && (nwritten <? len) then EIO else err)
       else ret 0) ;;
    do _ <- kk_posix_close f ;;
    ret err.

(** ** mkdir *)

(** [c == '/' || c == '\\'] *)
Definition is_dir_sep (c : ascii) : bool :=
  Ascii.eqb c "/" || Ascii.eqb c "\".

(** What the loop of [kk_os_ensure_dir] does at a separator or at the end
    of the path, [cpath] being the path cut there: the new value of [err]. *)
Definition ensure_prefix (cpath : string) (mode : Z) : M Z :=
  if negb (String.eqb cpath "") then
    do '(_, st) <- call (sys_stat cpath stat_zero) ;;
    let isdir := negb (Z.land (st_mode st) S_IFDIR =? 0) in
    if negb isdir then
      do res <- call (sys_mkdir cpath mode) ;;
      do e <- get_errno ;;
      if negb (res =? 0) && negb (e =? EEXIST) then ret e else ret 0
    else ret 0
  else ret 0.

(** The [do ... while (err == 0 && *p++ != 0)]: [pre] is the path before
    [p], [rest] the path from [p] on. *)
Fixpoint ensure_loop (pre rest : string) (mode : Z) : M Z :=
  match rest with
  | EmptyString => ensure_prefix pre mode
  | String c rest' =>
      do err <- (if is_dir_sep c then ensure_prefix pre mode else ret 0) ;;
      if err =? 0 then ensure_loop (pre +:+ String c EmptyString) rest' mode
      else ret err
  end.

Definition kk_os_ensure_dir (path : string) (mode : Z) : M Z :=
  let mode :=
    if mode <? 0
    then Z.lor S_IRWXU (Z.lor S_IRGRP (Z.lor S_IXGRP (Z.lor S_IROTH S_IXOTH)))
    else mode in
  ensure_loop "" path mode.

(** ** Copy File *)

(** The [while (off_in < len)] around [copy_file_range]: the status and
    [off_in] when the loop is left. *)
Fixpoint range_loop (fuel : nat) (inp out len off_in off_out : Z) : M (Z * Z) :=
  match fuel with
  | O => fun _ => None
  | S fuel' =>
      if off_in mod SIZE_MOD <? len then
        let toread := size_sub len (off_in mod SIZE_MOD) in
        let toread := if toread >? SSIZE_MAX then SSIZE_MAX else toread in
        do '(n, off_in', off_out') <-
          call (sys_copy_file_range inp off_in out off_out toread) ;;
        if n <? 0 then
          do e <- get_errno ;;
          if negb (e =? EAGAIN) && negb (e =? EINTR) then ret (e, off_in')
          else range_loop fuel' inp out len off_in' off_out'
        else if n =? 0 then ret (0, off_in')
        else range_loop fuel' inp out len off_in' off_out'
      else ret (0, off_in)
  end.

(** The generic [while (todo > 0)] over a buffer of [buflen] bytes. *)
Fixpoint buffer_loop (fuel : nat) (inp out buflen todo : Z) : M Z :=
  match fuel with
  | O => fun _ => None
  | S fuel' =>
      if todo >? 0 then
        let toread := if todo >? buflen then buflen else todo in
        do '(err, read_count, buf) <- kk_posix_read_retry inp toread ;;
        if negb (err =? 0) || (read_count =? 0) then ret err
        else
          do '(err, write_count) <-
            kk_posix_write_retry out (take (Z.to_nat read_count) buf) ;;
          if negb (err =? 0) then ret err
          else buffer_loop fuel' inp out buflen (size_sub todo read_count)
      else ret 0
  end.

(** The copy loop once [copy_file_range] has been given up ([kk_malloc]
    is taken to succeed). *)
Definition generic_copy (inp out len : Z) : M Z :=
  let buflen := 1024 * 1024 in
  let buflen := if buflen >? len then len else buflen in
  buffer_loop (S (Z.to_nat len)) inp out buflen len.

(** [kk_posix_copy_file], with [COPY_FR_COPY]. *)
Definition kk_posix_copy_file (inp out len : Z) : M Z :=
  do '(err, off_in) <- (fun s => range_loop (retry_fuel len s) inp out len 0 0 s) ;;
  if negb (err =? EINVAL) || (off_in >? 0) then ret err
  else generic_copy inp out len.

(** Modelled from the spec: [kk_posix_creat] is called by
    [kk_os_copy_file] and defined nowhere in os.c; the spec has the copy
    "create/overwrite destination inheriting the source's permission bits",
    and the caller tests its result for [< 0]: it is [creat]. *)
Definition kk_posix_creat (path : string) (mode : Z) : M Z :=
  call (sys_creat path mode).

Definition kk_os_copy_file (from to : string) (preserve_mtime : bool) : M Z :=
  do inp <- kk_posix_open from O_RDONLY ;;
  if inp <? 0 then get_errno
  else
    do '(r, finfo) <- call (sys_fstat inp stat_zero) ;;
    if r <? 0 then
      do _ <- call (sys_close inp) ;; get_errno
    else
      do out <- kk_posix_creat to (st_mode finfo) ;;
      if out <? 0 then
        do _ <- call (sys_close inp) ;; get_errno
      else
        do err <- kk_posix_copy_file inp out (st_size finfo mod SIZE_MOD) ;;
        do _ <-
          (if (err =? 0) && preserve_mtime
           then call (sys_futimens out (st_atim finfo) (st_mtim finfo))
           else ret 0) ;;
        do _ <- call (sys_close inp) ;;
        do r <- call (sys_close out) ;;
        do e <- get_errno ;;
        ret (if r =? -1 then (if err =? 0 then e else err) else err).

(** ** Stat directory *)

Definition kk_os_is_directory (path : string) : M bool :=
  do '(err, st) <- kk_posix_stat path stat_zero ;;
  if negb (err =? 0) then ret false
  else ret (negb (Z.land (st_mode st) S_IFDIR =? 0)).

Definition kk_os_is_file (path : string) : M bool :=
  do '(err, st) <- kk_posix_stat path stat_zero ;;
  if negb (err =? 0) then ret false
  else ret (negb (Z.land (st_mode st) S_IFREG =? 0)).

(** ** List directory *)

(** [os_findnext]: whether there is an entry, the stream, [*entry], [*err]. *)
Definition os_findnext (d : list string)
  : M (bool * list string * option string * Z) :=
  do '(entry, d') <- call (sys_readdir d) ;;
  do e <- get_errno ;;
  let found := match entry with Some _ => true | None => false end in
  ret (found, d', entry, if found || (e =? ENOENT) then 0 else e).

Definition os_findfirst (path : string)
  : M (bool * list string * option string * Z) :=
  do d <- call (sys_opendir path) ;;
  match d with
  | None => do e <- get_errno ;; ret (false, [], None, e)
  | Some d => os_findnext d
  end.

(** [os_direntry_name]: the empty string for the two pseudo-entries. *)
Definition os_direntry_name (entry : option string) : string :=
  match entry with
  | None => ""
  | Some dname =>
      if String.eqb dname "." || String.eqb dname ".." then "" else dname
  end.

(** Modelled from the spec: the vector of kklib is not part of os.c; the
    spec asks of it "pre-sized allocation, in-place element write, and
    resize-to-exact-count".  A vector is the list of its boxed elements. *)
Inductive kk_box_t :=
| kk_integer_box (i : Z)
| kk_string_box (s : string)
| kk_box_null.

Definition kk_vector_empty : list kk_box_t := [].

Definition kk_vector_alloc (len : Z) (def : kk_box_t) : list kk_box_t :=
  replicate (Z.to_nat len) def.

Definition kk_vector_realloc (vec : list kk_box_t) (newlen : Z) (def : kk_box_t)
  : list kk_box_t :=
  take (Z.to_nat newlen) vec ++ replicate (Z.to_nat newlen - length vec) def.

(** "push name": the vector is grown when it is full, the name stored at
    [count]; the vector, [count] and [len] afterwards. *)
Definition push_name (name : string) (vec : list kk_box_t) (count len : Z)
  : list kk_box_t * Z * Z :=
  let '(vec, len) :=
    if count =? len then
      let newlen := if len >? 1000 then size_add len 1000 else size_mul 2 len in
      (kk_vector_realloc vec newlen (kk_integer_box 0), newlen)
    else (vec, len) in
  (<[Z.to_nat count := kk_string_box name]> vec, size_add count 1, len).

(** The [do ... while (os_findnext(d, &entry, &err))]: [*err], the vector
    and [count] when the stream ends. *)
Fixpoint list_loop (fuel : nat) (d : list string) (entry : option string)
    (vec : list kk_box_t) (count len : Z) : M (Z * list kk_box_t * Z) :=
  match fuel with
  | O => fun _ => None
  | S fuel' =>
      let name := os_direntry_name entry in
      let '(vec, count, len) :=
        if negb (String.eqb name "") then push_name name vec count len
        else (vec, count, len) in
      do '(ok, d', entry', err) <- os_findnext d ;;
      if ok then list_loop fuel' d' entry' vec count len
      else ret (err, vec, count)
  end.

(** [kk_os_list_directory]: the status and [*contents]. *)
Definition kk_os_list_directory (dir : string) : M (Z * list kk_box_t) :=
  do '(ok, d, entry, err) <- os_findfirst dir ;;
  if negb ok then ret (err, kk_vector_empty)
  else
    let len := 100 in
    let vec := kk_vector_alloc len (kk_integer_box 0) in
    do '(err, vec, count) <- list_loop (S (length d)) d entry vec 0 len ;;
    do _ <- call sys_closedir ;;
    ret (err, kk_vector_realloc vec count kk_box_null).

(** ** Realpath and the application path *)

Definition KK_PATH_SEP : ascii := ":".
Definition KK_DIR_SEP : ascii := "/".

(** [strchr(s, c)]: how far into [s] the first [c] is. *)
Fixpoint strchr (s : string) (c : ascii) : option nat :=
  match s with
  | EmptyString => None
  | String a r => if Ascii.eqb a c then Some O else S <$> strchr r c
  end.

(** [p + n], a pointer into a string being the string from there on. *)
Fixpoint ptr_add (p : string) (n : nat) {struct n} : string :=
  match n with
  | O => p
  | S n' =>
      match p with
      | String _ r => ptr_add r n'
      | EmptyString => EmptyString
      end
  end.

(** [p[0]], which is the terminating zero for the empty string. *)
Definition first_char (p : string) : ascii :=
  match p with
  | String c _ => c
  | EmptyString => zero
  end.

(** Modelled from the spec: [kk_context_t] is declared in kklib.h; os.c
    reads the "process argument storage owned by the runtime's startup
    sequence" from it, [argc] and [argv]. *)
Record kk_context_t := Ctx {
  argc : Z;
  argv : list string
}.

Section PathResolver.

(** The canonicalization of the C library, [realpath(path, NULL)]: the
    resolved name, or [NULL]. *)
Variable realpath : string → option string.

Definition sys_realpath (path : string) (s : os) : option string * os :=
  match realpath path with
  | Some r => (Some r, log (SysRealpath path true) s)
  | None => (None, log (SysRealpath path false) (set_errno ENOENT s))
  end.

Definition kk_os_realpath (path : string) : M string :=
  do rpath <- call (sys_realpath path) ;;
  ret (match rpath with Some r => r | None => path end).

(** The [while (p < pend)] of [kk_os_searchpathx]. *)
Fixpoint searchpath_loop (fuel : nat) (p fname : string) : M string :=
  match fuel with
  | O => fun _ => None
  | S fuel' =>
      if negb (String.eqb p "") then
        let r := strchr p KK_PATH_SEP in
        let plen := match r with Some i => i | None => String.length p end in
        let buf := substring 0 plen p +:+ "/" +:+ fname in
        let p' := match r with Some i => ptr_add p (i + 1) | None => EmptyString end in
        do isfile <- kk_os_is_file buf ;;
        if isfile then kk_os_realpath buf
        else searchpath_loop fuel' p' fname
      else ret ""
  end.

(** [kk_os_searchpathx] ([kk_malloc] is taken to succeed). *)
Definition kk_os_searchpathx (paths fname : option string) : M string :=
  match paths, fname with
  | Some paths, Some fname =>
      if String.eqb fname "" then ret ""
      else searchpath_loop (S (String.length paths)) paths fname
  | _, _ => ret ""
  end.

Definition kk_os_app_path_generic (ctx : kk_context_t) : M string :=
  let p := if argc ctx >? 0 then argv ctx !! O else None in
  match p with
  | None => ret ""
  | Some p =>
      if (String.length p =? 0)%nat then ret ""
      else if Ascii.eqb (first_char p) "/" then kk_os_realpath p
      else
        match strchr p "/" with
        | Some _ => kk_os_realpath ("./" +:+ p)
        | None =>
            do paths <- call (sys_getenv "PATH") ;;
            do s <- kk_os_searchpathx paths (Some p) ;;
            if String.eqb s "" then kk_os_realpath p else ret s
        end
  end.

End PathResolver.

(** ** Run system command *)

(** A stream opened by [popen]: the characters the command has yet to
    deliver, how the stream ends once they are read (at the end of the
    file, or on a read error with its error number), and the error number
    [pclose] fails with, if it fails. *)
Record file_t := File {
  f_ahead : list ascii;
  f_error : option Z;
  f_close : option Z
}.

Definition newline : ascii := "010".

(** What one [fgets] takes from the characters ahead, given room for [n]
    characters: the characters up to and including the first newline, at
    most [n] of them; what is left; and whether the end of the stream was
    reached looking for more. *)
Fixpoint fgets_chunk (n : nat) (ahead : list ascii)
  : list ascii * list ascii * bool :=
  match n with
  | O => ([], ahead, false)
  | S n' =>
      match ahead with
      | [] => ([], [], true)
      | c :: r =>
          if Ascii.eqb c newline then ([c], r, false)
          else let '(chunk, rest, hit) := fgets_chunk n' r in
               (c :: chunk, rest, hit)
      end
  end.

(** [fgets(buf, size, f)]: the characters stored in [buf], or [NULL] when
    the end of the file is met before any character, or a read error. *)
Definition sys_fgets (size : Z) (f : file_t) (s : os)
  : option (list ascii) * file_t * os :=
  let '(chunk, rest, hit) := fgets_chunk (Z.to_nat (size - 1)) (f_ahead f) in
  let f' := File rest (f_error f) (f_close f) in
  if hit then
    match f_error f with
    | Some e => (None, f', set_errno e s)
    | None =>
        match chunk with
        | [] => (None, f', s)
        | _ => (Some chunk, f', s)
        end
    end
  else (Some chunk, f', s).

(** [feof(f)], asked once [fgets] has returned [NULL]. *)
Definition sys_feof (f : file_t) : bool :=
  match f_error f with
  | None => true
  | Some _ => false
  end.

(** [pclose(f)]. *)
Definition sys_pclose (f : file_t) (s : os) : Z * os :=
  match f_close f with
  | Some e => (-1, set_errno e s)
  | None => (0, s)
  end.

(** Modelled from the spec: [kk_string_alloc_from_mutf8] and
    [kk_string_cat] belong to "the managed string/byte-buffer
    representation and its encoding conversions", which os.c only calls.
    The first is taken to make a string of a zero-terminated buffer, that
    is of the characters before its first zero, as they are; the second to
    join two strings. *)
Fixpoint c_string (buf : list ascii) : list ascii :=
  match buf with
  | [] => []
  | c :: r => if Ascii.eqb c zero then [] else c :: c_string r
  end.

(** The [while (fgets(buf, 1024, f) != NULL)] of [kk_os_run_command]. *)
Fixpoint run_loop (fuel : nat) (f : file_t) (out : list ascii)
  : M (list ascii * file_t) :=
  match fuel with
  | O => fun _ => None
  | S fuel' =>
      do '(r, f') <- call (sys_fgets 1024 f) ;;
      match r with
      | None => ret (out, f')
      | Some buf => run_loop fuel' f' (out ++ c_string buf)
      end
  end.

Section RunCommand.

(** [popen(cmd, "r")]: the stream, or the error number it fails with. *)
Variable popen : string → file_t + Z.

Definition sys_popen (cmd : string) (s : os) : option file_t * os :=
  match popen cmd with
  | inl f => (Some f, s)
  | inr e => (None, set_errno e s)
  end.

(** [kk_os_run_command]: the status, and [*output] where it is assigned. *)
Definition kk_os_run_command (cmd : string) : M (Z * option (list ascii)) :=
  do f <- call (sys_popen cmd) ;;
  match f with
  | None => do e <- get_errno ;; ret (e, None)
  | Some f =>
      do '(out, f') <- (fun s => run_loop (S (length (f_ahead f))) f [] s) ;;
      do _ <- (if sys_feof f' then call (fun s => (tt, set_errno 0 s)) else ret tt) ;;
      do _ <- call (sys_pclose f') ;;
      do e <- get_errno ;;
      ret (e, Some out)
  end.

End RunCommand.

(** ** Environment *)

(** The first [while] over an entry of [environ], which moves [p] to
    the first ['='] or to the terminating zero: how far [p] gets.  A C string is the characters before its
    terminating zero. *)
Fixpoint scan_name (p : string) : nat :=
  match p with
  | EmptyString => O
  | String c r => if Ascii.eqb c "=" then O else S (scan_name r)
  end.

(** One turn of the copying loop of [kk_os_get_env]: the name and the
    value of the entry.  On an entry without ['='] the [p++] that is to
    skip it steps over the terminating zero and the value is read from
    beyond the entry: there is no result.

    Modelled from the spec: [kk_string_alloc_from_mutf8n] belongs to the
    managed string representation as well; it is taken to make a string of
    the [len] characters at the pointer, as they are. *)
Definition env_entry (e : string) : option (string * string) :=
  let n := scan_name e in
  let name := substring 0 n e in
  match ptr_add e n with
  | String _ pvalue => Some (name, pvalue)
  | EmptyString => None
  end.

(** The [for (size_t i = 0; i < count; i++)] over the entries from [i] on. *)
Fixpoint env_loop (entries : list string) (i : Z) (v : list kk_box_t)
  : option (list kk_box_t) :=
  match entries with
  | [] => Some v
  | e :: entries' =>
      match env_entry e with
      | None => None
      | Some (name, val) =>
          let v := <[Z.to_nat (size_mul 2 i) := kk_string_box name]> v in
          let v := <[Z.to_nat (size_add (size_mul 2 i) 1) := kk_string_box val]> v in
          env_loop entries' (size_add i 1) v
      end
  end.

(** [kk_os_get_env], [env] being what [kk_get_environ] returns: [NULL], or
    the entries before the terminating null pointer. *)
Definition kk_os_get_env (env : option (list string)) : option (list kk_box_t) :=
  match env with
  | None => Some kk_vector_empty
  | Some entries =>
      let count := Z.of_nat (length entries) in
      env_loop entries 0 (kk_vector_alloc (size_mul count 2) kk_box_null)
  end.

(** ** Path max *)

(** What [kk_os_path_max] works on, on a unix without [PATH_MAX]: its
    static variable [path_max], and the answers [pathconf] has yet to
    give. *)
Record path_max_state := PathMax {
  path_max : Z;
  pathconf_answers : list Z
}.

(** [pathconf("/", _PC_PATH_MAX)]: a limit, or -1. *)
Definition sys_pathconf (st : path_max_state) : Z * path_max_state :=
  match pathconf_answers st with
  | m :: rest => (m, PathMax (path_max st) rest)
  | [] => (-1, st)
  end.

(** [kk_os_path_max]: the result and the state afterwards. *)
Definition kk_os_path_max (st : path_max_state) : Z * path_max_state :=
  let st :=
    if path_max st <=? 0 then
      let '(m, st) := sys_pathconf st in
      if m <=? 0 then PathMax 4096 (pathconf_answers st)
      else if m <? 256 then PathMax 256 (pathconf_answers st)
      else PathMax (m mod SIZE_MOD) (pathconf_answers st)
    else st in
  (path_max st, st).

(** ** Vocabulary of the statements *)

(** A process with the three standard streams on the terminal. *)
Definition std_fdt : gmap Z handle :=
  <[0 := Handle OnTty 0 O_RDONLY]>
    (<[1 := Handle OnTty 0 O_WRONLY]>
       (<[2 := Handle OnTty 0 O_WRONLY]> ∅)).

Definition boot (fs : gmap string inode) : os := Os fs std_fdt 0 [] [] ∅ [].

Definition hello : list byte := [x68; x65; x6c; x6c; x6f].

(** What a finished write loop, entered at [ofs], reports. *)
Definition write_post (buf : list byte) (ofs err moved : Z) : Prop :=
  let len := Z.of_nat (length buf) in
  ofs ≤ moved ≤ len ∧ 0 ≤ err ∧ err ≠ EINTR ∧ err ≠ EAGAIN ∧
  (err = 0 → moved = len) ∧
  (ofs < len → err ≠ 0 → moved < len).

(** How a read loop that stopped short came to stop: on a read of zero
    bytes, or on a failed read whose [errno] it reports. *)
Definition stopped_short (inp err : Z) (s' : os) : Prop :=
  (err = 0 ∧ ∃ c t, trace s' = SysRead inp c 0 :: t) ∨
  (err ≠ 0 ∧ err = errno s' ∧ ∃ c t, trace s' = SysRead inp c (-1) :: t).

(** What a finished read loop, entered at [ofs] with [buf] stored, reports. *)
Definition read_post (inp buflen ofs : Z) (buf : list byte)
    (err moved : Z) (buf' : list byte) (s' : os) : Prop :=
  ofs ≤ moved ≤ buflen ∧ 0 ≤ err ∧ err ≠ EINTR ∧ err ≠ EAGAIN ∧
  (∃ d, buf' = buf ++ d ∧ Z.of_nat (length d) = moved - ofs) ∧
  (moved < buflen → stopped_short inp err s').

(** The request a loop issues at offset [ofs] of [len] bytes. *)
Definition chunk_at (len ofs : Z) : Z :=
  let todo := size_sub len ofs in
  if todo >? KK_SSIZE_MAX then KK_SSIZE_MAX else todo.

(** A file of five bytes read and written while signals interrupt. *)
Definition interrupted : os :=
  set_sched [Fail 4; AtMost 2; Fail 11; Fail 4]
    (set_fdt (<[3 := Handle (OnFile "in") 0 O_RDONLY]> std_fdt)
       (boot {[ "in" := Inode 420 (Bytes hello) 0 0 ]})).

(** The [mkdir] calls of a trace and their results, oldest first. *)
Definition mkdir_calls (tr : list syscall) : list (string * Z) :=
  rev (omap (fun c => match c with
                      | SysMkdir p _ r => Some (p, r)
                      | _ => None
                      end) tr).

Definition is_directory_at (fs : gmap string inode) (p : string) : bool :=
  match fs !! p with
  | Some i => is_dir i
  | None => false
  end.

(** The names [kk_os_list_directory] keeps: all but the empty one and the
    two pseudo-entries. *)
Definition real_name (n : string) : bool :=
  negb (String.eqb n "") && negb (String.eqb n ".") && negb (String.eqb n "..").

(** The status a directory walk ends with: [errno] as it was before the
    last [readdir], unless that is ENOENT. *)
Definition stale_status (s : os) : Z :=
  if errno s =? ENOENT then 0 else errno s.

(** A working directory with an empty directory "d" and a regular file
    "f" next to it. *)
Definition dir_and_file : gmap string inode :=
  <["d" := Inode 493 (Entries ["."; ".."]) 0 0]>
    (<["f" := Inode 420 (Bytes hello) 0 0]> ∅).

(** The bytes [copy_file_range] has transferred over a trace. *)
Definition range_moved (tr : list syscall) : Z :=
  foldr (fun c acc => match c with
                      | SysCopyRange _ _ _ n => Z.max n 0 + acc
                      | _ => acc
                      end) 0 tr.

(** A source of five bytes open on descriptor 3, and an empty destination
    open on descriptor 4. *)
Definition copying (l : list event) : os :=
  set_sched l
    (set_fdt (<[4 := Handle (OnFile "dst") 0 O_WRONLY]>
                (<[3 := Handle (OnFile "src") 0 O_RDONLY]> std_fdt))
       (boot (<["dst" := Inode 420 (Bytes []) 0 0]>
                (<["src" := Inode 420 (Bytes hello) 0 0]> ∅)))).

Definition content (s : os) (p : string) : option (list byte) :=
  match files s !! p with
  | Some (Inode _ (Bytes d) _ _) => Some d
  | _ => None
  end.

(** *** Search-path resolution, as the spec words it *)

(** The segments of a search path: what stands between its separators,
    in order; nothing follows a last separator. *)
Fixpoint segments_from (cur s : string) : list string :=
  match s with
  | EmptyString => if String.eqb cur "" then [] else [cur]
  | String c r =>
      if Ascii.eqb c KK_PATH_SEP then cur :: segments_from "" r
      else segments_from (cur +:+ String c EmptyString) r
  end.

Definition path_segments (paths : string) : list string :=
  segments_from "" paths.

(** [segment/name] for each segment of the variable, if it is set. *)
Definition candidates (paths : option string) (name : string) : list string :=
  match paths with
  | Some paths => (fun seg => seg +:+ "/" +:+ name) <$> path_segments paths
  | None => []
  end.

Definition is_regular_at (fs : gmap string inode) (p : string) : bool :=
  match fs !! p with
  | Some (Inode _ (Bytes _) _ _) => true
  | _ => false
  end.

(** The canonicalized form of a path: what [realpath] gives, or the path
    itself where [realpath] fails. *)
Definition canonical (realpath : string → option string) (p : string) : string :=
  match realpath p with
  | Some r => r
  | None => p
  end.

(** The first candidate that is a regular file, canonicalized; the bare
    name canonicalized if there is none. *)
Definition resolve_spec (realpath : string → option string)
    (fs : gmap string inode) (paths : option string) (name : string) : string :=
  match List.find (is_regular_at fs) (candidates paths name) with
  | Some c => canonical realpath c
  | None => canonical realpath name
  end.

(** What the test of [kk_os_is_file] accepts: a name whose file type has
    the bit of [S_IFREG], which a regular file has and a socket has. *)
Definition passes_for_file (fs : gmap string inode) (p : string) : bool :=
  match fs !! p with
  | Some (Inode _ (Bytes _) _ _) | Some (Inode _ Socket _ _) => true
  | _ => false
  end.

(** The first candidate that passes for a file, canonicalized; the bare
    name canonicalized if there is none. *)
Definition resolve_code (realpath : string → option string)
    (fs : gmap string inode) (paths : option string) (name : string) : string :=
  match List.find (passes_for_file fs) (candidates paths name) with
  | Some c => canonical realpath c
  | None => canonical realpath name
  end.

(** A socket bound to the name "tool" in "/x", and a regular file of that
    name in "/y". *)
Definition socket_before_tool : gmap string inode :=
  <["/x/tool" := Inode 493 Socket 0 0]>
    (<["/y/tool" := Inode 493 (Bytes hello) 0 0]> ∅).

(** A canonicalization that knows one file. *)
Definition realpath_tool (p : string) : option string :=
  if String.eqb p "/y/tool" then Some "/srv/y/tool" else None.

Definition with_path (paths : string) (s : os) : os :=
  Os (files s) (fdt s) (errno s) (sched s) (tty s) (<["PATH" := paths]> (environ s))
     (trace s).

(** ** Vocabulary of the further properties *)

(** A schedule under which a transfer runs to its end: every failure is
    one the loops retry on, and no transfer is cut down to nothing. *)
Definition benign (l : list event) : bool :=
  forallb (fun e => match e with
                    | Fail c => (Z.pos c =? EINTR) || (Z.pos c =? EAGAIN)
                    | AtMost k => (0 <? k)%nat
                    end) l.

(** A failure the loops do not retry on. *)
Definition final (e : positive) : bool :=
  negb (Z.pos e =? EINTR) && negb (Z.pos e =? EAGAIN).

(** The bytes a run of events lets through at most. *)
Fixpoint granted (l : list event) : nat :=
  match l with
  | [] => 0
  | Fail _ :: l' => granted l'
  | AtMost k :: l' => k + granted l'
  end.

(** A run of events in which some transfer takes place. *)
Definition transfers (l : list event) : bool :=
  existsb (fun e => match e with AtMost _ => true | Fail _ => false end) l.

(** Calls of [copy_file_range] from [inp] to [out], and no others. *)
Definition range_calls (inp out : Z) (calls : list syscall) : bool :=
  forallb (fun c => match c with
                    | SysCopyRange i o _ _ => (i =? inp) && (o =? out)
                    | _ => false
                    end) calls.

(** Descriptor [fd] is open on the file at [p], at position [pos]. *)
Definition at_pos (fd : Z) (p : string) (pos : nat) (fl : Z) (s : os) : Prop :=
  fdt s !! fd = Some (Handle (OnFile p) pos fl).

(** [p] is a regular file holding [d]. *)
Definition regular (p : string) (m : Z) (d : list byte) (a t : Z) (s : os) : Prop :=
  files s !! p = Some (Inode m (Bytes d) a t).

(** [open(p, flags)] succeeds in [s]: the name is there and the file
    behind it may be opened that way. *)
Definition opens (p : string) (flags : Z) (s : os) : bool :=
  0 <=? (sys_open p flags s).1.

(** [creat(p, mode)] succeeds in [s], which it does or does not whatever
    the mode. *)
Definition creates (p : string) (s : os) : bool :=
  0 <=? (sys_creat p 0 s).1.

(** The file at [p], if there is one, may be read. *)
Definition readable_if_there (p : string) (s : os) : bool :=
  match files s !! p with
  | Some i => may_read i
  | None => true
  end.

(** Two descriptor tables that agree everywhere but at [fd]. *)
Definition same_but (fd : Z) (t t' : gmap Z handle) : Prop :=
  ∀ k, k ≠ fd → t' !! k = t !! k.

(** A schedule under which [copy_file_range] is refused: after
    interruptions, if any, it fails with EINVAL; what follows is benign. *)
Fixpoint falls_back (l : list event) : bool :=
  match l with
  | Fail e :: l' =>
      if Z.pos e =? EINVAL then benign l'
      else ((Z.pos e =? EINTR) || (Z.pos e =? EAGAIN)) && falls_back l'
  | _ => false
  end.

(** A name that stands for a file or can be given to one: not the empty
    one, and either a file that is not a directory, or a free name in a
    directory that exists. *)
Definition creatable (p : string) (s : os) : bool :=
  negb (String.eqb p "") &&
  match files s !! p with
  | Some i => negb (is_dir i)
  | None =>
      match parent_errno p (files s) with
      | None => true
      | Some _ => false
      end
  end.

(** The schedules under which a copy runs to its end, by the one loop or
    by the other. *)
Definition copy_schedule (l : list event) : bool := benign l || falls_back l.

(** The prefixes of a path at which [kk_os_ensure_dir] stops: [pre]
    followed by what of [rest] stands before each separator, and before
    the end. *)
Fixpoint stops (pre rest : string) : list string :=
  match rest with
  | EmptyString => [pre]
  | String c rest' =>
      (if is_dir_sep c then [pre] else [])
        ++ stops (pre +:+ String c EmptyString) rest'
  end.

(** Whether a name is a directory, a file of another kind, or free. *)
Definition kind_at (fs : gmap string inode) (p : string) : option bool :=
  is_dir <$> fs !! p.

(** A file system that has only gained directories: every name is of the
    kind it was, or was free and is a directory. *)
Definition evolves (fs fs' : gmap string inode) : Prop :=
  ∀ p, kind_at fs' p = kind_at fs p ∨ (fs !! p = None ∧ kind_at fs' p = Some true).

(** "a/b" made in an empty working directory. *)
Definition after_ensure : os :=
  match kk_os_ensure_dir "a/b" (-1) (boot ∅) with
  | Some (_, s) => s
  | None => boot ∅
  end.

(** Every prefix at which [kk_os_ensure_dir] stops has a file of some kind
    behind it. *)
Definition settled (fs : gmap string inode) (path : string) : bool :=
  forallb (fun p => String.eqb p "" || bool_decide (is_Some (fs !! p)))
          (stops "" path).

(** An entry of the environment with a ['='] in it. *)
Definition has_equals (e : string) : bool :=
  match strchr e "=" with
  | Some _ => true
  | None => false
  end.

(** The two strings a name and its value are boxed as. *)
Definition boxed_pair (nv : string * string) : list kk_box_t :=
  [kk_string_box nv.1; kk_string_box nv.2].

(** A buffer without a zero character in it. *)
Definition zero_free (l : list ascii) : bool :=
  forallb (fun c => negb (Ascii.eqb c zero)) l.

(** A [popen] under which a command delivers its own text, and the empty
    command cannot be run. *)
Definition popen_echo (cmd : string) : file_t + Z :=
  if String.eqb cmd "" then inr ENOENT
  else inl (File (list_ascii_of_string cmd) None None).

(** The results of [n] calls of [kk_os_path_max] in a row, and the state
    after them. *)
Fixpoint path_max_calls (n : nat) (st : path_max_state) : list Z * path_max_state :=
  match n with
  | O => ([], st)
  | S n' =>
      let '(r, st) := kk_os_path_max st in
      let '(rs, st) := path_max_calls n' st in
      (r :: rs, st)
  end.

(** Every prefix at which [kk_os_ensure_dir] stops is a directory or a
    free name: no file of another kind is in the way. *)
Definition unobstructed (fs : gmap string inode) (path : string) : bool :=
  forallb (fun p => match kind_at fs p with
                    | Some false => false
                    | _ => true
                    end) (stops "" path).

(** ** Facts about the system calls *)

Lemma grant_le want l r l' :
  grant want l = (r, l') →
  (length l' ≤ length l)%nat ∧
  match r with
  | inl _ => (length l' < length l)%nat
  | inr k => (k ≤ want)%nat
  end.
Proof.
  destruct l as [|[e|k] l0]; simpl; intros [= <- <-]; simpl; lia.
Qed.

(** [write] records itself, and either fails (leaving a positive [errno],
    and using up an event unless the descriptor is bad) or takes at most
    what it was given. *)
Lemma sys_write_spec fd data s n s' :
  sys_write fd data s = (n, s') →
  trace s' = SysWrite fd (Z.of_nat (length data)) n :: trace s ∧
  (length (sched s') ≤ length (sched s))%nat ∧
  ((n = -1 ∧ errno s' = EBADF) ∨
   (n = -1 ∧ 0 < errno s' ∧ (length (sched s') < length (sched s))%nat) ∨
   (0 ≤ n ≤ Z.of_nat (length data))).
Proof.
  unfold sys_write. destruct (sink fd s) as [[c pos fl]|].
  - destruct (grant (length data) (sched s)) as [[e|k] l] eqn:G;
      apply grant_le in G as [G1 G2].
    + intros [= <- <-]. simpl. split; [done|]. split; [done|]. right; left. lia.
    + intros [= <- <-]. split; [|split].
      * by destruct c; simpl; [destruct (files s !! path) as [[? [] ? ?]|]|].
      * by destruct c; simpl; [destruct (files s !! path) as [[? [] ? ?]|]|].
      * right; right. rewrite length_take. lia.
  - intros [= <- <-]. simpl. split; [done|]. split; [done|]. by left.
Qed.

Lemma sys_read_spec fd count s n data s' :
  sys_read fd count s = (n, data, s') →
  trace s' = SysRead fd count n :: trace s ∧
  (length (sched s') ≤ length (sched s))%nat ∧
  ((n = -1 ∧ data = [] ∧ errno s' = EBADF) ∨
   (n = -1 ∧ data = [] ∧ 0 < errno s' ∧ (length (sched s') < length (sched s))%nat) ∨
   (n = Z.of_nat (length data) ∧ (length data ≤ Z.to_nat count)%nat)).
Proof.
  unfold sys_read. destruct (source fd s) as [ahead|].
  - destruct (grant (Z.to_nat count) (sched s)) as [[e|k] l] eqn:G;
      apply grant_le in G as [G1 G2].
    + intros [= <- <- <-]. simpl. split; [done|]. split; [done|].
      right; left. split_and!; try done; lia.
    + intros [= <- <- <-]. simpl. split; [done|]. split; [done|].
      right; right. rewrite length_take. lia.
  - intros [= <- <- <-]. simpl. split; [done|]. split; [done|]. by left.
Qed.

(** ** Retry Transfer: what the two loops establish *)

(** The branch a loop takes after a call that returned -1. *)
Ltac failed_call :=
  change (-1 <? 0) with true; cbv iota; unfold bind, get_errno.

Lemma size_sub_small a b : 0 ≤ b ≤ a → a < SIZE_MOD → size_sub a b = a - b.
Proof. intros. unfold size_sub. apply Z.mod_small. lia. Qed.

Lemma size_add_small a b : 0 ≤ a + b < SIZE_MOD → size_add a b = a + b.
Proof. intros. unfold size_add. by apply Z.mod_small. Qed.

Lemma chunk_cap todo :
  0 ≤ todo →
  let todo' := if todo >? KK_SSIZE_MAX then KK_SSIZE_MAX else todo in
  0 ≤ todo' ≤ todo ∧ (0 < todo → 0 < todo').
Proof.
  intros H. simpl. unfold KK_SSIZE_MAX. destruct (Z.gtb_spec todo (2 ^ 63 - 1)); lia.
Qed.

(** The codes the loops retry on are told apart from every other. *)
Lemma retry_test e :
  negb (e =? EAGAIN) && negb (e =? EINTR) = true ↔ e ≠ EAGAIN ∧ e ≠ EINTR.
Proof.
  rewrite andb_true_iff, !negb_true_iff, !Z.eqb_neq. tauto.
Qed.


Lemma write_loop_spec fuel : ∀ out buf ofs s,
  Z.of_nat (length buf) < SIZE_MOD →
  0 ≤ ofs ≤ Z.of_nat (length buf) →
  (length (sched s) + Z.to_nat (Z.of_nat (length buf) - ofs) < fuel)%nat →
  ∃ err moved s',
    write_loop fuel out buf ofs s = Some (err, moved, s') ∧
    write_post buf ofs err moved.
Proof.
  induction fuel as [|fuel IH]; intros out buf ofs s Hlen Hofs Hfuel; [lia|].
  cbn [write_loop]. rewrite size_sub_small by lia.
  set (len := Z.of_nat (length buf)) in *.
  destruct (chunk_cap (len - ofs)) as [Hc Hc0]; [lia|].
  set (todo := if len - ofs >? KK_SSIZE_MAX then KK_SSIZE_MAX else len - ofs) in *.
  unfold bind at 1, call.
  destruct (sys_write out _ s) as [n s1] eqn:W.
  apply sys_write_spec in W as (_ & Hs & W).
  rewrite length_take, length_drop in W.
  unfold write_post. fold len.
  destruct W as [[-> He]|[(-> & He & Hs')|Hn]].
  - cbn. unfold bind, get_errno, ret. rewrite He. cbn.
    eexists _, _, _. split; [done|]. unfold EBADF, EINTR, EAGAIN. lia.
  - failed_call.
    destruct (negb (errno s1 =? EAGAIN) && negb (errno s1 =? EINTR)) eqn:R.
    + apply retry_test in R. eexists _, _, _. split; [done|]. lia.
    + destruct (Z.ltb_spec ofs len).
      * destruct (IH out buf ofs s1) as (err & moved & s' & E & P); [lia..|].
        eexists _, _, _. split; [exact E|]. exact P.
      * eexists _, _, _. split; [done|]. unfold EINTR, EAGAIN. lia.
  - destruct (Z.ltb_spec n 0); [lia|].
    destruct (Z.eqb_spec n 0).
    + eexists _, _, _. split; [done|]. unfold EIO, EINTR, EAGAIN. lia.
    + rewrite size_add_small by lia.
      destruct (Z.ltb_spec (ofs + n) len).
      * destruct (IH out buf (ofs + n) s1) as (err & moved & s' & E & P); [lia..|].
        eexists _, _, _. split; [exact E|]. unfold write_post in P. fold len in P. lia.
      * eexists _, _, _. split; [done|]. unfold EINTR, EAGAIN. lia.
Qed.



Lemma read_loop_spec fuel : ∀ inp buflen ofs buf s,
  buflen < SIZE_MOD →
  0 ≤ ofs ≤ buflen →
  (length (sched s) + Z.to_nat (buflen - ofs) < fuel)%nat →
  ∃ err moved buf' s',
    read_loop fuel inp buflen ofs buf s = Some (err, moved, buf', s') ∧
    read_post inp buflen ofs buf err moved buf' s'.
Proof.
  induction fuel as [|fuel IH]; intros inp buflen ofs buf s Hlen Hofs Hfuel; [lia|].
  cbn [read_loop]. rewrite size_sub_small by lia.
  destruct (chunk_cap (buflen - ofs)) as [Hc Hc0]; [lia|].
  set (todo := if buflen - ofs >? KK_SSIZE_MAX then KK_SSIZE_MAX else buflen - ofs) in *.
  unfold bind at 1, call.
  destruct (sys_read inp todo s) as [[n data] s1] eqn:R.
  apply sys_read_spec in R as (Ht & Hs & R).
  unfold read_post, stopped_short.
  destruct R as [(-> & -> & He)|[(-> & -> & He & Hs')|[-> Hn]]].
  - change (-1 <? 0) with true. cbv iota. unfold bind, get_errno, ret. rewrite He.
    eexists _, _, _, _. split; [done|]. rewrite Ht, He.
    split_and!; try done; try lia.
    + exists []. by rewrite app_nil_r, Z.sub_diag.
    + intros _. right. split_and!; eauto.
  - failed_call.
    destruct (negb (errno s1 =? EAGAIN) && negb (errno s1 =? EINTR)) eqn:T.
    + apply retry_test in T. eexists _, _, _, _. split; [done|]. rewrite Ht.
      split_and!; try lia.
      * exists []. by rewrite app_nil_r, Z.sub_diag.
      * intros _. right. split_and!; eauto. lia.
    + destruct (Z.ltb_spec ofs buflen).
      * destruct (IH inp buflen ofs buf s1) as (err & moved & buf' & s' & E & P);
          [lia..|].
        eexists _, _, _, _. split; [exact E|]. exact P.
      * eexists _, _, _, _. split; [done|].
        split_and!; try done; try lia.
        exists []. by rewrite app_nil_r, Z.sub_diag.
  - destruct (Z.ltb_spec (Z.of_nat (length data)) 0); [lia|].
    destruct (Z.eqb_spec (Z.of_nat (length data)) 0) as [E0|E0].
    + eexists _, _, _, _. split; [done|]. rewrite Ht, E0.
      split_and!; try done; try lia.
      * exists []. by rewrite app_nil_r, Z.sub_diag.
      * intros _. left. eauto.
    + rewrite size_add_small by lia.
      destruct (Z.ltb_spec (ofs + Z.of_nat (length data)) buflen).
      * destruct (IH inp buflen (ofs + Z.of_nat (length data)) (buf ++ data) s1)
          as (err & moved & buf' & s' & E & P); [lia..|].
        eexists _, _, _, _. split; [exact E|].
        destruct P as (P1 & P2 & P3 & P4 & (d & -> & Hd) & P6).
        split_and!; try done; try lia.
        exists (data ++ d). rewrite <- app_assoc, length_app. split; [done|lia].
      * eexists _, _, _, _. split; [done|].
        split_and!; try done; try lia.
        exists data. split; [done|lia].
Qed.


(** The loops as the two functions enter them. *)
Lemma write_retry_spec out buf s :
  Z.of_nat (length buf) < SIZE_MOD →
  ∃ err moved s',
    kk_posix_write_retry out buf s = Some (err, moved, s') ∧
    write_post buf 0 err moved.
Proof.
  intros H. unfold kk_posix_write_retry, retry_fuel.
  apply write_loop_spec; lia.
Qed.

Lemma read_retry_spec inp buflen s :
  0 ≤ buflen < SIZE_MOD →
  ∃ err moved buf s',
    kk_posix_read_retry inp buflen s = Some (err, moved, buf, s') ∧
    read_post inp buflen 0 [] err moved buf s'.
Proof.
  intros H. unfold kk_posix_read_retry, retry_fuel.
  apply read_loop_spec; lia.
Qed.

(** ** C3: the postcondition of the write side *)

(** C3, as the claim states it, fails for a request of zero bytes: the
    loop body runs once, the write of nothing returns 0, and the status is
    EIO although the bytes moved, 0, are all that was asked for. *)
Lemma write_retry_iff_fails_at_zero_length :
  ¬ (∀ out buf s err moved s',
       kk_posix_write_retry out buf s = Some (err, moved, s') →
       (moved = Z.of_nat (length buf) ↔ err = 0)).
Proof.
  intros H.
  specialize (H 1 [] (boot ∅) EIO 0 (snd (sys_write 1 [] (boot ∅))) eq_refl).
  destruct H as [H _]. by specialize (H eq_refl).
Qed.

(** C3 (amended): for every descriptor and every buffer of more than zero
    bytes, [kk_posix_write_retry] returns, the bytes moved equal the length
    asked for if and only if the status is 0, and a nonzero status comes
    with fewer bytes moved than asked for; whatever the length, status 0
    comes with all bytes moved (the assertion that ends the C function). *)
Theorem write_retry_moved_iff_ok out buf s :
  Z.of_nat (length buf) < SIZE_MOD →
  ∃ err moved s',
    kk_posix_write_retry out buf s = Some (err, moved, s') ∧
    (err = 0 → moved = Z.of_nat (length buf)) ∧
    (0 < Z.of_nat (length buf) →
       (moved = Z.of_nat (length buf) ↔ err = 0) ∧
       (err ≠ 0 → moved < Z.of_nat (length buf))).
Proof.
  intros H. destruct (write_retry_spec out buf s H) as (err & moved & s' & E & P).
  exists err, moved, s'. split; [exact E|].
  destruct P as (P1 & P2 & P3 & P4 & P5 & P6).
  split; [exact P5|]. intros Hpos. split; [|auto]. split; [|auto].
  intros ->. destruct (Z.eq_dec err 0); [done|]. specialize (P6 Hpos n). lia.
Qed.

Lemma write_retry_moved_iff_ok_witness :
  ∃ err moved s',
    kk_posix_write_retry 1 hello (boot ∅) = Some (err, moved, s') ∧
    (err = 0 → moved = 5) ∧
    (0 < 5 → (moved = 5 ↔ err = 0) ∧ (err ≠ 0 → moved < 5)).
Proof.
  apply (write_retry_moved_iff_ok 1 hello (boot ∅)). reflexivity.
Defined.

(** ** C6: transient failures stay inside the loops *)


(** C6: EINTR and EAGAIN are never the status of a Retry Transfer: a read
    or write that fails with one of them is issued again at the same offset
    as long as bytes remain to be moved (and ends the transfer with status
    0 when none remain).  The read side moves at most the length asked for,
    and fewer only when a read returned zero bytes (status 0) or failed
    with another error, which is then the status. *)
Theorem retry_transfer_hides_transient_failures inp out buflen buf s :
  0 ≤ buflen < SIZE_MOD →
  Z.of_nat (length buf) < SIZE_MOD →
  (∃ err moved data s',
     kk_posix_read_retry inp buflen s = Some (err, moved, data, s') ∧
     err ≠ EINTR ∧ err ≠ EAGAIN ∧
     0 ≤ moved ≤ buflen ∧ Z.of_nat (length data) = moved ∧
     (moved < buflen → stopped_short inp err s')) ∧
  (∃ err moved s',
     kk_posix_write_retry out buf s = Some (err, moved, s') ∧
     err ≠ EINTR ∧ err ≠ EAGAIN) ∧
  (∀ fuel ofs acc s0 data s1,
     sys_read inp (chunk_at buflen ofs) s0 = (-1, data, s1) →
     errno s1 = EINTR ∨ errno s1 = EAGAIN →
     read_loop (S fuel) inp buflen ofs acc s0 =
       if ofs <? buflen then read_loop fuel inp buflen ofs acc s1
       else Some (0, ofs, acc, s1)) ∧
  (∀ fuel ofs s0 s1,
     sys_write out (take (Z.to_nat (chunk_at (Z.of_nat (length buf)) ofs))
                      (drop (Z.to_nat ofs) buf)) s0 = (-1, s1) →
     errno s1 = EINTR ∨ errno s1 = EAGAIN →
     write_loop (S fuel) out buf ofs s0 =
       if ofs <? Z.of_nat (length buf) then write_loop fuel out buf ofs s1
       else Some (0, ofs, s1)).
Proof.
  intros Hr Hw. split_and!.
  - destruct (read_retry_spec inp buflen s Hr) as (err & moved & data & s' & E & P).
    exists err, moved, data, s'. split; [exact E|].
    destruct P as (P1 & P2 & P3 & P4 & (d & -> & Hd) & P6).
    split_and!; try done; try lia. simpl. lia.
  - destruct (write_retry_spec out buf s Hw) as (err & moved & s' & E & P).
    exists err, moved, s'. split; [exact E|].
    by destruct P as (P1 & P2 & P3 & P4 & _).
  - intros fuel ofs acc s0 data s1 Hcall He.
    cbn [read_loop]. unfold bind at 1, call. fold (chunk_at buflen ofs).
    rewrite Hcall. failed_call.
    replace (negb (errno s1 =? EAGAIN) && negb (errno s1 =? EINTR)) with false.
    + by destruct (ofs <? buflen).
    + by destruct He as [-> | ->].
  - intros fuel ofs s0 s1 Hcall He.
    cbn [write_loop]. unfold bind at 1, call.
    fold (chunk_at (Z.of_nat (length buf)) ofs).
    rewrite Hcall. failed_call.
    replace (negb (errno s1 =? EAGAIN) && negb (errno s1 =? EINTR)) with false.
    + by destruct (ofs <? Z.of_nat (length buf)).
    + by destruct He as [-> | ->].
Qed.


Lemma retry_transfer_hides_transient_failures_witness :
  (∃ err moved data s',
     kk_posix_read_retry 3 5 interrupted = Some (err, moved, data, s') ∧
     err ≠ EINTR ∧ err ≠ EAGAIN ∧
     0 ≤ moved ≤ 5 ∧ Z.of_nat (length data) = moved ∧
     (moved < 5 → stopped_short 3 err s')) ∧
  (∃ err moved s',
     kk_posix_write_retry 1 hello interrupted = Some (err, moved, s') ∧
     err ≠ EINTR ∧ err ≠ EAGAIN).
Proof.
  destruct (retry_transfer_hides_transient_failures 3 1 5 hello interrupted)
    as (R & W & _); [done | reflexivity |].
  exact (conj R W).
Defined.

(** ** C9: the loops come to an end *)



(** The loops have no limit on retries of their own: [n] interrupted
    calls in a row take more than [n] turns. *)
Lemma write_loop_turns_per_interruption n :
  write_loop n 1 hello 0 (set_sched (replicate n (Fail 4)) (boot ∅)) = None.
Proof.
  assert (G : ∀ s, sink 1 s = Some (Handle OnTty 0 O_WRONLY) →
              write_loop n 1 hello 0 (set_sched (replicate n (Fail 4)) s) = None).
  { induction n as [|n IH]; intros s Hs; [done|].
    cbn [write_loop replicate]. unfold bind at 1, call, sys_write.
    replace (sink 1 (set_sched (Fail 4 :: replicate n (Fail 4)) s))
      with (Some (Handle OnTty 0 O_WRONLY)) by done.
    cbn -[write_loop replicate].
    apply (IH (log (SysWrite 1 5 (-1)) (set_errno 4 s))). exact Hs. }
  by apply G.
Qed.

(** ** C10: a failing stat is a plain [false] *)

(** C10: on every path for which [stat] fails, [kk_os_is_directory] and
    [kk_os_is_file] both return [false]; their result is a boolean, so no
    error status reaches the caller. *)
Theorem stat_failure_is_false path s :
  (sys_stat path stat_zero s).1.1 < 0 →
  (∃ s', kk_os_is_directory path s = Some (false, s')) ∧
  (∃ s', kk_os_is_file path s = Some (false, s')).
Proof.
  unfold kk_os_is_directory, kk_os_is_file, kk_posix_stat, sys_stat, bind, call,
    get_errno, ret.
  destruct (files s !! path) as [i|]; simpl; [lia|].
  intros _. split; eexists; reflexivity.
Qed.

Lemma stat_failure_is_false_witness :
  (∃ s', kk_os_is_directory "nosuch" (boot ∅) = Some (false, s')) ∧
  (∃ s', kk_os_is_file "nosuch" (boot ∅) = Some (false, s')).
Proof.
  apply (stat_failure_is_false "nosuch" (boot ∅)). reflexivity.
Defined.

(** ** Sequencing *)

Lemma bind_call {A B} (f : os → A * os) (k : A → M B) s :
  bind (call f) k s = k (f s).1 (f s).2.
Proof. unfold bind, call. by destruct (f s). Qed.

(** ** C1: writing to a fresh path *)

(** [kk_posix_open] never returns a negative number: where [open] fails,
    the caller gets the positive [errno] and takes it for a descriptor. *)
Lemma kk_posix_open_missing path mode s :
  files s !! path = None →
  kk_posix_open path mode s =
    Some (ENOENT, log (SysOpen path mode (-1)) (set_errno ENOENT s)).
Proof.
  intros H. unfold kk_posix_open, bind, call, get_errno, ret, sys_open, failing.
  by rewrite H.
Qed.

(** Writing through a descriptor creates no file. *)
Lemma sys_write_absent path fd data s n s' :
  sys_write fd data s = (n, s') →
  files s !! path = None →
  files s' !! path = None.
Proof.
  unfold sys_write. intros H Habs.
  destruct (sink fd s) as [[c pos fl]|]; [|by injection H as <- <-].
  destruct (grant (length data) (sched s)) as [[e|k] l]; [by injection H as <- <-|].
  injection H as <- <-. cbn [files log set_fdt]. unfold store.
  destruct c as [p|]; [|done]. cbn [files set_sched].
  destruct (files s !! p) as [[m [d|ns|] a t]|] eqn:Fp; try done.
  cbn [files set_files]. rewrite lookup_insert_ne; [done|]. congruence.
Qed.

Lemma write_loop_absent path fuel : ∀ out buf ofs s r s',
  write_loop fuel out buf ofs s = Some (r, s') →
  files s !! path = None →
  files s' !! path = None.
Proof.
  induction fuel as [|fuel IH]; intros out buf ofs s r s'; [done|].
  cbn [write_loop]. unfold bind at 1, call.
  destruct (sys_write out _ s) as [n s1] eqn:W. intros H Habs.
  pose proof (sys_write_absent path _ _ _ _ _ W Habs) as Habs1.
  destruct (n <? 0).
  - unfold bind, get_errno in H.
    destruct (negb (errno s1 =? EAGAIN) && negb (errno s1 =? EINTR));
      [by injection H as <- <-|].
    destruct (ofs <? _); [by eapply IH | by injection H as <- <-].
  - destruct (n =? 0); [by injection H as <- <-|].
    destruct (size_add ofs n <? _); [by eapply IH | by injection H as <- <-].
Qed.

(** Closing a descriptor leaves the files alone and the descriptor closed. *)
Lemma kk_posix_close_spec f s :
  ∃ r s', kk_posix_close f s = Some (r, s') ∧
          files s' = files s ∧ fdt s' !! f = None.
Proof.
  unfold kk_posix_close, bind, call, get_errno, ret, sys_close, failing.
  destruct (fdt s !! f) eqn:F; eexists _, _; (split; [reflexivity|]); simpl;
    [by rewrite lookup_delete_eq | done].
Qed.

(** C1 fails on the code.  [kk_os_write_text_file] opens with [O_WRONLY]
    alone, so a path that does not exist is not created; the failed open
    comes back as the number 2 and is used as a descriptor.  Whatever the
    bytes, writing them to a fresh path leaves the path absent and closes
    descriptor 2, with status 0 when the bytes are none; reading the path
    back then fails with EBADF and assigns no content. *)
Theorem write_then_read_fresh_path path content s :
  files s !! path = None →
  Z.of_nat (length content) < SIZE_MOD →
  ∃ status s1 s2,
    kk_os_write_text_file path content s = Some (status, s1) ∧
    (content = [] → status = 0) ∧
    files s1 !! path = None ∧
    kk_os_read_text_file path s1 = Some ((EBADF, None), s2).
Proof.
  intros H Hlen.
  unfold kk_os_write_text_file. unfold bind at 1.
  rewrite (kk_posix_open_missing _ _ _ H).
  change (ENOENT <? 0) with false. cbv iota.
  set (s0 := log _ _).
  assert (H0 : files s0 !! path = None) by done.
  assert (Hw : ∃ err sw,
    (if Z.of_nat (length content) >? 0
     then bind (kk_posix_write_retry ENOENT content)
            (fun '(err, nwritten) =>
               ret (if (err =? 0) && (nwritten <? Z.of_nat (length content))
                    then EIO else err))
     else ret 0) s0 = Some (err, sw) ∧
    (content = [] → err = 0) ∧ files sw !! path = None).
  { destruct (Z.gtb_spec (Z.of_nat (length content)) 0) as [Hpos|Hz].
    - destruct (write_retry_spec ENOENT content s0 Hlen) as (err & moved & sw & E & _).
      unfold bind. rewrite E. eexists _, sw. split; [reflexivity|]. split.
      + intros ->. simpl in Hpos. lia.
      + unfold kk_posix_write_retry in E. by eapply write_loop_absent.
    - exists 0, s0. by split. }
  destruct Hw as (err & sw & Ew & Hempty & Hsw).
  unfold bind at 1. rewrite Ew.
  destruct (kk_posix_close_spec ENOENT sw) as (r & s1 & Hc & Hf & Hd).
  unfold bind. rewrite Hc. unfold ret.
  assert (H1 : files s1 !! path = None) by by rewrite Hf.
  eexists err, s1, _. split; [done|]. split; [done|]. split; [done|].
  unfold kk_os_read_text_file. unfold bind at 1.
  rewrite (kk_posix_open_missing _ _ _ H1). cbn -[kk_posix_close].
  unfold kk_posix_fsize, kk_posix_fstat, bind, call, get_errno, ret, sys_fstat.
  cbn -[kk_posix_close]. rewrite Hd. cbn.
  unfold kk_posix_close, bind, call, get_errno, ret, sys_close. cbn.
  rewrite Hd. cbn. reflexivity.
Qed.

Lemma write_then_read_fresh_path_witness :
  ∃ status s1 s2,
    kk_os_write_text_file "fresh.txt" hello (boot ∅) = Some (status, s1) ∧
    (hello = [] → status = 0) ∧
    files s1 !! "fresh.txt" = None ∧
    kk_os_read_text_file "fresh.txt" s1 = Some ((EBADF, None), s2).
Proof.
  apply (write_then_read_fresh_path "fresh.txt" hello (boot ∅)); reflexivity.
Defined.

(** The same with five bytes and the standard streams open: the bytes go
    to the terminal behind descriptor 2, the status is 0, the path stays
    absent and cannot be read back. *)
Lemma write_hello_to_fresh_path :
  ∃ s1 s2,
    kk_os_write_text_file "fresh.txt" hello (boot ∅) = Some (0, s1) ∧
    files s1 !! "fresh.txt" = None ∧ tty s1 = hello ∧
    kk_os_read_text_file "fresh.txt" s1 = Some ((EBADF, None), s2).
Proof.
  eexists _, _. split; [vm_compute; reflexivity|].
  split; [reflexivity|]. split; [reflexivity|]. vm_compute. reflexivity.
Qed.

(** Where the file is there, and empty, the bytes written are the bytes
    read back, interrupted calls and short transfers notwithstanding: what
    fails on a fresh path is the open. *)
Lemma write_then_read_existing_file :
  ∃ s1 s2,
    kk_os_write_text_file "f" hello
      (set_sched [Fail 4; AtMost 2; Fail 11]
         (boot (<["f" := Inode 420 (Bytes []) 0 0]> ∅))) = Some (0, s1) ∧
    kk_os_read_text_file "f" (set_sched [AtMost 1; Fail 4] s1)
      = Some ((0, Some hello), s2).
Proof.
  eexists _, _. split.
  - vm_compute. reflexivity.
  - vm_compute. reflexivity.
Qed.

(** ** C2: copying from a source that does not exist *)

Lemma lowest_free_from_ge n : ∀ i t, i ≤ lowest_free_from n i t.
Proof.
  induction n as [|n IH]; intros i t; simpl; [lia|].
  destruct (t !! i); [|lia]. specialize (IH (i + 1) t). lia.
Qed.

Lemma lowest_free_from_ext n : ∀ i (t t' : gmap Z handle),
  (∀ j, i ≤ j → t !! j = t' !! j) →
  lowest_free_from n i t = lowest_free_from n i t'.
Proof.
  induction n as [|n IH]; intros i t t' H; simpl; [done|].
  rewrite <- (H i) by lia. destruct (t !! i); [|done].
  apply IH. intros j Hj. apply H. lia.
Qed.

Lemma lowest_free_from_free n : ∀ i (t : gmap Z handle),
  (size t ≤ n)%nat → t !! lowest_free_from n i t = None.
Proof.
  induction n as [|n IH]; intros i t Hsize; simpl.
  - assert (t = ∅) as -> by (apply map_size_empty_inv; lia). apply lookup_empty.
  - destruct (t !! i) as [h|] eqn:Hi; [|done].
    assert (Hd : (size (delete i t) ≤ n)%nat).
    { rewrite (map_size_delete_Some i t) by eauto. lia. }
    specialize (IH (i + 1) (delete i t) Hd).
    rewrite <- (lowest_free_from_ext n (i + 1) t (delete i t)) in IH.
    + pose proof (lowest_free_from_ge n (i + 1) t).
      rewrite lookup_delete_ne in IH by lia. exact IH.
    + intros j Hj. rewrite lookup_delete_ne by lia. done.
Qed.

(** The descriptor a new file gets is not negative and not in use. *)
Lemma lowest_free_spec (t : gmap Z handle) :
  0 ≤ lowest_free t ∧ t !! lowest_free t = None.
Proof.
  unfold lowest_free. split; [apply lowest_free_from_ge|].
  by apply lowest_free_from_free.
Qed.

(** C2 fails on the code.  Where the standard error stream is open on
    descriptor 2 and the destination can be created, copying from a source
    that does not exist does not stop at the failed open: the error number
    2 is taken for the source descriptor, [fstat] of the standard error
    stream succeeds, the destination is created, the standard error stream
    is closed, and the status is 0, not ENOENT. *)
Theorem copy_from_missing_source from to preserve_mtime s pos fl :
  files s !! from = None →
  fdt s !! 2 = Some (Handle OnTty pos fl) →
  to ≠ "" →
  files s !! to = None →
  parent_errno to (files s) = None →
  ∃ s',
    kk_os_copy_file from to preserve_mtime s = Some (0, s') ∧
    is_Some (files s' !! to) ∧
    fdt s' !! 2 = None ∧
    (∃ out t, trace s' = SysClose out 0 :: SysClose 2 0 :: t) ∧
    SysCreat to (st_mode stat_tty) (lowest_free (fdt s)) ∈ trace s'.
Proof.
  intros Hfrom Herr Hto Hnone Hpar.
  unfold kk_os_copy_file. unfold bind at 1.
  rewrite (kk_posix_open_missing _ _ _ Hfrom).
  change (ENOENT <? 0) with false. cbv iota.
  set (s0 := log _ _).
  assert (Hst : sys_fstat ENOENT stat_zero s0 = (0, stat_tty, log (SysFstat 2 0) s0)).
  { unfold sys_fstat. subst s0. cbn [fdt log set_errno].
    change ENOENT with 2. by rewrite Herr. }
  rewrite bind_call, Hst. cbn [fst snd].
  change (0 <? 0) with false. cbv iota.
  destruct (lowest_free_spec (fdt s)) as [Hout Hfree].
  set (out := lowest_free (fdt s)) in *.
  assert (Hne : out ≠ 2) by (intros E; rewrite E in Hfree; congruence).
  set (s1 := log (SysCreat to (st_mode stat_tty) out)
               (set_fdt (<[out := Handle (OnFile to) 0 O_WRONLY]> (fdt s))
                  (set_files (<[to := Inode (Z.land (st_mode stat_tty) 4095) (Bytes []) 0 0]>
                                (link to (files s)))
                     (log (SysFstat 2 0) s0)))).
  assert (Hcr : sys_creat to (st_mode stat_tty) (log (SysFstat 2 0) s0) = (out, s1)).
  { unfold sys_creat. apply String.eqb_neq in Hto. rewrite Hto.
    subst s0. cbn [files fdt log set_errno]. by rewrite Hnone, Hpar. }
  unfold kk_posix_creat. rewrite bind_call, Hcr. cbn [fst snd].
  replace (out <? 0) with false by (symmetry; apply Z.ltb_ge; lia).
  cbv iota.
  assert (F1 : is_Some (files s1 !! to)).
  { subst s1. cbn [files log set_fdt set_files]. rewrite lookup_insert_eq. eauto. }
  assert (D1 : fdt s1 = <[out := Handle (OnFile to) 0 O_WRONLY]> (fdt s)) by done.
  assert (T1 : SysCreat to (st_mode stat_tty) out ∈ trace s1)
    by apply list_elem_of_here.
  assert (Hcp : kk_posix_copy_file ENOENT out (st_size stat_tty mod SIZE_MOD) s1
                = Some (0, s1)) by reflexivity.
  unfold bind at 1. rewrite Hcp.
  change (0 =? 0) with true. cbn [andb].
  assert (Hf : ∃ s2,
    (if preserve_mtime
     then call (sys_futimens out (st_atim stat_tty) (st_mtim stat_tty))
     else ret 0) s1 = Some (0, s2) ∧
    is_Some (files s2 !! to) ∧ fdt s2 = fdt s1 ∧
    SysCreat to (st_mode stat_tty) out ∈ trace s2).
  { destruct preserve_mtime; [|by exists s1].
    unfold call, sys_futimens. rewrite D1, lookup_insert_eq.
    destruct F1 as [[m b a t] F1]. rewrite F1.
    eexists. split; [reflexivity|]. cbn [files fdt trace log set_files].
    rewrite lookup_insert_eq. split; [eauto|]. split; [done|].
    by apply list_elem_of_further. }
  destruct Hf as (s2 & Ef & F2 & D2 & T2).
  unfold bind at 1. rewrite Ef.
  assert (Hc2 : sys_close ENOENT s2
                = (0, log (SysClose 2 0) (set_fdt (delete 2 (fdt s2)) s2))).
  { unfold sys_close. change ENOENT with 2.
    by rewrite D2, D1, lookup_insert_ne, Herr. }
  rewrite bind_call, Hc2. cbn [fst snd].
  set (s3 := log (SysClose 2 0) _).
  assert (Hc3 : sys_close out s3
                = (0, log (SysClose out 0) (set_fdt (delete out (fdt s3)) s3))).
  { unfold sys_close. subst s3. cbn [fdt log set_fdt].
    by rewrite lookup_delete_ne, D2, D1, lookup_insert_eq. }
  rewrite bind_call, Hc3. cbn [fst snd].
  eexists. split; [reflexivity|].
  cbn [files fdt trace log set_fdt].
  split; [done|]. split.
  - rewrite lookup_delete_ne by done. apply lookup_delete_eq.
  - split; [eauto|]. by do 2 apply list_elem_of_further.
Qed.

Lemma copy_from_missing_source_witness :
  ∃ s',
    kk_os_copy_file "nosuch" "dst" false (boot ∅) = Some (0, s') ∧
    is_Some (files s' !! "dst") ∧
    fdt s' !! 2 = None ∧
    (∃ out t, trace s' = SysClose out 0 :: SysClose 2 0 :: t) ∧
    SysCreat "dst" (st_mode stat_tty) (lowest_free (fdt (boot ∅))) ∈ trace s'.
Proof.
  apply (copy_from_missing_source "nosuch" "dst" false (boot ∅) 0%nat O_WRONLY);
    [reflexivity | reflexivity | discriminate | reflexivity | reflexivity].
Defined.

(** The run in a process with the standard streams open and nothing else:
    the calls made, most recent first. *)
Lemma copy_from_missing_source_run :
  ∃ s',
    kk_os_copy_file "nosuch" "dst" false (boot ∅) = Some (0, s') ∧
    files s' !! "dst" = Some (Inode 400 (Bytes []) 0 0) ∧
    trace s' = [SysClose 3 0; SysClose 2 0; SysCreat "dst" 8592 3;
                SysFstat 2 0; SysOpen "nosuch" O_RDONLY (-1)].
Proof.
  eexists. split; [vm_compute; reflexivity|]. split; reflexivity.
Qed.

(** A source that is there is copied, bytes and permission bits, and its
    times are carried over when asked for. *)
Lemma copy_existing_source :
  ∃ s',
    kk_os_copy_file "src" "dst" true
      (boot (<["src" := Inode 420 (Bytes hello) 7 9]> ∅)) = Some (0, s') ∧
    files s' !! "dst" = Some (Inode 420 (Bytes hello) 7 9) ∧
    fdt s' = std_fdt.
Proof.
  eexists. split; [vm_compute; reflexivity|]. split; reflexivity.
Qed.

(** ** C5: ensure_dir *)

Lemma dir_bit_set i : is_dir i = true → Z.land (st_mode (stat_of i)) S_IFDIR ≠ 0.
Proof.
  destruct i as [perm [d|ns|] a t]; [done| |done]. intros _. simpl.
  rewrite Z.land_lor_distr_l. intros H. apply Z.lor_eq_0_iff in H as [H _].
  discriminate H.
Qed.

(** At a prefix that is missing and can be created: one [stat], one
    [mkdir], no error. *)
Lemma ensure_prefix_creates cpath mode s :
  cpath ≠ "" →
  files s !! cpath = None →
  parent_errno cpath (files s) = None →
  ensure_prefix cpath mode s =
    Some (0, log (SysMkdir cpath mode 0)
               (set_files (<[cpath := Inode (Z.land mode 4095) (Entries ["."; ".."]) 0 0]>
                             (link cpath (files s)))
                  (log (SysStat cpath (-1)) (set_errno ENOENT s)))).
Proof.
  intros Hne Hnone Hpar. unfold ensure_prefix.
  apply String.eqb_neq in Hne. rewrite Hne. cbn [negb].
  unfold bind at 1, call, sys_stat. rewrite Hnone. cbn [failing].
  cbn -[sys_mkdir]. unfold bind, call, sys_mkdir. rewrite Hne.
  change (negb (negb (Z.land 0 S_IFDIR =? 0))) with true. cbv iota beta.
  cbn [files log set_errno]. rewrite Hnone, Hpar. reflexivity.
Qed.

(** At a prefix that is a directory: one [stat], nothing else. *)
Lemma ensure_prefix_keeps cpath mode s i :
  cpath ≠ "" →
  files s !! cpath = Some i →
  is_dir i = true →
  ensure_prefix cpath mode s = Some (0, log (SysStat cpath 0) s).
Proof.
  intros Hne Hsome Hdir. unfold ensure_prefix.
  apply String.eqb_neq in Hne. rewrite Hne. cbn [negb].
  unfold bind at 1, call, sys_stat. rewrite Hsome.
  apply dir_bit_set, Z.eqb_neq in Hdir. rewrite Hdir. reflexivity.
Qed.

(** An "already exists" from [mkdir] is not an error of the prefix: where
    a regular file has the name, the status stays 0. *)
Lemma ensure_prefix_swallows_eexist cpath mode s perm d a t :
  cpath ≠ "" →
  files s !! cpath = Some (Inode perm (Bytes d) a t) →
  ∃ s', ensure_prefix cpath mode s = Some (0, s') ∧
        errno s' = EEXIST ∧ files s' = files s ∧
        trace s' = SysMkdir cpath mode (-1) :: SysStat cpath 0 :: trace s.
Proof.
  intros Hne Hsome. unfold ensure_prefix.
  apply String.eqb_neq in Hne. rewrite Hne. cbn [negb].
  unfold bind at 1, call, sys_stat. rewrite Hsome.
  replace (Z.land (st_mode (stat_of (Inode perm (Bytes d) a t))) S_IFDIR =? 0)
    with true.
  - cbn [negb]. unfold bind, call, sys_mkdir. rewrite Hne.
    cbn [files log]. rewrite Hsome. cbn. eexists. split; [reflexivity|]. done.
  - symmetry. apply Z.eqb_eq. simpl.
    rewrite Z.land_lor_distr_l.
    change (Z.land S_IFREG S_IFDIR) with 0. rewrite Z.lor_0_l.
    rewrite <- Z.land_assoc. change (Z.land 4095 S_IFDIR) with 0.
    apply Z.land_0_r.
Qed.

Lemma ensure_loop_a_b_c mode s :
  ensure_loop "" "a/b/c" mode s =
    (do e1 <- ensure_prefix "a" mode ;;
     if e1 =? 0 then
       do e2 <- ensure_prefix "a/b" mode ;;
       if e2 =? 0 then ensure_prefix "a/b/c" mode else ret e2
     else ret e1) s.
Proof. reflexivity. Qed.

(** C5: where none of "a", "a/b" and "a/b/c" exists, [kk_os_ensure_dir]
    on "a/b/c" returns 0 having made three [mkdir] calls, all successful,
    for "a", "a/b" and "a/b/c" in this order; the three are directories
    afterwards and no other path has changed.  A second call returns 0,
    makes no [mkdir] call and leaves the file system as it is: that the
    directories exist already is not an error. *)
Theorem ensure_dir_a_b_c mode s :
  files s !! "a" = None →
  files s !! "a/b" = None →
  files s !! "a/b/c" = None →
  ∃ s1 s2,
    kk_os_ensure_dir "a/b/c" mode s = Some (0, s1) ∧
    mkdir_calls (trace s1) =
      mkdir_calls (trace s) ++ [("a", 0); ("a/b", 0); ("a/b/c", 0)] ∧
    (∀ p, p ∈ ["a"; "a/b"; "a/b/c"] → is_directory_at (files s1) p = true) ∧
    (∀ q, q ∉ ["a"; "a/b"; "a/b/c"] → files s1 !! q = files s !! q) ∧
    kk_os_ensure_dir "a/b/c" mode s1 = Some (0, s2) ∧
    files s2 = files s1 ∧
    mkdir_calls (trace s2) = mkdir_calls (trace s1).
Proof.
  intros Ha Hab Habc. unfold kk_os_ensure_dir.
  set (m := if mode <? 0 then _ else mode).
  rewrite ensure_loop_a_b_c. unfold bind at 1.
  rewrite (ensure_prefix_creates "a" m s) by done.
  change (link "a" (files s)) with (files s).
  set (sa := log (SysMkdir "a" m 0) _).
  set (D := fun ns => Inode (Z.land m 4095) (Entries ns) 0 0).
  assert (Fa : files sa = <["a" := D ["."; ".."]]> (files s)) by done.
  change (0 =? 0) with true. cbv iota. unfold bind at 1.
  assert (Lsa : link "a/b" (files sa) = <["a" := D ["."; ".."; "b"]]> (files sa)).
  { unfold link. change (parent "a/b") with (Some "a").
    by rewrite Fa, lookup_insert_eq. }
  rewrite (ensure_prefix_creates "a/b" m sa).
  2: done.
  2: by rewrite Fa, lookup_insert_ne.
  2: { unfold parent_errno. change (parent "a/b") with (Some "a").
       by rewrite Fa, lookup_insert_eq. }
  rewrite Lsa.
  set (sab := log (SysMkdir "a/b" m 0) _).
  assert (Fab : files sab =
                <["a/b" := D ["."; ".."]]> (<["a" := D ["."; ".."; "b"]]> (files sa)))
    by done.
  change (0 =? 0) with true. cbv iota.
  assert (Lsab : link "a/b/c" (files sab) =
                 <["a/b" := D ["."; ".."; "c"]]> (files sab)).
  { unfold link. change (parent "a/b/c") with (Some "a/b").
    by rewrite Fab, lookup_insert_eq. }
  rewrite (ensure_prefix_creates "a/b/c" m sab).
  2: done.
  2: { rewrite Fab, Fa. by rewrite !lookup_insert_ne by done. }
  2: { unfold parent_errno. change (parent "a/b/c") with (Some "a/b").
       by rewrite Fab, lookup_insert_eq. }
  rewrite Lsab.
  set (s1 := log (SysMkdir "a/b/c" m 0) _).
  assert (F1 : files s1 =
    <["a/b/c" := D ["."; ".."]]>
      (<["a/b" := D ["."; ".."; "c"]]>
         (<["a/b" := D ["."; ".."]]>
            (<["a" := D ["."; ".."; "b"]]>
               (<["a" := D ["."; ".."]]> (files s)))))).
  { subst s1. cbn [files log set_files]. by rewrite Fab, Fa. }
  assert (G1 : files s1 !! "a" = Some (D ["."; ".."; "b"])).
  { rewrite F1. rewrite !lookup_insert_ne by done. by rewrite lookup_insert_eq. }
  assert (G2 : files s1 !! "a/b" = Some (D ["."; ".."; "c"])).
  { rewrite F1. rewrite lookup_insert_ne by done. by rewrite lookup_insert_eq. }
  assert (G3 : files s1 !! "a/b/c" = Some (D ["."; ".."])).
  { rewrite F1. by rewrite lookup_insert_eq. }
  exists s1, (log (SysStat "a/b/c" 0) (log (SysStat "a/b" 0) (log (SysStat "a" 0) s1))).
  split_and!.
  - reflexivity.
  - subst s1 sab sa. unfold mkdir_calls. simpl. by rewrite <- !app_assoc.
  - intros p Hp. unfold is_directory_at.
    rewrite !elem_of_cons, elem_of_nil in Hp.
    destruct Hp as [->|[->|[->|[]]]]; by rewrite ?G1, ?G2, ?G3.
  - intros q Hq. rewrite !not_elem_of_cons in Hq. destruct Hq as (? & ? & ? & _).
    rewrite F1. by rewrite !lookup_insert_ne by done.
  - rewrite ensure_loop_a_b_c. unfold bind at 1.
    rewrite (ensure_prefix_keeps "a" m s1 _ ltac:(done) G1 eq_refl).
    change (0 =? 0) with true. cbv iota. unfold bind at 1.
    rewrite (ensure_prefix_keeps "a/b" m (log (SysStat "a" 0) s1) _
               ltac:(done) G2 eq_refl).
    change (0 =? 0) with true. cbv iota.
    by rewrite (ensure_prefix_keeps "a/b/c" m
                  (log (SysStat "a/b" 0) (log (SysStat "a" 0) s1)) _
                  ltac:(done) G3 eq_refl).
  - reflexivity.
  - reflexivity.
Qed.

Lemma ensure_dir_a_b_c_witness :
  ∃ s1 s2,
    kk_os_ensure_dir "a/b/c" (-1) (boot ∅) = Some (0, s1) ∧
    mkdir_calls (trace s1) =
      mkdir_calls (trace (boot ∅)) ++ [("a", 0); ("a/b", 0); ("a/b/c", 0)] ∧
    (∀ p, p ∈ ["a"; "a/b"; "a/b/c"] → is_directory_at (files s1) p = true) ∧
    (∀ q, q ∉ ["a"; "a/b"; "a/b/c"] → files s1 !! q = files (boot ∅) !! q) ∧
    kk_os_ensure_dir "a/b/c" (-1) s1 = Some (0, s2) ∧
    files s2 = files s1 ∧
    mkdir_calls (trace s2) = mkdir_calls (trace s1).
Proof.
  apply (ensure_dir_a_b_c (-1) (boot ∅)); reflexivity.
Defined.

(** ** C4: listing a directory *)

Lemma direntry_name_real n :
  os_direntry_name (Some n) = if real_name n then n else "".
Proof.
  unfold os_direntry_name, real_name.
  destruct (String.eqb_spec n "") as [->|]; [done|].
  by destruct (String.eqb n "."), (String.eqb n "..").
Qed.

Lemma real_name_nonempty n : real_name n = true → String.eqb n "" = false.
Proof. unfold real_name. by destruct (String.eqb n ""). Qed.

Lemma store_after (names : list string) x y f :
  <[Z.to_nat (Z.of_nat (length names)) := x]> ((kk_string_box <$> names) ++ y :: f)
  = (kk_string_box <$> names) ++ x :: f.
Proof.
  rewrite Nat2Z.id, insert_app_r_alt by (rewrite length_fmap; lia).
  by rewrite length_fmap, Nat.sub_diag.
Qed.

(** Pushing a name keeps the names stored in front of the vector and the
    vector as long as [len] says. *)
Lemma push_name_spec name (names : list string) filler count len :
  count = Z.of_nat (length names) →
  Z.of_nat (length names + length filler) = len →
  0 < len →
  Z.of_nat (length names) + 1 < 2 ^ 63 →
  ∃ filler' len',
    push_name name ((kk_string_box <$> names) ++ filler) count len =
      ((kk_string_box <$> (names ++ [name])) ++ filler',
       Z.of_nat (length (names ++ [name])), len') ∧
    Z.of_nat (length (names ++ [name]) + length filler') = len' ∧
    0 < len'.
Proof.
  intros -> Hlen Hpos Hbig. unfold push_name.
  assert (Hcount : size_add (Z.of_nat (length names)) 1
                   = Z.of_nat (length (names ++ [name]))).
  { rewrite size_add_small by (unfold SIZE_MOD; lia).
    rewrite length_app. simpl. lia. }
  rewrite Hcount.
  assert (Happ : ∀ f, (kk_string_box <$> names ++ [name]) ++ f
                      = (kk_string_box <$> names) ++ kk_string_box name :: f).
  { intros f. by rewrite fmap_app, <- app_assoc. }
  destruct (Z.eqb_spec (Z.of_nat (length names)) len) as [E|E].
  - assert (filler = []) as -> by (destruct filler; [done | simpl in Hlen; lia]).
    rewrite app_nil_r.
    set (newlen := if len >? 1000 then size_add len 1000 else size_mul 2 len).
    assert (Hnew : len < newlen < SIZE_MOD).
    { subst newlen. unfold size_add, size_mul, SIZE_MOD.
      destruct (len >? 1000); rewrite Z.mod_small; lia. }
    unfold kk_vector_realloc.
    rewrite take_ge by (rewrite length_fmap; lia).
    rewrite length_fmap.
    destruct (Z.to_nat newlen - length names)%nat as [|k] eqn:K; [lia|].
    simpl replicate. rewrite store_after.
    exists (replicate k (kk_integer_box 0)), newlen.
    rewrite Happ. split; [done|]. rewrite length_app, length_replicate. simpl. lia.
  - destruct filler as [|y f]; [simpl in Hlen; lia|].
    rewrite store_after. exists f, len.
    rewrite Happ. split; [done|]. rewrite length_app. simpl in *. lia.
Qed.

Lemma os_findnext_spec d s :
  os_findnext d s =
    Some (match d with
          | [] => (false, [], None, stale_status s)
          | n :: d' => (true, d', Some n, 0)
          end,
          log (SysReaddir (head d)) s).
Proof. by destruct d. Qed.

(** The loop stores the names it keeps, in the order of the stream, and
    ends with the status of the last [readdir]. *)
Lemma list_loop_spec d : ∀ fuel entry (names : list string) filler count len s,
  (length d < fuel)%nat →
  count = Z.of_nat (length names) →
  Z.of_nat (length names + length filler) = len →
  0 < len →
  Z.of_nat (length names + length d) + 2 < 2 ^ 63 →
  ∃ vec' s',
    list_loop fuel d entry ((kk_string_box <$> names) ++ filler) count len s =
      Some ((stale_status s, vec',
             Z.of_nat (length (names ++ List.filter real_name (option_list entry ++ d)))),
            s') ∧
    take (length (names ++ List.filter real_name (option_list entry ++ d))) vec' =
      kk_string_box <$> (names ++ List.filter real_name (option_list entry ++ d)) ∧
    errno s' = errno s ∧ files s' = files s.
Proof.
  induction d as [|n d IH];
    intros fuel entry names filler count len s Hfuel Hcount Hlen Hpos Hbig;
    (destruct fuel as [|fuel]; [simpl in Hfuel; lia|]); cbn [list_loop].
  - (* the stream is at its end *)
    rewrite app_nil_r.
    assert (Hshown : ∃ names' filler' len',
      (if negb (String.eqb (os_direntry_name entry) "")
       then push_name (os_direntry_name entry) ((kk_string_box <$> names) ++ filler) count len
       else ((kk_string_box <$> names) ++ filler, count, len))
      = ((kk_string_box <$> names') ++ filler', Z.of_nat (length names'), len') ∧
      names' = names ++ List.filter real_name (option_list entry)).
    { destruct entry as [e|]; [|by exists names, filler, len; rewrite app_nil_r, Hcount].
      rewrite direntry_name_real. simpl. destruct (real_name e) eqn:R.
      - rewrite (real_name_nonempty _ R). cbn [negb].
        destruct (push_name_spec e names filler count len) as (f' & l' & P & _);
          [done|done|done|simpl in Hbig; lia|].
        by exists (names ++ [e]), f', l'.
      - exists names, filler, len. by rewrite app_nil_r, Hcount. }
    destruct Hshown as (names' & filler' & len' & -> & <-).
    unfold bind. rewrite os_findnext_spec. unfold ret.
    eexists _, _. split; [reflexivity|].
    split; [|done]. rewrite <- (length_fmap kk_string_box names'). apply take_app_length.
  - (* one more entry *)
    assert (Hshown : ∃ names' filler' len',
      (if negb (String.eqb (os_direntry_name entry) "")
       then push_name (os_direntry_name entry) ((kk_string_box <$> names) ++ filler) count len
       else ((kk_string_box <$> names) ++ filler, count, len))
      = ((kk_string_box <$> names') ++ filler', Z.of_nat (length names'), len') ∧
      names' = names ++ List.filter real_name (option_list entry) ∧
      Z.of_nat (length names' + length filler') = len' ∧ 0 < len' ∧
      (length names' ≤ length names + 1)%nat).
    { destruct entry as [e|];
        [|by exists names, filler, len; rewrite app_nil_r, Hcount; split_and!; try done; lia].
      rewrite direntry_name_real. simpl. destruct (real_name e) eqn:R.
      - rewrite (real_name_nonempty _ R). cbn [negb].
        destruct (push_name_spec e names filler count len) as (f' & l' & P & Q1 & Q2);
          [done|done|done|simpl in Hbig; lia|].
        exists (names ++ [e]), f', l'. split_and!; try done.
        rewrite length_app. simpl. lia.
      - exists names, filler, len. rewrite app_nil_r, Hcount. split_and!; try done. lia. }
    destruct Hshown as (names' & filler' & len' & -> & Hn & Hl & Hp & Hle).
    unfold bind at 1. rewrite os_findnext_spec.
    destruct (IH fuel (Some n) names' filler' (Z.of_nat (length names')) len'
                (log (SysReaddir (head (n :: d))) s))
      as (vec' & s' & E & T & He & Hf);
      [simpl in Hfuel; lia | done | done | done | simpl in Hbig; lia |].
    assert (Hnames : names' ++ List.filter real_name (option_list (Some n) ++ d)
                     = names ++ List.filter real_name (option_list entry ++ n :: d)).
    { rewrite Hn, <- app_assoc. f_equal.
      change (option_list (Some n) ++ d) with (n :: d).
      symmetry. apply List.filter_app. }
    rewrite Hnames in E, T.
    exists vec', s'. split; [exact E|]. split; [exact T|]. done.
Qed.

(** What [kk_os_list_directory] returns for a directory: the names of the
    stream that are not pseudo-entries, in the order of the stream, however
    many they are and however often the vector was grown; and as status
    the [errno] the call was entered with, unless that was 0 or ENOENT:
    [readdir] does not touch [errno] at the end of the stream. *)
Lemma list_directory_spec dir s perm ns a t :
  files s !! dir = Some (Inode perm (Entries ns) a t) →
  Z.of_nat (length ns) + 2 < 2 ^ 63 →
  ∃ s',
    kk_os_list_directory dir s =
      Some ((stale_status s, kk_string_box <$> List.filter real_name ns), s') ∧
    files s' = files s ∧ errno s' = errno s.
Proof.
  intros Hdir Hbig. unfold kk_os_list_directory, os_findfirst.
  unfold bind at 1 2, call, sys_opendir. rewrite Hdir.
  rewrite os_findnext_spec.
  destruct ns as [|n d].
  - eexists. split; [reflexivity|]. done.
  - cbn [negb].
    destruct (list_loop_spec d (S (length d)) (Some n) [] (replicate 100 (kk_integer_box 0))
                0 100 (log (SysReaddir (head (n :: d))) (log (SysOpendir dir true) s)))
      as (vec' & s' & E & T & He & Hf);
      [lia | done | done | done | simpl in *; lia |].
    cbn [fmap list_fmap app] in E, T.
    change (option_list (Some n) ++ d) with (n :: d) in E, T.
    unfold bind, kk_vector_alloc.
    change (Z.to_nat 100) with 100%nat. rewrite E.
    unfold call, sys_closedir, ret. exists (log SysClosedir s'). split; [|done].
    assert (R : kk_vector_realloc vec'
                  (Z.of_nat (length (List.filter real_name (n :: d)))) kk_box_null
                = kk_string_box <$> List.filter real_name (n :: d)).
    { unfold kk_vector_realloc. rewrite Nat2Z.id, T.
      assert (length (List.filter real_name (n :: d)) ≤ length vec')%nat.
      { apply (f_equal length) in T. rewrite length_take, length_fmap in T. lia. }
      replace (_ - _)%nat with 0%nat by lia. apply app_nil_r. }
    by rewrite R.
Qed.

Lemma filter_real_names (names : list string) :
  Forall (fun n => real_name n = true) names →
  List.filter real_name names = names.
Proof.
  induction 1 as [|n l Hn _ IH]; [done|]. simpl. by rewrite Hn, IH.
Qed.

(** With [errno] clear, a directory of K entries next to "." and ".."
    is listed as its K names, status 0. *)
Lemma list_directory_regular_entries dir s perm (names : list string) a t :
  files s !! dir = Some (Inode perm (Entries ("." :: ".." :: names)) a t) →
  Forall (fun n => real_name n = true) names →
  Z.of_nat (length names) + 4 < 2 ^ 63 →
  errno s = 0 →
  ∃ s', kk_os_list_directory dir s = Some ((0, kk_string_box <$> names), s').
Proof.
  intros Hdir Hreal Hbig Herr.
  destruct (list_directory_spec dir s perm _ a t Hdir) as (s' & E & _).
  { simpl length. lia. }
  exists s'. rewrite E. unfold stale_status. rewrite Herr.
  change (List.filter real_name ("." :: ".." :: names))
    with (List.filter real_name names).
  by rewrite (filter_real_names names Hreal).
Qed.

(** C4 fails on the code.  After [kk_os_ensure_dir] has swallowed the
    "already exists" of a [mkdir] and returned 0, [errno] still holds
    EEXIST; listing the empty directory "d" then walks to the end of the
    stream, where [readdir] leaves [errno] alone, and returns EEXIST with
    the empty sequence instead of status 0. *)
Theorem list_directory_reports_stale_errno :
  ∃ s1 s2,
    kk_os_ensure_dir "f" (-1) (boot dir_and_file) = Some (0, s1) ∧
    files s1 = dir_and_file ∧
    errno s1 = EEXIST ∧
    kk_os_list_directory "d" s1 = Some ((EEXIST, []), s2).
Proof.
  eexists _, _. split; [vm_compute; reflexivity|].
  split; [reflexivity|]. split; [reflexivity|]. vm_compute. reflexivity.
Qed.

(** ** C7: when the range copy is given up *)

Lemma sys_copy_file_range_spec inp off_in out off_out count s n off_in' off_out' s' :
  sys_copy_file_range inp off_in out off_out count s = (n, off_in', off_out', s') →
  trace s' = SysCopyRange inp out count n :: trace s ∧
  ((n = -1 ∧ off_in' = off_in ∧ 0 < errno s' ∧
    (errno s' = EBADF ∨ errno s' = EINVAL ∨
     (length (sched s') < length (sched s))%nat)) ∨
   (0 ≤ n ∧ (Z.to_nat n ≤ Z.to_nat count)%nat ∧ off_in' = off_in + n ∧
    (length (sched s') ≤ length (sched s))%nat)).
Proof.
  unfold sys_copy_file_range.
  assert (F : ∀ e s0, 0 < e →
            (e = EBADF ∨ e = EINVAL ∨ (length (sched s0) < length (sched s))%nat) →
            trace s0 = trace s →
            (let '(r, s1) := failing (SysCopyRange inp out count) e s0 in
             (r, off_in, off_out, s1)) = (n, off_in', off_out', s') →
            trace s' = SysCopyRange inp out count n :: trace s ∧
            ((n = -1 ∧ off_in' = off_in ∧ 0 < errno s' ∧
              (errno s' = EBADF ∨ errno s' = EINVAL ∨
               (length (sched s') < length (sched s))%nat)) ∨
             (0 ≤ n ∧ (Z.to_nat n ≤ Z.to_nat count)%nat ∧ off_in' = off_in + n ∧
              (length (sched s') ≤ length (sched s))%nat))).
  { intros e s0 He Hk Ht [= <- <- <- <-]. simpl. rewrite Ht. split; [done|]. left.
    split_and!; try done. }
  destruct (fdt s !! inp) as [[ci pi fi]|]; [|by apply F; auto].
  destruct (fdt s !! out) as [[co po fo]|]; [|by apply F; auto].
  destruct (negb (readable fi && writable fo)); [by apply F; auto|].
  destruct ci as [pin|]; [|by apply F; auto].
  destruct co as [pout|]; [|by apply F; auto].
  destruct (files s !! pin) as [[mi [di| |] ai ti]|]; [| by apply F; auto..].
  destruct (files s !! pout) as [[mo [d0| |] ao to]|] eqn:Fo; [| by apply F; auto..].
  destruct (String.eqb pin pout); [by apply F; auto|].
  destruct (grant (Z.to_nat count) (sched s)) as [[e|k] l] eqn:G;
    apply grant_le in G as [G1 G2].
  - apply F; auto; lia.
  - intros [= <- <- <- <-]. split.
    + unfold store. cbn [files set_sched]. by rewrite Fo.
    + right. rewrite length_take. split_and!; try lia.
      unfold store. cbn [files set_sched]. rewrite Fo. simpl. lia.
Qed.

Lemma range_loop_spec fuel : ∀ inp out len off_in off_out s,
  0 ≤ off_in ≤ len → len < SIZE_MOD →
  (length (sched s) + Z.to_nat (len - off_in) < fuel)%nat →
  ∃ err off_in' s',
    range_loop fuel inp out len off_in off_out s = Some ((err, off_in'), s') ∧
    off_in ≤ off_in' ≤ len ∧
    off_in' - off_in = range_moved (trace s') - range_moved (trace s) ∧
    (err ≠ 0 →
       errno s' = err ∧ err ≠ EINTR ∧ err ≠ EAGAIN ∧
       ∃ c t, trace s' = SysCopyRange inp out c (-1) :: t).
Proof.
  induction fuel as [|fuel IH]; intros inp out len off_in off_out s Hofs Hlen Hfuel;
    [lia|].
  cbn [range_loop]. rewrite (Z.mod_small off_in) by lia.
  destruct (Z.ltb_spec off_in len) as [Hlt|Hge].
  2: { eexists _, _, _. split; [reflexivity|]. split_and!; try lia; try done. }
  rewrite size_sub_small by lia.
  set (toread := if len - off_in >? SSIZE_MAX then SSIZE_MAX else len - off_in).
  assert (Ht : 0 < toread ≤ len - off_in).
  { subst toread. unfold SSIZE_MAX. destruct (Z.gtb_spec (len - off_in) (2 ^ 63 - 1)); lia. }
  unfold bind at 1, call.
  destruct (sys_copy_file_range inp off_in out off_out toread s)
    as [[[n off_in'] off_out'] s1] eqn:C.
  apply sys_copy_file_range_spec in C as (Htr & C).
  destruct C as [(-> & -> & He & Hk)|(Hn & Hle & -> & Hs)].
  - failed_call.
    assert (Hm : range_moved (trace s1) = range_moved (trace s))
      by (rewrite Htr; simpl; lia).
    destruct (negb (errno s1 =? EAGAIN) && negb (errno s1 =? EINTR)) eqn:R.
    + apply retry_test in R. eexists _, _, _. split; [reflexivity|].
      split_and!; try lia. intros _. split_and!; try done; try tauto; eauto.
    + assert (length (sched s1) < length (sched s))%nat.
      { destruct Hk as [Hk|[Hk|Hk]]; [| |done]; rewrite Hk in R; discriminate R. }
      destruct (IH inp out len off_in off_out' s1) as (err & o & s' & E & P1 & P2 & P3);
        [lia..|].
      eexists _, _, _. split; [exact E|]. split_and!; try lia; try exact P3.
  - destruct (Z.ltb_spec n 0); [lia|].
    assert (Hm : range_moved (trace s1) = n + range_moved (trace s))
      by (rewrite Htr; simpl; lia).
    destruct (Z.eqb_spec n 0) as [->|Hn0].
    + eexists _, _, _. split; [reflexivity|]. split_and!; try lia; try done.
    + destruct (IH inp out len (off_in + n) off_out' s1)
        as (err & o & s' & E & P1 & P2 & P3); [lia..|].
      eexists _, _, _. split; [exact E|]. split_and!; try lia; try exact P3.
Qed.

(** The buffered loop always comes to an end: a turn that does not leave
    it has read, and written, at least one byte. *)
Lemma buffer_loop_total fuel : ∀ inp out buflen todo s,
  0 ≤ todo < SIZE_MOD → 0 ≤ buflen →
  (Z.to_nat todo < fuel)%nat →
  ∃ err s', buffer_loop fuel inp out buflen todo s = Some (err, s').
Proof.
  induction fuel as [|fuel IH]; intros inp out buflen todo s Htodo Hbuf Hfuel; [lia|].
  cbn [buffer_loop].
  destruct (Z.gtb_spec todo 0) as [Hpos|]; [|by eexists _, _].
  set (toread := if todo >? buflen then buflen else todo).
  assert (Ht : 0 ≤ toread ≤ todo) by (subst toread; destruct (Z.gtb_spec todo buflen); lia).
  destruct (read_retry_spec inp toread s) as (err & rc & buf & s1 & E & P); [lia|].
  unfold bind at 1. rewrite E.
  destruct P as (P1 & _ & _ & _ & (d & -> & Hd) & _).
  destruct (negb (err =? 0) || (rc =? 0)) eqn:Stop; [by eexists _, _|].
  apply orb_false_iff in Stop as [_ Hrc]. apply Z.eqb_neq in Hrc.
  destruct (write_retry_spec out (take (Z.to_nat rc) ([] ++ d)) s1)
    as (err' & wc & s2 & E' & _).
  { rewrite length_take. simpl. lia. }
  unfold bind. rewrite E'.
  destruct (negb (err' =? 0)); [by eexists _, _|].
  rewrite size_sub_small by lia. apply IH; lia.
Qed.

Lemma generic_copy_total inp out len s :
  0 ≤ len < SIZE_MOD →
  ∃ err s', generic_copy inp out len s = Some (err, s').
Proof.
  intros H. unfold generic_copy. apply buffer_loop_total; [done| |lia].
  destruct (1024 * 1024 >? len); lia.
Qed.

(** The three ways out, run.  EINVAL at once (after an interrupted call,
    which is retried): the buffered loop copies the five bytes. *)
Lemma range_copy_einval_at_once :
  ∃ s',
    kk_posix_copy_file 3 4 5 (copying [Fail 4; Fail 22]) = Some (0, s') ∧
    content s' "dst" = Some hello ∧
    trace s' = [SysWrite 4 5 5; SysRead 3 5 5;
                SysCopyRange 3 4 5 (-1); SysCopyRange 3 4 5 (-1)].
Proof.
  eexists. split; [vm_compute; reflexivity|]. split; reflexivity.
Qed.

(** Another error at once: the status is that error, nothing is copied. *)
Lemma range_copy_other_error :
  ∃ s',
    kk_posix_copy_file 3 4 5 (copying [Fail 5]) = Some (EIO, s') ∧
    content s' "dst" = Some [] ∧
    trace s' = [SysCopyRange 3 4 5 (-1)].
Proof.
  eexists. split; [vm_compute; reflexivity|]. split; reflexivity.
Qed.

(** EINVAL after two bytes: the status is EINVAL, the two bytes stay. *)
Lemma range_copy_einval_after_progress :
  ∃ s',
    kk_posix_copy_file 3 4 5 (copying [AtMost 2; Fail 22]) = Some (EINVAL, s') ∧
    content s' "dst" = Some [x68; x65] ∧
    trace s' = [SysCopyRange 3 4 3 (-1); SysCopyRange 3 4 5 2].
Proof.
  eexists. split; [vm_compute; reflexivity|]. split; reflexivity.
Qed.

(** ** C8: search-path resolution *)

Lemma append_cons c s t : String c s +:+ t = String c (s +:+ t).
Proof. reflexivity. Qed.

Lemma append_nil_l t : "" +:+ t = t.
Proof. reflexivity. Qed.

Lemma append_nil_r s : s +:+ "" = s.
Proof. induction s as [|c s IH]; [done | by rewrite append_cons, IH]. Qed.

Lemma append_assoc a b c : (a +:+ b) +:+ c = a +:+ b +:+ c.
Proof. induction a as [|x a IH]; [done | by rewrite !append_cons, IH]. Qed.

Lemma substring_all s : substring 0 (String.length s) s = s.
Proof. induction s as [|c s IH]; simpl; [done | by rewrite IH]. Qed.

Lemma ptr_add_length n : ∀ p, String.length (ptr_add p n) = (String.length p - n)%nat.
Proof.
  induction n as [|n IH]; intros [|c p]; simpl; try done; try lia.
Qed.

Lemma strchr_lt s c i : strchr s c = Some i → (i < String.length s)%nat.
Proof.
  revert i. induction s as [|a s IH]; intros i; simpl; [done|].
  destruct (Ascii.eqb a c); [intros [= <-]; lia|].
  destruct (strchr s c) as [j|]; [|done]. intros [= <-].
  specialize (IH j eq_refl). lia.
Qed.

(** The segments, one step of the C loop at a time: up to the first
    separator, and on from behind it. *)
Lemma segments_from_step p : ∀ cur,
  segments_from cur p =
    match strchr p KK_PATH_SEP with
    | Some i => (cur +:+ substring 0 i p) :: segments_from "" (ptr_add p (i + 1))
    | None => if String.eqb (cur +:+ p) "" then [] else [cur +:+ p]
    end.
Proof.
  induction p as [|c r IH]; intros cur.
  - simpl. by rewrite append_nil_r.
  - cbn [segments_from strchr]. destruct (Ascii.eqb c KK_PATH_SEP).
    + change (ptr_add (String c r) (0 + 1)) with r.
      change (substring 0 0 (String c r)) with EmptyString.
      by rewrite append_nil_r.
    + rewrite IH. destruct (strchr r KK_PATH_SEP) as [i|]; cbn [fmap option_fmap option_map].
      * change (substring 0 (S i) (String c r)) with (String c (substring 0 i r)).
        change (ptr_add (String c r) (S i + 1)) with (ptr_add r (i + 1)).
        by rewrite append_assoc, append_cons, append_nil_l.
      * by rewrite append_assoc, append_cons, append_nil_l.
Qed.

Lemma regular_bit perm b a t :
  negb (Z.land (st_mode (stat_of (Inode perm b a t))) S_IFREG =? 0)
  = match b with Bytes _ | Socket => true | Entries _ => false end.
Proof.
  simpl. rewrite Z.land_lor_distr_l.
  assert (P : Z.land (Z.land perm 4095) S_IFREG = 0).
  { rewrite <- Z.land_assoc. change (Z.land 4095 S_IFREG) with 0. apply Z.land_0_r. }
  rewrite P, Z.lor_0_r. by destruct b.
Qed.

(** [kk_os_is_file] tells the names whose file type has the bit of
    [S_IFREG], the sockets with the regular files, and changes no file. *)
Lemma kk_os_is_file_spec p s :
  ∃ s', kk_os_is_file p s = Some (passes_for_file (files s) p, s') ∧
        files s' = files s ∧ environ s' = environ s.
Proof.
  unfold kk_os_is_file, kk_posix_stat, bind, call, get_errno, ret, sys_stat,
    passes_for_file.
  destruct (files s !! p) as [[perm b a t]|].
  - cbn -[stat_of Z.land]. rewrite regular_bit. eexists. by destruct b.
  - eexists. done.
Qed.

Section Resolution.

Variable realpath : string → option string.

Lemma kk_os_realpath_spec p s :
  ∃ s', kk_os_realpath realpath p s = Some (canonical realpath p, s') ∧
        files s' = files s ∧ environ s' = environ s.
Proof.
  unfold kk_os_realpath, bind, call, ret, sys_realpath, canonical.
  destruct (realpath p); eexists; done.
Qed.

(** The loop of [kk_os_searchpathx] returns the canonicalized form of the
    first candidate that [kk_os_is_file] accepts, or the empty string. *)
Lemma searchpath_loop_spec fuel : ∀ p fname s,
  (String.length p < fuel)%nat →
  ∃ s',
    searchpath_loop realpath fuel p fname s =
      Some (match List.find (passes_for_file (files s)) (candidates (Some p) fname) with
            | Some c => canonical realpath c
            | None => ""
            end, s') ∧
    files s' = files s ∧ environ s' = environ s.
Proof.
  induction fuel as [|fuel IH]; intros p fname s Hfuel; [lia|].
  cbn [searchpath_loop]. unfold candidates, path_segments.
  destruct p as [|c r] eqn:Hp.
  { eexists. done. }
  rewrite <- Hp in *. replace (String.eqb p "") with false by by rewrite Hp.
  cbn [negb]. rewrite segments_from_step.
  assert (Hlen : (0 < String.length p)%nat) by (rewrite Hp; simpl; lia).
  set (r0 := strchr p KK_PATH_SEP) in *.
  set (plen := match r0 with Some i => i | None => String.length p end).
  set (p' := match r0 with Some i => ptr_add p (i + 1) | None => EmptyString end).
  assert (Hseg : match r0 with
                 | Some i => ("" +:+ substring 0 i p)
                             :: segments_from "" (ptr_add p (i + 1))
                 | None => if String.eqb ("" +:+ p) "" then [] else ["" +:+ p]
                 end = substring 0 plen p :: segments_from "" p').
  { subst plen p'. destruct r0; [done|].
    rewrite substring_all, append_nil_l. by rewrite Hp. }
  rewrite Hseg. cbn [fmap list_fmap List.find].
  assert (Hshort : (String.length p' < fuel)%nat).
  { subst p'. destruct r0; [|simpl; lia]. rewrite ptr_add_length. lia. }
  destruct (kk_os_is_file_spec (substring 0 plen p +:+ "/" +:+ fname) s)
    as (s1 & E1 & F1 & V1).
  unfold bind. rewrite E1.
  destruct (passes_for_file (files s) _) eqn:Reg.
  - destruct (kk_os_realpath_spec (substring 0 plen p +:+ "/" +:+ fname) s1)
      as (s2 & E2 & F2 & V2).
    exists s2. split; [exact E2|]. split; congruence.
  - destruct (IH p' fname s1 Hshort) as (s2 & E2 & F2 & V2).
    exists s2. rewrite E2. unfold candidates, path_segments. rewrite F1.
    split; [done|]. split; congruence.
Qed.

Hypothesis realpath_nonempty : ∀ p r, realpath p = Some r → r ≠ "".

Lemma candidate_nonempty paths name c :
  c ∈ candidates paths name → c ≠ "".
Proof.
  unfold candidates. destruct paths as [paths|]; [|by intros ?%elem_of_nil].
  intros (seg & -> & _)%list_elem_of_fmap. by destruct seg.
Qed.

(** For a bare name (not empty, without a slash) as [argv[0]], the
    application path is the canonicalized form of the first
    [segment/name], in the order of the segments of PATH, that
    [kk_os_is_file] accepts, and the canonicalized bare name when there is
    none (or no PATH). *)
Lemma app_path_generic_resolves s n name rest :
  0 < n → name ≠ "" → strchr name "/" = None →
  ∃ s',
    kk_os_app_path_generic realpath (Ctx n (name :: rest)) s =
      Some (resolve_code realpath (files s) (environ s !! "PATH") name, s').
Proof.
  intros Hn Hname Hbare.
  unfold kk_os_app_path_generic. cbn [argc argv].
  apply Z.gtb_lt in Hn. rewrite Hn. cbn [lookup list_lookup].
  destruct name as [|c r]; [done|].
  assert (Hc : Ascii.eqb c "/" = false).
  { cbn [strchr] in Hbare. by destruct (Ascii.eqb c "/"). }
  cbn [String.length Nat.eqb first_char]. rewrite Hc, Hbare.
  unfold bind at 1, call, sys_getenv, resolve_code.
  destruct (environ s !! "PATH") as [paths|].
  - unfold kk_os_searchpathx. replace (String.eqb (String c r) "") with false by done.
    destruct (searchpath_loop_spec (S (String.length paths)) paths
                (String c r) s) as (s1 & E & F & V); [lia|].
    unfold bind. rewrite E.
    destruct (List.find _ _) as [cand|] eqn:Found.
    + apply List.find_some in Found as [Hin _].
      apply list_elem_of_In, candidate_nonempty in Hin.
      assert (Hne : canonical realpath cand ≠ "").
      { unfold canonical. destruct (realpath cand) eqn:R;
          [by eapply realpath_nonempty|done]. }
      apply String.eqb_neq in Hne. rewrite Hne. by eexists.
    + replace (String.eqb "" "") with true by done.
      destruct (kk_os_realpath_spec (String c r) s1) as (s2 & E2 & _).
      by exists s2.
  - unfold kk_os_searchpathx, bind, ret.
    replace (String.eqb "" "") with true by done.
    destruct (kk_os_realpath_spec (String c r) s) as (s2 & E2 & _).
    by exists s2.
Qed.

(** Where no candidate is a socket, that is the first candidate that is a
    regular file. *)
Lemma resolve_code_without_sockets fs paths name :
  (∀ c i, c ∈ candidates paths name → fs !! c = Some i → is_socket i = false) →
  resolve_code realpath fs paths name = resolve_spec realpath fs paths name.
Proof.
  unfold resolve_code, resolve_spec. generalize (candidates paths name).
  intros l H. induction l as [|c l IH]; [done|]. cbn [List.find].
  assert (E : passes_for_file fs c = is_regular_at fs c).
  { unfold passes_for_file, is_regular_at.
    destruct (fs !! c) as [[perm [d|ns|] a t]|] eqn:F; try done.
    by specialize (H c _ ltac:(left) F). }
  rewrite E. destruct (is_regular_at fs c); [done|].
  apply IH. intros c' i Hc'. apply H. by right.
Qed.

(** With PATH "/x:/y" and "tool" a regular file under "/y" and absent
    under "/x", the bare name "tool" resolves to the canonicalized form of
    "/y/tool". *)
Lemma search_path_tool_under_y s perm d a t :
  environ s !! "PATH" = Some "/x:/y" →
  files s !! "/x/tool" = None →
  files s !! "/y/tool" = Some (Inode perm (Bytes d) a t) →
  ∃ s',
    kk_os_app_path_generic realpath (Ctx 1 ["tool"]) s =
      Some (canonical realpath "/y/tool", s').
Proof.
  intros Hpath Hx Hy.
  destruct (app_path_generic_resolves s 1 "tool" [] ltac:(done) ltac:(done) eq_refl)
    as (s' & E).
  exists s'. rewrite E. do 2 f_equal.
  unfold resolve_code. rewrite Hpath.
  change (candidates (Some "/x:/y") "tool") with ["/x/tool"; "/y/tool"].
  cbn [List.find]. unfold passes_for_file. by rewrite Hx, Hy.
Qed.

End Resolution.

(** C8: with PATH "/x:/y", a socket bound to the name "tool" under "/x"
    and "tool" a regular file under "/y", the bare name "tool" resolves
    to the canonicalized form of "/x/tool", the socket: [kk_os_is_file]
    accepts it, its file type having the bit of [S_IFREG].  The first
    candidate that is a regular file, the one the specification has win,
    is "/y/tool". *)
Theorem search_path_stops_at_socket (realpath : string → option string)
    s perm a t perm' d a' t' :
  (∀ p r, realpath p = Some r → r ≠ "") →
  environ s !! "PATH" = Some "/x:/y" →
  files s !! "/x/tool" = Some (Inode perm Socket a t) →
  files s !! "/y/tool" = Some (Inode perm' (Bytes d) a' t') →
  ∃ s',
    kk_os_app_path_generic realpath (Ctx 1 ["tool"]) s =
      Some (canonical realpath "/x/tool", s') ∧
    resolve_spec realpath (files s) (environ s !! "PATH") "tool" =
      canonical realpath "/y/tool".
Proof.
  intros Hreal Hpath Hx Hy.
  destruct (app_path_generic_resolves realpath Hreal s 1 "tool" []
              ltac:(done) ltac:(done) eq_refl) as (s' & E).
  exists s'. rewrite E, Hpath. unfold resolve_code, resolve_spec.
  change (candidates (Some "/x:/y") "tool") with ["/x/tool"; "/y/tool"].
  cbn [List.find]. unfold passes_for_file, is_regular_at. by rewrite Hx, Hy.
Qed.

Lemma search_path_stops_at_socket_witness :
  ∃ s',
    kk_os_app_path_generic realpath_tool (Ctx 1 ["tool"])
      (with_path "/x:/y" (boot socket_before_tool)) = Some ("/x/tool", s') ∧
    resolve_spec realpath_tool socket_before_tool (Some "/x:/y") "tool" =
      "/srv/y/tool".
Proof.
  assert (Hreal : ∀ p r, realpath_tool p = Some r → r ≠ "").
  { intros p r. unfold realpath_tool. by destruct (String.eqb p "/y/tool"); intros [= <-]. }
  exact (search_path_stops_at_socket realpath_tool
           (with_path "/x:/y" (boot socket_before_tool))
           493 0 0 493 hello 0 0 Hreal eq_refl eq_refl eq_refl).
Defined.

(** * Further properties of the code *)

(** ** Transfers on a regular file: what the two loops deliver *)

Lemma benign_cons e l :
  benign (e :: l) = true ↔
  match e with
  | Fail c => Z.pos c = EINTR ∨ Z.pos c = EAGAIN
  | AtMost k => (0 < k)%nat
  end ∧ benign l = true.
Proof.
  unfold benign. cbn [forallb]. rewrite andb_true_iff.
  destruct e as [c|k].
  - rewrite orb_true_iff, !Z.eqb_eq. tauto.
  - rewrite Nat.ltb_lt. tauto.
Qed.

Lemma grant_benign want l r l' :
  grant want l = (r, l') → benign l = true →
  benign l' = true ∧
  match r with
  | inl e => Z.pos e = EINTR ∨ Z.pos e = EAGAIN
  | inr k => (0 < want → 0 < k)%nat
  end.
Proof.
  destruct l as [|[e|k] l0]; cbn [grant]; intros [= <- <-] B.
  - split; [done|lia].
  - apply benign_cons in B as [B1 B2]. done.
  - apply benign_cons in B as [B1 B2]. split; [done|lia].
Qed.

(** [read] on a regular file open for reading. *)
Lemma sys_read_file fd p pos fl m d a t count s :
  at_pos fd p pos fl s → regular p m d a t s → readable fl = true →
  sys_read fd count s =
    match grant (Z.to_nat count) (sched s) with
    | (inl e, l) =>
        (-1, [], log (SysRead fd count (-1)) (set_errno (Z.pos e) (set_sched l s)))
    | (inr k, l) =>
        let data := take k (drop pos d) in
        (Z.of_nat (length data), data,
         log (SysRead fd count (Z.of_nat (length data)))
           (set_fdt (<[fd := Handle (OnFile p) (pos + length data) fl]> (fdt s))
              (set_sched l s)))
    end.
Proof.
  unfold at_pos, regular. intros Hfd Hp Hr.
  unfold sys_read, source, advance. rewrite Hfd, Hr, Hp.
  by destruct (grant _ _) as [[e|k] l].
Qed.

(** [write] on a regular file open for writing. *)
Lemma sys_write_file fd p pos fl m d a t data s :
  at_pos fd p pos fl s → regular p m d a t s → writable fl = true →
  sys_write fd data s =
    match grant (length data) (sched s) with
    | (inl e, l) =>
        (-1, log (SysWrite fd (Z.of_nat (length data)) (-1))
               (set_errno (Z.pos e) (set_sched l s)))
    | (inr k, l) =>
        let chunk := take k data in
        (Z.of_nat (length chunk),
         log (SysWrite fd (Z.of_nat (length data)) (Z.of_nat (length chunk)))
           (set_fdt (<[fd := Handle (OnFile p) (pos + length chunk) fl]> (fdt s))
              (set_files (<[p := Inode m (Bytes (write_at d pos chunk)) a t]> (files s))
                 (set_sched l s))))
    end.
Proof.
  unfold at_pos, regular. intros Hfd Hp Hw.
  unfold sys_write, sink, advance, store. rewrite Hfd, Hw, Hp.
  destruct (grant _ _) as [[e|k] l]; [done|]. cbn. by rewrite Hp.
Qed.

(** Storing two chunks one after the other is storing them joined. *)
Lemma write_at_app d pos c1 c2 :
  (pos ≤ length d)%nat →
  write_at (write_at d pos c1) (pos + length c1) c2 = write_at d pos (c1 ++ c2).
Proof.
  intros H. unfold write_at.
  replace (pos - length d)%nat with 0%nat by lia. cbn [replicate app].
  assert (HA : length (take pos d) = pos) by (rewrite length_take; lia).
  set (A := take pos d) in *. set (R := drop (pos + length c1) d).
  rewrite (app_assoc A c1 R).
  rewrite (take_app_length' (A ++ c1) R) by (rewrite length_app; lia).
  rewrite (drop_app_add' (A ++ c1) R) by (rewrite length_app; lia).
  unfold R. rewrite drop_drop, !length_app, length_drop, <- !app_assoc.
  rewrite (proj2 (Nat.sub_0_le _ _)) by lia. cbn [replicate app].
  by rewrite Nat.add_assoc.
Qed.

Lemma write_at_nil d pos : (pos ≤ length d)%nat → write_at d pos [] = d.
Proof.
  intros H. unfold write_at. replace (pos - length d)%nat with 0%nat by lia.
  cbn. rewrite Nat.add_0_r. apply take_drop.
Qed.

Lemma length_write_at d pos c :
  (pos ≤ length d)%nat →
  length (write_at d pos c) = Nat.max (length d) (pos + length c).
Proof.
  intros H. unfold write_at.
  rewrite !length_app, length_take, length_replicate, length_drop. lia.
Qed.

Lemma take_length_take {A} (l : list A) k :
  take (length (take k l)) l = take k l.
Proof.
  rewrite length_take. destruct (Nat.le_ge_cases k (length l)).
  - by replace (Nat.min k (length l)) with k by lia.
  - replace (Nat.min k (length l)) with (length l) by lia.
    by rewrite !take_ge by lia.
Qed.

(** Reading on in a list: the bytes taken first, then those after them. *)
Lemma take_then_take {A} (l : list A) k m :
  take k l ++ take m (drop (length (take k l)) l) = take (length (take k l) + m) l.
Proof.
  rewrite <- (take_length_take l k) at 1. apply take_take_drop.
Qed.

(** Whatever the kernel does, the read loop stores the bytes of the file
    from the position of the descriptor on, in order and without a gap,
    and leaves the descriptor behind the last of them; under a benign
    schedule it goes on to the end of the buffer or of the file. *)
Lemma read_loop_data fuel :
  ∀ inp buflen ofs buf s p pos fl m d a t err moved buf' s',
  at_pos inp p pos fl s → regular p m d a t s → readable fl = true →
  buflen < SIZE_MOD → 0 ≤ ofs ≤ buflen →
  read_loop fuel inp buflen ofs buf s = Some (err, moved, buf', s') →
  ofs ≤ moved ≤ buflen ∧ (Z.to_nat (moved - ofs) ≤ length (drop pos d))%nat ∧
  buf' = buf ++ take (Z.to_nat (moved - ofs)) (drop pos d) ∧
  at_pos inp p (pos + Z.to_nat (moved - ofs)) fl s' ∧
  same_but inp (fdt s) (fdt s') ∧
  files s' = files s ∧ tty s' = tty s ∧
  (benign (sched s) = true →
   benign (sched s') = true ∧ err = 0 ∧
   (moved = buflen ∨ Z.to_nat (moved - ofs) = length (drop pos d))).
Proof.
  induction fuel as [|fuel IH];
    intros inp buflen ofs buf s p pos fl m d a t err moved buf' s'
      Hfd Hp Hr Hlen Hofs H; [done|].
  cbn [read_loop] in H. rewrite size_sub_small in H by lia.
  destruct (chunk_cap (buflen - ofs)) as [Hc Hc0]; [lia|].
  set (todo := if buflen - ofs >? KK_SSIZE_MAX then KK_SSIZE_MAX else buflen - ofs) in *.
  unfold bind at 1, call in H.
  rewrite (sys_read_file _ _ _ _ _ _ _ _ _ _ Hfd Hp Hr) in H.
  destruct (grant (Z.to_nat todo) (sched s)) as [[e|k0] l] eqn:G.
  - (* the read failed *)
    change (-1 <? 0) with true in H. cbv iota in H. unfold bind, get_errno in H.
    cbn [errno log set_errno] in H.
    destruct (negb (Z.pos e =? EAGAIN) && negb (Z.pos e =? EINTR)) eqn:T.
    + injection H as <- <- <- <-. rewrite Z.sub_diag. cbn [Z.to_nat].
      rewrite take_0, app_nil_r, Nat.add_0_r.
      split_and!; try done; try lia.
      intros B. apply (grant_benign _ _ _ _ G) in B as [_ B].
      apply retry_test in T. lia.
    + destruct (Z.ltb_spec ofs buflen).
      * eapply IH in H as (H1 & H2 & H3 & H4 & H5 & H6 & H7 & H8); [|done..].
        split_and!; try done; try lia.
        intros B. apply (grant_benign _ _ _ _ G) in B as [B _]. by apply H8.
      * injection H as <- <- <- <-. rewrite Z.sub_diag. cbn [Z.to_nat].
        rewrite take_0, app_nil_r, Nat.add_0_r.
        split_and!; try done; try lia.
        intros B. apply (grant_benign _ _ _ _ G) in B as [B _].
        split_and!; try done. left. lia.
  - (* the read moved [data] *)
    cbv zeta in H.
    set (rest := drop pos d) in *. set (data := take k0 rest) in *.
    assert (Hd : (length data ≤ k0 ∧ length data ≤ length rest)%nat)
      by (unfold data; rewrite length_take; lia).
    apply grant_le in G as G'. destruct G' as [_ Gk].
    cbv beta iota in H.
    destruct (Z.ltb_spec (Z.of_nat (length data)) 0); [lia|].
    destruct (Z.eqb_spec (Z.of_nat (length data)) 0) as [E0|E0].
    + injection H as <- <- <- <-. rewrite Z.sub_diag. cbn [Z.to_nat].
      rewrite take_0, app_nil_r.
      split_and!; try done; try lia.
      * unfold at_pos. cbn. rewrite lookup_insert_eq.
        by replace (length data) with 0%nat by lia.
      * intros k Hk. cbn. by rewrite lookup_insert_ne.
      * intros B. apply (grant_benign _ _ _ _ G) in B as [B Bk].
        split_and!; try done.
        destruct (Z.eq_dec ofs buflen); [by left|right].
        unfold data in E0. rewrite length_take in E0. lia.
    + rewrite size_add_small in H by lia.
      assert (Hfd1 : at_pos inp p (pos + length data) fl
                (log (SysRead inp todo (Z.of_nat (length data)))
                   (set_fdt (<[inp:=Handle (OnFile p) (pos + length data) fl]> (fdt s))
                      (set_sched l s)))).
      { unfold at_pos. cbn. by rewrite lookup_insert_eq. }
      destruct (Z.ltb_spec (ofs + Z.of_nat (length data)) buflen).
      * eapply IH in H as (I1 & H2 & H3 & H4 & H5 & H6 & H7 & H8);
          [|exact Hfd1|exact Hp|done|lia|lia].
        set (k' := Z.to_nat (moved - (ofs + Z.of_nat (length data)))) in *.
        rewrite <- drop_drop in H2, H3, H8. fold rest in H2, H3, H8.
        rewrite length_drop in H2, H8.
        replace (Z.to_nat (moved - ofs)) with (length data + k')%nat by lia.
        split_and!; try done; try lia.
        -- rewrite H3, <- app_assoc. f_equal. apply take_then_take.
        -- by rewrite Nat.add_assoc.
        -- intros k Hk. rewrite (H5 k Hk). cbn. by rewrite lookup_insert_ne.
        -- intros B. apply (grant_benign _ _ _ _ G) in B as [B Bk].
           destruct (H8 B) as (B1 & B2 & B3). split_and!; try done.
           destruct B3 as [B3|B3]; [by left|right]. lia.
      * injection H as <- <- <- <-.
        replace (Z.to_nat (ofs + Z.of_nat (length data) - ofs)) with (length data) by lia.
        split_and!; try done; try lia.
        -- f_equal. unfold data. by rewrite take_length_take.
        -- intros k Hk. cbn. by rewrite lookup_insert_ne.
        -- intros B. apply (grant_benign _ _ _ _ G) in B as [B Bk].
           split_and!; try done. left. lia.
Qed.

(** Whatever the kernel does, the write loop stores the bytes of the
    buffer in order and without a gap at the position of the descriptor,
    and leaves the descriptor behind the last of them; under a benign
    schedule it stores them all. *)
Lemma write_loop_data fuel :
  ∀ out buf ofs s p pos fl m d a t err moved s',
  at_pos out p pos fl s → regular p m d a t s → writable fl = true →
  (pos ≤ length d)%nat →
  Z.of_nat (length buf) < SIZE_MOD → 0 ≤ ofs ≤ Z.of_nat (length buf) →
  write_loop fuel out buf ofs s = Some (err, moved, s') →
  ofs ≤ moved ≤ Z.of_nat (length buf) ∧
  files s' =
    <[p := Inode m (Bytes (write_at d pos
                             (take (Z.to_nat (moved - ofs)) (drop (Z.to_nat ofs) buf))))
                 a t]> (files s) ∧
  at_pos out p (pos + Z.to_nat (moved - ofs)) fl s' ∧
  same_but out (fdt s) (fdt s') ∧ tty s' = tty s ∧
  (benign (sched s) = true →
   benign (sched s') = true ∧
   (ofs < Z.of_nat (length buf) → err = 0 ∧ moved = Z.of_nat (length buf))).
Proof.
  induction fuel as [|fuel IH];
    intros out buf ofs s p pos fl m d a t err moved s'
      Hfd Hp Hw Hpos Hlen Hofs H; [done|].
  cbn [write_loop] in H. rewrite size_sub_small in H by lia.
  set (len := Z.of_nat (length buf)) in *.
  destruct (chunk_cap (len - ofs)) as [Hc Hc0]; [lia|].
  set (todo := if len - ofs >? KK_SSIZE_MAX then KK_SSIZE_MAX else len - ofs) in *.
  unfold bind at 1, call in H.
  rewrite (sys_write_file _ _ _ _ _ _ _ _ _ _ Hfd Hp Hw) in H.
  set (L := drop (Z.to_nat ofs) buf) in *.
  assert (HL : length L = Z.to_nat (len - ofs)) by (unfold L; rewrite length_drop; lia).
  assert (Hid : files s = <[p := Inode m (Bytes (write_at d pos [])) a t]> (files s)).
  { rewrite write_at_nil by done. symmetry. by apply insert_id. }
  destruct (grant (length (take (Z.to_nat todo) L)) (sched s)) as [[e|k0] l] eqn:G.
  - (* the write failed *)
    change (-1 <? 0) with true in H. cbv iota in H. unfold bind, get_errno in H.
    cbn [errno log set_errno] in H.
    destruct (negb (Z.pos e =? EAGAIN) && negb (Z.pos e =? EINTR)) eqn:T.
    + injection H as <- <- <-. rewrite Z.sub_diag. cbn [Z.to_nat].
      rewrite take_0, Nat.add_0_r.
      split_and!; try done; try lia.
      intros B. apply (grant_benign _ _ _ _ G) in B as [_ B].
      apply retry_test in T. lia.
    + destruct (Z.ltb_spec ofs len).
      * eapply IH in H as (I1 & H2 & H3 & H4 & H5 & H6); [|done..].
        split_and!; try done; try lia.
        intros B. apply (grant_benign _ _ _ _ G) in B as [B _]. by apply H6.
      * injection H as <- <- <-. rewrite Z.sub_diag. cbn [Z.to_nat].
        rewrite take_0, Nat.add_0_r.
        split_and!; try done; try lia.
        intros B. apply (grant_benign _ _ _ _ G) in B as [B _].
        split; [done|lia].
  - (* the write took [chunk] *)
    cbv zeta in H. rewrite take_take in H.
    rewrite length_take in G.
    set (K := Nat.min k0 (Z.to_nat todo)) in *.
    set (chunk := take K L) in *.
    assert (Hd : (length chunk ≤ K ∧ length chunk ≤ length L)%nat)
      by (unfold chunk; rewrite length_take; lia).
    destruct (Z.ltb_spec (Z.of_nat (length chunk)) 0); [lia|].
    destruct (Z.eqb_spec (Z.of_nat (length chunk)) 0) as [E0|E0].
    + injection H as <- <- <-. rewrite Z.sub_diag. cbn [Z.to_nat].
      rewrite take_0. assert (E1 : length chunk = 0%nat) by lia.
      apply nil_length_inv in E1 as E2.
      split_and!; try done; try lia.
      * cbn. by rewrite E2.
      * unfold at_pos. cbn. rewrite lookup_insert_eq. by rewrite E1.
      * intros k Hk. cbn. by rewrite lookup_insert_ne.
      * intros B. apply (grant_benign _ _ _ _ G) in B as [B Bk].
        split; [done|]. intros Hlt. exfalso.
        unfold chunk in E1. rewrite length_take in E1. lia.
    + rewrite size_add_small in H by lia.
      set (s1 := log _ _) in H.
      assert (Hfd1 : at_pos out p (pos + length chunk) fl s1).
      { unfold at_pos, s1. cbn. by rewrite lookup_insert_eq. }
      assert (Hp1 : regular p m (write_at d pos chunk) a t s1).
      { unfold regular, s1. cbn. by rewrite lookup_insert_eq. }
      assert (Hf1 : files s1 = <[p := Inode m (Bytes (write_at d pos chunk)) a t]> (files s))
        by done.
      assert (Hs1 : fdt s1 = <[out := Handle (OnFile p) (pos + length chunk) fl]> (fdt s))
        by done.
      assert (Hl1 : sched s1 = l) by done.
      assert (Ht1 : tty s1 = tty s) by done.
      clearbody s1.
      destruct (Z.ltb_spec (ofs + Z.of_nat (length chunk)) len).
      * eapply IH in H as (I1 & H2 & H3 & H4 & H5 & H6);
          [|exact Hfd1|exact Hp1|done|rewrite length_write_at by done; lia|done|lia].
        set (k' := Z.to_nat (moved - (ofs + Z.of_nat (length chunk)))) in *.
        replace (Z.to_nat (ofs + Z.of_nat (length chunk)))
          with (Z.to_nat ofs + length chunk)%nat in H2 by lia.
        rewrite <- drop_drop in H2. fold L in H2.
        rewrite write_at_app in H2 by done.
        assert (Hcat : chunk ++ take k' (drop (length chunk) L)
                       = take (length chunk + k') L) by apply take_then_take.
        rewrite Hcat in H2.
        rewrite Hf1, insert_insert_eq in H2.
        replace (Z.to_nat (moved - ofs)) with (length chunk + k')%nat by lia.
        split_and!; try done; try lia.
        -- by rewrite Nat.add_assoc.
        -- intros k Hk. rewrite (H4 k Hk), Hs1. by rewrite lookup_insert_ne.
        -- congruence.
        -- intros B. apply (grant_benign _ _ _ _ G) in B as [B Bk].
           rewrite Hl1 in H6. destruct (H6 B) as (B1 & B2). split; [done|].
           intros _. apply B2. lia.
      * injection H as <- <- <-.
        replace (Z.to_nat (ofs + Z.of_nat (length chunk) - ofs)) with (length chunk) by lia.
        split_and!; try done; try lia.
        -- rewrite Hf1. unfold chunk. by rewrite take_length_take.
        -- intros k Hk. rewrite Hs1. by rewrite lookup_insert_ne.
        -- intros B. apply (grant_benign _ _ _ _ G) in B as [B Bk].
           rewrite Hl1. split; [done|]. intros _. split; [done|lia].
Qed.

(** The two loops as the functions enter them. *)
Lemma read_retry_run inp buflen s p pos fl m d a t err moved buf s' :
  at_pos inp p pos fl s → regular p m d a t s → readable fl = true →
  0 ≤ buflen < SIZE_MOD →
  kk_posix_read_retry inp buflen s = Some (err, moved, buf, s') →
  0 ≤ moved ≤ buflen ∧ (Z.to_nat moved ≤ length (drop pos d))%nat ∧
  buf = take (Z.to_nat moved) (drop pos d) ∧
  at_pos inp p (pos + Z.to_nat moved) fl s' ∧
  same_but inp (fdt s) (fdt s') ∧
  files s' = files s ∧ tty s' = tty s ∧
  (benign (sched s) = true →
   benign (sched s') = true ∧ err = 0 ∧
   (moved = buflen ∨ Z.to_nat moved = length (drop pos d))).
Proof.
  intros Hfd Hp Hr Hb E. unfold kk_posix_read_retry in E.
  eapply read_loop_data in E as (H1 & H2 & H3 & H4 & H5 & H6 & H7 & H8);
    [|done|done|done|lia|lia].
  rewrite Z.sub_0_r in *. by cbn [app] in H3.
Qed.

Lemma write_retry_run out buf s p pos fl m d a t err moved s' :
  at_pos out p pos fl s → regular p m d a t s → writable fl = true →
  (pos ≤ length d)%nat → Z.of_nat (length buf) < SIZE_MOD →
  kk_posix_write_retry out buf s = Some (err, moved, s') →
  0 ≤ moved ≤ Z.of_nat (length buf) ∧
  files s' =
    <[p := Inode m (Bytes (write_at d pos (take (Z.to_nat moved) buf))) a t]> (files s) ∧
  at_pos out p (pos + Z.to_nat moved) fl s' ∧
  same_but out (fdt s) (fdt s') ∧ tty s' = tty s ∧
  (benign (sched s) = true →
   benign (sched s') = true ∧
   (buf ≠ [] → err = 0 ∧ moved = Z.of_nat (length buf))).
Proof.
  intros Hfd Hp Hw Hpos Hlen E. unfold kk_posix_write_retry in E.
  eapply write_loop_data in E as (H1 & H2 & H3 & H4 & H5 & H6);
    [|done|done|done|done|done|lia].
  rewrite Z.sub_0_r in *. change (Z.to_nat 0) with 0%nat in H2. rewrite drop_0 in H2.
  split_and!; try done; try lia.
  intros B. destruct (H6 B) as (B1 & B2). split; [done|].
  intros Hne. apply B2. destruct buf; [done|]. cbn [length]. lia.
Qed.

(** X1: on a regular file open for reading, whatever the kernel does
    (failures of any kind, short and empty reads), [kk_posix_read_retry]
    returns in its buffer exactly the [moved] bytes of the file that follow
    the position of the descriptor, in order, moves the descriptor behind
    them and changes no file.  When every failure is EINTR or EAGAIN and no
    read is cut down to nothing, the status is 0 and the bytes are all that
    was asked for, or all that the file had left. *)
Theorem read_retry_delivers inp buflen s p pos fl m d a t :
  at_pos inp p pos fl s → regular p m d a t s → readable fl = true →
  0 ≤ buflen < SIZE_MOD →
  ∃ err moved s',
    kk_posix_read_retry inp buflen s
      = Some (err, moved, take (Z.to_nat moved) (drop pos d), s') ∧
    0 ≤ moved ≤ buflen ∧ moved ≤ Z.of_nat (length (drop pos d)) ∧
    at_pos inp p (pos + Z.to_nat moved) fl s' ∧ files s' = files s ∧
    (benign (sched s) = true →
     err = 0 ∧ moved = Z.min buflen (Z.of_nat (length (drop pos d)))).
Proof.
  intros Hfd Hp Hr Hb.
  destruct (read_retry_spec inp buflen s Hb) as (err & moved & buf & s' & E & _).
  destruct (read_retry_run _ _ _ _ _ _ _ _ _ _ _ _ _ _ Hfd Hp Hr Hb E)
    as (H1 & H2 & H3 & H4 & H5 & H6 & H7 & H8).
  subst buf.
  exists err, moved, s'. split_and!; try done; try lia.
  intros B. destruct (H8 B) as (_ & -> & B3). split; [done|]. lia.
Qed.

Lemma read_retry_delivers_witness :
  ∃ err moved s',
    kk_posix_read_retry 3 4 interrupted
      = Some (err, moved, take (Z.to_nat moved) (drop 0 hello), s') ∧
    0 ≤ moved ≤ 4 ∧ moved ≤ Z.of_nat (length (drop 0 hello)) ∧
    at_pos 3 "in" (0 + Z.to_nat moved) O_RDONLY s' ∧ files s' = files interrupted ∧
    (benign (sched interrupted) = true →
     err = 0 ∧ moved = Z.min 4 (Z.of_nat (length (drop 0 hello)))).
Proof.
  apply (read_retry_delivers 3 4 interrupted "in" 0 O_RDONLY 420 hello 0 0);
    [reflexivity | reflexivity | reflexivity | unfold SIZE_MOD; lia].
Defined.

(** X2: on a regular file open for writing, positioned inside the file or
    at its end, whatever the kernel does, [kk_posix_write_retry] has stored
    exactly the first [moved] bytes of the buffer at the position of the
    descriptor, in order, has moved the descriptor behind them and has
    changed no other file.  When every failure is EINTR or EAGAIN and no
    write is cut down to nothing, a buffer that is not empty is stored
    whole, with status 0. *)
Theorem write_retry_delivers out buf s p pos fl m d a t :
  at_pos out p pos fl s → regular p m d a t s → writable fl = true →
  (pos ≤ length d)%nat → Z.of_nat (length buf) < SIZE_MOD →
  ∃ err moved s',
    kk_posix_write_retry out buf s = Some (err, moved, s') ∧
    0 ≤ moved ≤ Z.of_nat (length buf) ∧
    regular p m (write_at d pos (take (Z.to_nat moved) buf)) a t s' ∧
    (∀ q, q ≠ p → files s' !! q = files s !! q) ∧
    at_pos out p (pos + Z.to_nat moved) fl s' ∧
    (benign (sched s) = true → buf ≠ [] →
     err = 0 ∧ moved = Z.of_nat (length buf)).
Proof.
  intros Hfd Hp Hw Hpos Hlen.
  destruct (write_retry_spec out buf s Hlen) as (err & moved & s' & E & _).
  destruct (write_retry_run _ _ _ _ _ _ _ _ _ _ _ _ _ Hfd Hp Hw Hpos Hlen E)
    as (H1 & H2 & H3 & H4 & H5 & H6).
  exists err, moved, s'. split_and!; try done; try lia.
  - unfold regular. by rewrite H2, lookup_insert_eq.
  - intros q Hq. by rewrite H2, lookup_insert_ne.
  - intros B Hne. destruct (H6 B) as (_ & B2). by apply B2.
Qed.

Lemma write_retry_delivers_witness :
  ∃ err moved s',
    kk_posix_write_retry 4 hello (copying [Fail 4; AtMost 2; Fail 11])
      = Some (err, moved, s') ∧
    0 ≤ moved ≤ 5 ∧
    regular "dst" 420 (write_at [] 0 (take (Z.to_nat moved) hello)) 0 0 s' ∧
    (∀ q, q ≠ "dst" →
          files s' !! q = files (copying [Fail 4; AtMost 2; Fail 11]) !! q) ∧
    at_pos 4 "dst" (0 + Z.to_nat moved) O_WRONLY s' ∧
    (benign [Fail 4; AtMost 2; Fail 11] = true → hello ≠ [] →
     err = 0 ∧ moved = 5).
Proof.
  apply (write_retry_delivers 4 hello (copying [Fail 4; AtMost 2; Fail 11])
           "dst" 0 O_WRONLY 420 [] 0 0);
    [reflexivity | reflexivity | reflexivity | simpl; lia | reflexivity].
Defined.

(** ** Text files that exist *)

(** [kk_posix_open] of a regular file: the lowest free descriptor, at
    position 0. *)
(** Whether a regular file may be opened is a matter of its permission
    bits and of the access asked for. *)
Lemma opens_regular path flags m d a t s :
  regular path m d a t s →
  opens path flags s = permitted flags (Inode m (Bytes d) a t).
Proof.
  unfold regular, opens, sys_open. intros H. rewrite H.
  cbn [is_dir is_socket i_body andb].
  destruct (permitted flags _); cbn [negb]; [|done].
  destruct (lowest_free_spec (fdt s)) as [H0 _]. cbn [fst]. by apply Z.leb_le.
Qed.

Lemma opens_same_perm path flags m d a t s d' a' t' s' :
  regular path m d a t s → regular path m d' a' t' s' →
  opens path flags s' = opens path flags s.
Proof.
  intros H H'. by rewrite (opens_regular _ _ _ _ _ _ _ H), (opens_regular _ _ _ _ _ _ _ H').
Qed.

(** [kk_posix_open] of a regular file that may be opened: the lowest free
    descriptor, at position 0. *)
Lemma kk_posix_open_regular path flags m d a t s :
  regular path m d a t s → opens path flags s = true →
  kk_posix_open path flags s =
    Some (lowest_free (fdt s),
          log (SysOpen path flags (lowest_free (fdt s)))
            (set_fdt (<[lowest_free (fdt s) := Handle (OnFile path) 0 flags]> (fdt s)) s)).
Proof.
  intros H O. rewrite (opens_regular _ _ _ _ _ _ _ H) in O. unfold regular in H.
  unfold kk_posix_open, bind, call, get_errno, ret, sys_open. rewrite H.
  cbn [is_dir is_socket i_body andb]. rewrite O. cbn [negb].
  destruct (lowest_free_spec (fdt s)) as [H0 _].
  by replace (lowest_free (fdt s) <? 0) with false by (symmetry; apply Z.ltb_ge; lia).
Qed.

Lemma kk_posix_close_open f h s :
  fdt s !! f = Some h →
  kk_posix_close f s = Some (0, log (SysClose f 0) (set_fdt (delete f (fdt s)) s)).
Proof.
  intros H. unfold kk_posix_close, bind, call, get_errno, ret, sys_close.
  by rewrite H.
Qed.

Lemma kk_posix_fsize_regular f p pos fl m d a t s :
  at_pos f p pos fl s → regular p m d a t s →
  kk_posix_fsize f s = Some (0, Z.of_nat (length d) mod SIZE_MOD, log (SysFstat f 0) s).
Proof.
  unfold at_pos, regular. intros Hf Hp.
  unfold kk_posix_fsize, kk_posix_fstat, bind, call, get_errno, ret, sys_fstat.
  by rewrite Hf, Hp.
Qed.

(** Closing the descriptor that was opened gives the table back. *)
Lemma delete_opened (t t' : gmap Z handle) f h :
  t !! f = None → same_but f (<[f := h]> t) t' → delete f t' = t.
Proof.
  intros Hf H. apply map_eq. intros k. destruct (decide (k = f)) as [->|Hk].
  - by rewrite lookup_delete_eq.
  - by rewrite lookup_delete_ne, (H k Hk), lookup_insert_ne.
Qed.

(** Reading a regular file, step by step. *)
Lemma read_text_file_run path s m d a t :
  regular path m d a t s → opens path O_RDONLY s = true →
  Z.of_nat (length d) < SIZE_MOD →
  ∃ n s',
    kk_os_read_text_file path s = Some ((0, Some (take n d)), s') ∧
    files s' = files s ∧ fdt s' = fdt s ∧
    (benign (sched s) = true → take n d = d ∧ benign (sched s') = true).
Proof.
  intros Hp Ho Hlen. unfold kk_os_read_text_file. unfold bind at 1.
  rewrite (kk_posix_open_regular _ _ _ _ _ _ _ Hp Ho).
  destruct (lowest_free_spec (fdt s)) as [H0 Hfree].
  set (f := lowest_free (fdt s)) in *.
  replace (f <? 0) with false by (symmetry; apply Z.ltb_ge; lia). cbv iota.
  set (s0 := log _ _).
  assert (Hf0 : at_pos f path 0 O_RDONLY s0)
    by (unfold at_pos, s0; cbn; by rewrite lookup_insert_eq).
  assert (Hp0 : regular path m d a t s0) by done.
  unfold bind at 1. rewrite (kk_posix_fsize_regular _ _ _ _ _ _ _ _ _ Hf0 Hp0).
  cbv beta iota. change (negb (0 =? 0)) with false. cbv iota.
  rewrite Z.mod_small by lia.
  set (len := Z.of_nat (length d)) in *. set (s1 := log (SysFstat f 0) s0).
  destruct (read_retry_spec f len s1) as (err & moved & buf & s2 & E & P); [lia|].
  pose proof E as E'. unfold kk_posix_read_retry in E'.
  eapply (read_loop_data _ _ _ _ _ _ path 0 O_RDONLY m d a t) in E'
    as (H1 & H2 & H3 & H4 & H5 & H6 & H7 & H8); [|done|done|done|lia|lia].
  rewrite Z.sub_0_r, drop_0 in *. cbn [app Nat.add] in H3, H4. subst buf.
  unfold bind at 1. rewrite E. cbv beta iota.
  unfold bind at 1. rewrite (kk_posix_close_open _ _ _ H4).
  destruct P as (_ & Perr & _).
  replace (err <? 0) with false by (symmetry; apply Z.ltb_ge; lia). cbv iota.
  unfold ret, kk_string_convert_from_mutf8.
  exists (Z.to_nat moved). eexists. split.
  { destruct (moved <? len); [by rewrite take_idemp|done]. }
  cbn [files fdt sched log set_fdt]. split; [done|]. split.
  - apply (delete_opened _ _ _ (Handle (OnFile path) 0 O_RDONLY)); done.
  - intros B. destruct (H8 B) as (B1 & B2 & B3). split; [|done].
    apply take_ge. unfold len in *. lia.
Qed.



(** Where [open] refuses the file, here for its permission bits, the
    error number [kk_posix_open] returns is taken for a descriptor: [fstat]
    fails on it, and the status is EBADF, not EACCES. *)
Lemma read_text_file_refused :
  ∃ s',
    kk_os_read_text_file "in" (boot {[ "in" := Inode 128 (Bytes hello) 0 0 ]})
      = Some ((EBADF, None), s') ∧
    opens "in" O_RDONLY (boot {[ "in" := Inode 128 (Bytes hello) 0 0 ]}) = false.
Proof.
  eexists. split; [vm_compute; reflexivity|reflexivity].
Qed.

(** The same defect seen from outside: a read that fails with EIO is
    reported as a success with the empty content. *)
Lemma read_text_file_hides_io_error :
  ∃ s',
    kk_os_read_text_file "in" (set_sched [Fail 5] interrupted)
      = Some ((0, Some []), s').
Proof.
  eexists. vm_compute. reflexivity.
Qed.

Lemma write_at_start (d w : list byte) : write_at d 0 w = w ++ drop (length w) d.
Proof. unfold write_at. by rewrite take_0. Qed.

(** Writing a regular file, step by step. *)
Lemma write_text_file_run path content s m d a t :
  regular path m d a t s → opens path O_WRONLY s = true →
  Z.of_nat (length content) < SIZE_MOD →
  ∃ status n s',
    kk_os_write_text_file path content s = Some (status, s') ∧
    (n ≤ length content)%nat ∧
    regular path m (take n content ++ drop n d) a t s' ∧
    (∀ q, q ≠ path → files s' !! q = files s !! q) ∧
    fdt s' = fdt s ∧
    (status = 0 → n = length content) ∧
    (benign (sched s) = true → status = 0 ∧ benign (sched s') = true).
Proof.
  intros Hp Ho Hlen. unfold kk_os_write_text_file. unfold bind at 1.
  rewrite (kk_posix_open_regular _ _ _ _ _ _ _ Hp Ho).
  destruct (lowest_free_spec (fdt s)) as [H0 Hfree].
  set (f := lowest_free (fdt s)) in *.
  replace (f <? 0) with false by (symmetry; apply Z.ltb_ge; lia). cbv iota.
  set (s0 := log _ _).
  assert (Hf0 : at_pos f path 0 O_WRONLY s0)
    by (unfold at_pos, s0; cbn; by rewrite lookup_insert_eq).
  assert (Hp0 : regular path m d a t s0) by done.
  set (len := Z.of_nat (length content)) in *.
  assert (Hw : ∃ status n s1,
    (if len >? 0 then
       bind (kk_posix_write_retry f content)
         (fun '(err, nwritten) =>
            ret (if (err =? 0) && (nwritten <? len) then EIO else err))
     else ret 0) s0 = Some (status, s1) ∧
    (n ≤ length content)%nat ∧
    regular path m (take n content ++ drop n d) a t s1 ∧
    (∀ q, q ≠ path → files s1 !! q = files s !! q) ∧
    at_pos f path n O_WRONLY s1 ∧ same_but f (fdt s0) (fdt s1) ∧
    (status = 0 → n = length content) ∧
    (benign (sched s) = true → status = 0 ∧ benign (sched s1) = true)).
  { destruct (Z.gtb_spec len 0) as [Hpos|Hz].
    - destruct (write_retry_spec f content s0 Hlen) as (err & moved & s1 & E & P).
      pose proof E as E'. unfold kk_posix_write_retry in E'.
      eapply (write_loop_data _ _ _ _ _ path 0 O_WRONLY m d a t) in E'
        as (H1 & H2 & H3 & H4 & H5 & H6); [|done|done|done|lia|done|lia].
      rewrite Z.sub_0_r in *. change (Z.to_nat 0) with 0%nat in H2.
      rewrite drop_0, write_at_start, length_take in H2.
      replace (Nat.min (Z.to_nat moved) (length content)) with (Z.to_nat moved)
        in H2 by lia.
      unfold bind. rewrite E. unfold ret.
      destruct P as (P1 & P2 & P3 & P4 & P5 & P6).
      exists (if (err =? 0) && (moved <? len) then EIO else err), (Z.to_nat moved), s1.
      split_and!; try done; try lia.
      + unfold regular. by rewrite H2, lookup_insert_eq.
      + intros q Hq. by rewrite H2, lookup_insert_ne.
      + destruct (Z.eqb_spec err 0) as [->|Hne]; cbn [andb].
        * specialize (P5 eq_refl). fold len in P5. lia.
        * intros ->. done.
      + intros B. destruct (H6 B) as (B1 & B2). split; [|done].
        destruct B2 as [-> ->]; [lia|]. fold len. by rewrite Z.ltb_irrefl.
    - exists 0, 0%nat, s0. unfold ret. rewrite take_0, drop_0.
      split_and!; try done; lia. }
  destruct Hw as (status & n & s1 & Ew & Hn & Hp1 & Hq1 & Hf1 & Hs1 & Hst & Hb).
  unfold bind at 1. rewrite Ew.
  unfold bind at 1. rewrite (kk_posix_close_open _ _ _ Hf1). unfold ret.
  exists status, n. eexists. split; [reflexivity|].
  cbn [files fdt sched log set_fdt]. split_and!; try done.
  apply (delete_opened _ _ _ (Handle (OnFile path) 0 O_WRONLY)); done.
Qed.



(** A file that may not be written is left as it is, and the status is
    EBADF: the error number of the refused [open] is written to as a
    descriptor. *)
Lemma write_text_file_refused :
  ∃ s',
    kk_os_write_text_file "in" [x48; x69]
        (boot {[ "in" := Inode 256 (Bytes hello) 0 0 ]}) = Some (EBADF, s') ∧
    files s' = {[ "in" := Inode 256 (Bytes hello) 0 0 ]} ∧
    opens "in" O_WRONLY (boot {[ "in" := Inode 256 (Bytes hello) 0 0 ]}) = false.
Proof.
  eexists. split; [vm_compute; reflexivity|]. split; reflexivity.
Qed.

(** X5: the round trip on a file that exists and that [open] opens for
    writing and for reading, when every failure is
    EINTR or EAGAIN and no transfer is cut down to nothing: the write
    returns 0, and reading the file back gives the content written
    followed by the bytes the old file had beyond its length; it gives
    the content itself exactly when the old file was not longer. *)
Theorem write_then_read_existing path content s m d a t :
  regular path m d a t s →
  opens path O_WRONLY s = true → opens path O_RDONLY s = true →
  Z.of_nat (length content) < SIZE_MOD → Z.of_nat (length d) < SIZE_MOD →
  benign (sched s) = true →
  ∃ s1 s2,
    kk_os_write_text_file path content s = Some (0, s1) ∧
    kk_os_read_text_file path s1
      = Some ((0, Some (content ++ drop (length content) d)), s2) ∧
    (content ++ drop (length content) d = content ↔
     (length d ≤ length content)%nat).
Proof.
  intros Hp Hw Hr Hlen Hd B.
  destruct (write_text_file_run path content s m d a t Hp Hw Hlen)
    as (status & n & s1 & E1 & Hn & Hp1 & _ & _ & Hst & Hb).
  destruct (Hb B) as [-> B1]. rewrite (Hst eq_refl) in Hp1.
  rewrite take_ge in Hp1 by done.
  destruct (read_text_file_run path s1 m _ a t Hp1) as (k & s2 & E2 & _ & _ & Hk).
  { by rewrite (opens_same_perm _ _ _ _ _ _ _ _ _ _ _ Hp Hp1). }
  { rewrite length_app, length_drop. lia. }
  destruct (Hk B1) as [Hk' _]. rewrite Hk' in E2.
  exists s1, s2. split; [done|]. split; [done|].
  split.
  - intros H. apply (f_equal length) in H. rewrite length_app, length_drop in H. lia.
  - intros H. by rewrite drop_ge, app_nil_r.
Qed.

Lemma write_then_read_existing_witness :
  ∃ s1 s2,
    kk_os_write_text_file "in" [x48; x69] interrupted = Some (0, s1) ∧
    kk_os_read_text_file "in" s1
      = Some ((0, Some ([x48; x69] ++ drop 2 hello)), s2) ∧
    ([x48; x69] ++ drop 2 hello = [x48; x69] ↔ (length hello ≤ 2)%nat).
Proof.
  apply (write_then_read_existing "in" [x48; x69] interrupted 420 hello 0 0);
    reflexivity.
Defined.

(** ** Copying a file that exists *)

(** [copy_file_range] between two regular files. *)
Lemma sys_copy_file_range_files inp out off_in off_out count s
    pi posi fi mi di ai ti po poso fo mo dout ao to :
  at_pos inp pi posi fi s → regular pi mi di ai ti s → readable fi = true →
  at_pos out po poso fo s → regular po mo dout ao to s → writable fo = true →
  pi ≠ po →
  sys_copy_file_range inp off_in out off_out count s =
    match grant (Z.to_nat count) (sched s) with
    | (inl e, l) =>
        (-1, off_in, off_out,
         log (SysCopyRange inp out count (-1)) (set_errno (Z.pos e) (set_sched l s)))
    | (inr k, l) =>
        let chunk := take k (drop (Z.to_nat off_in) di) in
        (Z.of_nat (length chunk), off_in + Z.of_nat (length chunk),
         off_out + Z.of_nat (length chunk),
         log (SysCopyRange inp out count (Z.of_nat (length chunk)))
           (set_files (<[po := Inode mo (Bytes (write_at dout (Z.to_nat off_out) chunk))
                                   ao to]> (files s))
              (set_sched l s)))
    end.
Proof.
  unfold at_pos, regular. intros Hi Hpi Hr Ho Hpo Hw Hne.
  unfold sys_copy_file_range. rewrite Hi, Ho, Hr, Hw. cbn [andb negb].
  rewrite Hpi, Hpo. apply String.eqb_neq in Hne. rewrite Hne.
  destruct (grant _ _) as [[e|k] l]; [done|].
  unfold store. cbn [files set_sched]. by rewrite Hpo.
Qed.

(** Whatever the kernel does, the loop around [copy_file_range] stores
    the bytes of the source from [off_in] on at [off_out] of the
    destination, in order, and moves no descriptor; under a benign
    schedule it goes on to the end. *)
Lemma range_loop_data fuel :
  ∀ inp out len off_in off_out s pi posi fi mi di ai ti po poso fo mo dout ao to
    err off' s',
  at_pos inp pi posi fi s → regular pi mi di ai ti s → readable fi = true →
  at_pos out po poso fo s → regular po mo dout ao to s → writable fo = true →
  pi ≠ po →
  0 ≤ off_in ≤ len → len ≤ Z.of_nat (length di) → len < SIZE_MOD →
  0 ≤ off_out → (Z.to_nat off_out ≤ length dout)%nat →
  range_loop fuel inp out len off_in off_out s = Some (err, off', s') →
  off_in ≤ off' ≤ len ∧
  files s' =
    <[po := Inode mo
              (Bytes (write_at dout (Z.to_nat off_out)
                        (take (Z.to_nat (off' - off_in)) (drop (Z.to_nat off_in) di))))
              ao to]> (files s) ∧
  fdt s' = fdt s ∧ tty s' = tty s ∧
  (benign (sched s) = true → benign (sched s') = true ∧ err = 0 ∧ off' = len).
Proof.
  induction fuel as [|fuel IH];
    intros inp out len off_in off_out s pi posi fi mi di ai ti po poso fo mo dout ao to
      err off' s' Hi Hpi Hr Ho Hpo Hw Hne Hofs Hdi Hlen Hoo Hdo H; [done|].
  cbn [range_loop] in H. rewrite (Z.mod_small off_in) in H by lia.
  assert (Hid : files s = <[po := Inode mo (Bytes (write_at dout (Z.to_nat off_out) []))
                                     ao to]> (files s)).
  { rewrite write_at_nil by done. symmetry. by apply insert_id. }
  destruct (Z.ltb_spec off_in len) as [Hlt|Hge].
  2: { injection H as <- <- <-. rewrite Z.sub_diag. cbn [Z.to_nat]. rewrite take_0.
       split_and!; try done; try lia. intros B. split_and!; try done. lia. }
  rewrite size_sub_small in H by lia.
  set (toread := if len - off_in >? SSIZE_MAX then SSIZE_MAX else len - off_in) in *.
  assert (Ht : 0 < toread ≤ len - off_in).
  { subst toread. unfold SSIZE_MAX. destruct (Z.gtb_spec (len - off_in) (2 ^ 63 - 1)); lia. }
  unfold bind at 1, call in H.
  rewrite (sys_copy_file_range_files _ _ _ _ _ _ _ _ _ _ _ _ _ _ _ _ _ _ _ _
             Hi Hpi Hr Ho Hpo Hw Hne) in H.
  set (L := drop (Z.to_nat off_in) di) in *.
  assert (HL : (Z.to_nat (len - off_in) ≤ length L)%nat)
    by (unfold L; rewrite length_drop; lia).
  destruct (grant (Z.to_nat toread) (sched s)) as [[e|k0] l] eqn:G.
  - change (-1 <? 0) with true in H. cbv iota in H. unfold bind, get_errno in H.
    cbn [errno log set_errno] in H.
    destruct (negb (Z.pos e =? EAGAIN) && negb (Z.pos e =? EINTR)) eqn:T.
    + injection H as <- <- <-. rewrite Z.sub_diag. cbn [Z.to_nat]. rewrite take_0.
      split_and!; try done; try lia.
      intros B. apply (grant_benign _ _ _ _ G) in B as [_ B].
      apply retry_test in T. lia.
    + eapply IH in H as (I1 & H2 & H3 & H4 & H5); [|done..].
      split_and!; try done; try lia.
      intros B. apply (grant_benign _ _ _ _ G) in B as [B _]. by apply H5.
  - cbv zeta in H. set (chunk := take k0 L) in *.
    apply grant_le in G as G'. destruct G' as [_ Gk].
    assert (Hd : (length chunk ≤ k0 ∧ length chunk ≤ length L)%nat)
      by (unfold chunk; rewrite length_take; lia).
    cbv beta iota in H.
    destruct (Z.ltb_spec (Z.of_nat (length chunk)) 0); [lia|].
    destruct (Z.eqb_spec (Z.of_nat (length chunk)) 0) as [E0|E0].
    + injection H as <- <- <-.
      replace (off_in + Z.of_nat (length chunk) - off_in) with 0 by lia.
      cbn [Z.to_nat]. rewrite take_0.
      assert (E2 : chunk = []) by (apply nil_length_inv; lia).
      split_and!; try done; try lia.
      * cbn. by rewrite E2.
      * intros B. apply (grant_benign _ _ _ _ G) in B as [B Bk]. exfalso.
        unfold chunk in E0. rewrite length_take in E0. lia.
    + set (s1 := log _ _) in H.
      assert (Hf1 : files s1 = <[po := Inode mo (Bytes (write_at dout (Z.to_nat off_out) chunk))
                                          ao to]> (files s)) by done.
      assert (Hi1 : at_pos inp pi posi fi s1) by done.
      assert (Ho1 : at_pos out po poso fo s1) by done.
      assert (Hpi1 : regular pi mi di ai ti s1)
        by (unfold regular; by rewrite Hf1, lookup_insert_ne).
      assert (Hpo1 : regular po mo (write_at dout (Z.to_nat off_out) chunk) ao to s1)
        by (unfold regular; by rewrite Hf1, lookup_insert_eq).
      assert (Hs1 : fdt s1 = fdt s) by done.
      assert (Hl1 : sched s1 = l) by done.
      assert (Ht1 : tty s1 = tty s) by done.
      clearbody s1.
      eapply IH in H as (I1 & H2 & H3 & H4 & H5);
        [|exact Hi1|exact Hpi1|done|exact Ho1|exact Hpo1|done|done|lia|done|done|lia
         |rewrite length_write_at by done; lia].
      set (k' := Z.to_nat (off' - (off_in + Z.of_nat (length chunk)))) in *.
      replace (Z.to_nat (off_in + Z.of_nat (length chunk)))
        with (Z.to_nat off_in + length chunk)%nat in H2 by lia.
      replace (Z.to_nat (off_out + Z.of_nat (length chunk)))
        with (Z.to_nat off_out + length chunk)%nat in H2 by lia.
      rewrite <- drop_drop in H2. fold L in H2.
      rewrite write_at_app in H2 by done.
      assert (Hcat : chunk ++ take k' (drop (length chunk) L)
                     = take (length chunk + k') L) by apply take_then_take.
      rewrite Hcat, Hf1, insert_insert_eq in H2.
      replace (Z.to_nat (off' - off_in)) with (length chunk + k')%nat by lia.
      split_and!; try done; try lia; try congruence.
      intros B. apply (grant_benign _ _ _ _ G) in B as [B Bk].
      rewrite Hl1 in H5. by apply H5.
Qed.

(** Under a schedule that refuses it, the loop around [copy_file_range]
    ends on EINVAL with nothing moved and nothing changed. *)
Lemma range_loop_falls_back fuel :
  ∀ inp out len s pi posi fi mi di ai ti po poso fo mo dout ao to,
  at_pos inp pi posi fi s → regular pi mi di ai ti s → readable fi = true →
  at_pos out po poso fo s → regular po mo dout ao to s → writable fo = true →
  pi ≠ po →
  0 < len < SIZE_MOD → falls_back (sched s) = true →
  (length (sched s) ≤ fuel)%nat →
  ∃ s', range_loop fuel inp out len 0 0 s = Some (EINVAL, 0, s') ∧
        files s' = files s ∧ fdt s' = fdt s ∧ tty s' = tty s ∧
        benign (sched s') = true.
Proof.
  induction fuel as [|fuel IH];
    intros inp out len s pi posi fi mi di ai ti po poso fo mo dout ao to
      Hi Hpi Hr Ho Hpo Hw Hne Hlen F Hfuel.
  { destruct (sched s); [done|]. cbn [length] in Hfuel. lia. }
  cbn [range_loop]. rewrite (Z.mod_small 0) by lia.
  replace (0 <? len) with true by (symmetry; apply Z.ltb_lt; lia).
  unfold bind at 1, call.
  rewrite (sys_copy_file_range_files _ _ _ _ _ _ _ _ _ _ _ _ _ _ _ _ _ _ _ _
             Hi Hpi Hr Ho Hpo Hw Hne).
  destruct (sched s) as [|[e|k] l] eqn:Hs; [done| |done].
  cbn [grant]. change (-1 <? 0) with true. cbv iota. unfold bind, get_errno.
  cbn [errno log set_errno]. cbn [falls_back] in F.
  destruct (Z.eqb_spec (Z.pos e) EINVAL) as [E|E].
  - rewrite E. change (negb (EINVAL =? EAGAIN) && negb (EINVAL =? EINTR)) with true.
    cbv iota. eexists. split; [reflexivity|]. done.
  - apply andb_true_iff in F as [F1 F2].
    replace (negb (Z.pos e =? EAGAIN) && negb (Z.pos e =? EINTR)) with false.
    2: { symmetry. apply not_true_is_false. rewrite retry_test.
         apply orb_true_iff in F1. rewrite !Z.eqb_eq in F1. lia. }
    edestruct (IH inp out len (log (SysCopyRange inp out
                 (if size_sub len 0 >? SSIZE_MAX then SSIZE_MAX else size_sub len 0) (-1))
                 (set_errno (Z.pos e) (set_sched l s))))
      as (s' & E' & H1 & H2 & H3 & H4); [exact Hi|exact Hpi|done|exact Ho|exact Hpo|done
        |done|done|done|cbn [length] in Hfuel; cbn; lia|].
    exists s'. split; [exact E'|]. done.
Qed.

(** Under a benign schedule the buffered loop moves [todo] bytes from the
    position of the one descriptor to the position of the other. *)
Lemma buffer_loop_data fuel :
  ∀ inp out buflen todo s pi posi fi mi di ai ti po poso fo mo dout ao to err s',
  at_pos inp pi posi fi s → regular pi mi di ai ti s → readable fi = true →
  at_pos out po poso fo s → regular po mo dout ao to s → writable fo = true →
  pi ≠ po → (poso ≤ length dout)%nat →
  0 < buflen < SIZE_MOD → 0 ≤ todo < SIZE_MOD →
  (Z.to_nat todo ≤ length (drop posi di))%nat →
  benign (sched s) = true →
  buffer_loop fuel inp out buflen todo s = Some (err, s') →
  err = 0 ∧
  files s' =
    <[po := Inode mo (Bytes (write_at dout poso (take (Z.to_nat todo) (drop posi di))))
                  ao to]> (files s) ∧
  at_pos inp pi (posi + Z.to_nat todo) fi s' ∧
  at_pos out po (poso + Z.to_nat todo) fo s' ∧
  (∀ k, k ≠ inp → k ≠ out → fdt s' !! k = fdt s !! k) ∧
  tty s' = tty s ∧ benign (sched s') = true.
Proof.
  induction fuel as [|fuel IH];
    intros inp out buflen todo s pi posi fi mi di ai ti po poso fo mo dout ao to err s'
      Hi Hpi Hr Ho Hpo Hw Hne Hposo Hbuf Htodo Hrem B H; [done|].
  assert (Hio : inp ≠ out).
  { intros ->. unfold at_pos in *. congruence. }
  cbn [buffer_loop] in H.
  destruct (Z.gtb_spec todo 0) as [Hpos|Hz].
  2: { injection H as <- <-. replace todo with 0 by lia. cbn [Z.to_nat].
       rewrite take_0, write_at_nil, !Nat.add_0_r by done.
       split_and!; try done. symmetry. by apply insert_id. }
  set (toread := if todo >? buflen then buflen else todo) in *.
  assert (Ht : 0 < toread ≤ todo ∧ toread ≤ buflen)
    by (subst toread; destruct (Z.gtb_spec todo buflen); lia).
  unfold bind at 1 in H.
  destruct (kk_posix_read_retry inp toread s) as [[[[e1 rc] buf] s1]|] eqn:E1; [|done].
  assert (Ht' : 0 ≤ toread < SIZE_MOD) by lia.
  destruct (read_retry_run _ _ _ _ _ _ _ _ _ _ _ _ _ _ Hi Hpi Hr Ht' E1)
    as (R1 & R2 & R3 & R4 & R5 & R6 & R7 & R8).
  destruct (R8 B) as (B1 & -> & R9).
  assert (Hrc : rc = toread) by lia. subst rc.
  cbv beta iota in H.
  replace (toread =? 0) with false in H by (symmetry; apply Z.eqb_neq; lia).
  cbn [negb orb Z.eqb] in H.
  set (L := drop posi di) in *.
  assert (Hbl : length buf = Z.to_nat toread) by (subst buf; rewrite length_take; lia).
  rewrite (take_ge buf) in H by lia.
  assert (Ho1 : at_pos out po poso fo s1)
    by (unfold at_pos in *; rewrite (R5 out) by done; done).
  assert (Hpo1 : regular po mo dout ao to s1) by (unfold regular in *; congruence).
  unfold bind at 1 in H.
  destruct (kk_posix_write_retry out buf s1) as [[[e2 wc] s2]|] eqn:E2; [|done].
  assert (Hbl' : Z.of_nat (length buf) < SIZE_MOD) by lia.
  destruct (write_retry_run _ _ _ _ _ _ _ _ _ _ _ _ _ Ho1 Hpo1 Hw Hposo Hbl' E2)
    as (W1 & W2 & W3 & W4 & W5 & W6).
  destruct (W6 B1) as (B2 & W7).
  destruct W7 as [-> ->]; [destruct buf; [cbn in Hbl; lia|done]|].
  cbv beta iota in H. cbn [negb Z.eqb] in H. cbv iota in H.
  rewrite size_sub_small in H by lia.
  rewrite Nat2Z.id in W2, W3. rewrite take_ge in W2 by lia. rewrite Hbl in W3.
  assert (Hi2 : at_pos inp pi (posi + Z.to_nat toread) fi s2)
    by (unfold at_pos in *; rewrite (W4 inp) by done; done).
  assert (Hpi2 : regular pi mi di ai ti s2).
  { unfold regular in *. rewrite W2, lookup_insert_ne by done. congruence. }
  assert (Hpo2 : regular po mo (write_at dout poso buf) ao to s2)
    by (unfold regular; by rewrite W2, lookup_insert_eq).
  eapply IH in H as (-> & H2 & H3 & H4 & H5 & H6 & H7);
    [|exact Hi2|exact Hpi2|done|exact W3|exact Hpo2|done|done
     |rewrite length_write_at by done; lia|done|lia
     |rewrite <- drop_drop; fold L; rewrite length_drop; lia|done].
  rewrite <- drop_drop in H2. fold L in H2.
  rewrite <- Hbl in H2 at 1. rewrite write_at_app in H2 by done.
  rewrite R3, take_take_drop in H2.
  replace (Z.to_nat toread + Z.to_nat (todo - toread))%nat with (Z.to_nat todo)
    in H2 by lia.
  rewrite W2, insert_insert_eq, R6 in H2.
  replace (Z.to_nat todo) with (Z.to_nat toread + Z.to_nat (todo - toread))%nat
    at 2 3 by lia.
  rewrite !Nat.add_assoc.
  split_and!; try done; try congruence.
  intros k K1 K2. rewrite (H5 k K1 K2), (W4 k K2), (R5 k K1). done.
Qed.

(** [kk_posix_copy_file] between two regular files opened at their start:
    whether [copy_file_range] does the work or refuses it, the destination
    ends up holding the source. *)
Lemma kk_posix_copy_file_run inp out s pi fi mi di ai ti po fo mo dout ao to :
  at_pos inp pi 0 fi s → regular pi mi di ai ti s → readable fi = true →
  at_pos out po 0 fo s → regular po mo dout ao to s → writable fo = true →
  pi ≠ po → Z.of_nat (length di) < SIZE_MOD →
  copy_schedule (sched s) = true →
  ∃ s',
    kk_posix_copy_file inp out (Z.of_nat (length di)) s = Some (0, s') ∧
    files s' = <[po := Inode mo (Bytes (di ++ drop (length di) dout)) ao to]> (files s) ∧
    (∃ n, at_pos inp pi n fi s') ∧ (∃ n, at_pos out po n fo s') ∧
    (∀ k, k ≠ inp → k ≠ out → fdt s' !! k = fdt s !! k) ∧
    tty s' = tty s ∧ (di ≠ [] → benign (sched s') = true).
Proof.
  intros Hi Hpi Hr Ho Hpo Hw Hne Hlen C.
  set (len := Z.of_nat (length di)) in *.
  unfold kk_posix_copy_file. unfold bind at 1. unfold copy_schedule in C.
  destruct (benign (sched s)) eqn:B.
  - (* the range copy does the work *)
    destruct (range_loop_spec (retry_fuel len s) inp out len 0 0 s)
      as (err & off & s1 & E & _); [lia | lia | unfold retry_fuel; lia |].
    rewrite E.
    eapply range_loop_data in E as (I1 & H2 & H3 & H4 & H5);
      [|exact Hi|exact Hpi|done|exact Ho|exact Hpo|done|done|lia|lia|done|lia
       |cbn; lia].
    destruct (H5 B) as (B' & -> & ->).
    change (negb (0 =? EINVAL) || (len >? 0)) with (true || (len >? 0)).
    cbn [orb]. unfold ret. exists s1. split; [done|].
    rewrite Z.sub_0_r in H2. change (Z.to_nat 0) with 0%nat in H2.
    rewrite drop_0, write_at_start in H2. unfold len in H2.
    rewrite Nat2Z.id, take_ge in H2 by lia.
    unfold at_pos in *. rewrite H3. split_and!; eauto.
  - cbn [orb] in C.
    destruct (Z.eq_dec len 0) as [Hz|Hnz].
    + (* nothing to copy *)
      assert (Edi : di = []) by (apply nil_length_inv; lia).
      rewrite Hz. unfold retry_fuel. cbn [range_loop].
      change (0 mod SIZE_MOD <? 0) with false. cbv iota. unfold ret. cbv beta iota.
      change (negb (0 =? EINVAL) || (0 >? 0)) with true. cbv iota.
      exists s. split; [done|]. rewrite Edi. cbn [app length]. rewrite drop_0.
      split_and!; eauto. symmetry. by apply insert_id.
    + (* the range copy refuses, the buffered loop does the work *)
      destruct (range_loop_falls_back (retry_fuel len s) inp out len s
                  pi 0%nat fi mi di ai ti po 0%nat fo mo dout ao to)
        as (s1 & E & F1 & F2 & F3 & B1); [done..|lia|done|unfold retry_fuel; lia|].
      rewrite E. cbv beta iota.
      change (negb (EINVAL =? EINVAL) || (0 >? 0)) with false. cbv iota.
      destruct (generic_copy_total inp out len s1) as (err & s2 & G); [lia|].
      rewrite G. unfold generic_copy in G.
      set (buflen := if 1024 * 1024 >? len then len else 1024 * 1024) in G.
      assert (Hb : 0 < buflen < SIZE_MOD).
      { subst buflen. destruct (Z.gtb_spec (1024 * 1024) len); [lia|].
        unfold SIZE_MOD. lia. }
      eapply (buffer_loop_data _ _ _ _ _ _ pi 0%nat fi mi di ai ti po 0%nat fo mo dout ao to)
        in G as (-> & H2 & H3 & H4 & H5 & H6 & H7);
        [| by (unfold at_pos in *; rewrite F2)
         | by (unfold regular in *; rewrite F1)
         | done
         | by (unfold at_pos in *; rewrite F2)
         | by (unfold regular in *; rewrite F1)
         | done | done | lia | done | lia
         | rewrite drop_0; lia | done].
      exists s2. split; [done|].
      rewrite drop_0, write_at_start in H2. unfold len in H2.
      rewrite Nat2Z.id, take_ge in H2 by lia.
      rewrite F1 in H2. split_and!; eauto; try congruence.
      intros k K1 K2. rewrite (H5 k K1 K2). by rewrite F2.
Qed.

(** X6: between two different regular files, opened at their start for
    reading and for writing, [kk_posix_copy_file] of the length of the
    source returns 0 and leaves the destination holding the bytes of the
    source (followed by what the destination had beyond that length), the
    source and every other file as they were.  This holds when
    [copy_file_range] does the work, interrupted and cut short as it may
    be, and equally when it is refused with EINVAL and the buffered loop
    of reads and writes takes over. *)
Theorem posix_copy_file_delivers inp out s pi fi mi di ai ti po fo mo dout ao to :
  at_pos inp pi 0 fi s → regular pi mi di ai ti s → readable fi = true →
  at_pos out po 0 fo s → regular po mo dout ao to s → writable fo = true →
  pi ≠ po → Z.of_nat (length di) < SIZE_MOD →
  copy_schedule (sched s) = true →
  ∃ s',
    kk_posix_copy_file inp out (Z.of_nat (length di)) s = Some (0, s') ∧
    regular po mo (di ++ drop (length di) dout) ao to s' ∧
    (∀ q, q ≠ po → files s' !! q = files s !! q).
Proof.
  intros Hi Hpi Hr Ho Hpo Hw Hne Hlen C.
  destruct (kk_posix_copy_file_run _ _ _ _ _ _ _ _ _ _ _ _ _ _ _
              Hi Hpi Hr Ho Hpo Hw Hne Hlen C) as (s' & E & H1 & _).
  exists s'. split; [done|]. split.
  - unfold regular. by rewrite H1, lookup_insert_eq.
  - intros q Hq. by rewrite H1, lookup_insert_ne.
Qed.

Lemma posix_copy_file_delivers_witness :
  ∃ s',
    kk_posix_copy_file 3 4 (Z.of_nat (length hello))
      (copying [Fail 4; Fail 22; AtMost 2; Fail 11]) = Some (0, s') ∧
    regular "dst" 420 (hello ++ drop (length hello) []) 0 0 s' ∧
    (∀ q, q ≠ "dst" →
          files s' !! q = files (copying [Fail 4; Fail 22; AtMost 2; Fail 11]) !! q).
Proof.
  apply (posix_copy_file_delivers 3 4 (copying [Fail 4; Fail 22; AtMost 2; Fail 11])
           "src" O_RDONLY 420 hello 0 0 "dst" O_WRONLY 420 [] 0 0);
    [reflexivity | reflexivity | reflexivity | reflexivity | reflexivity
     | reflexivity | discriminate | reflexivity | reflexivity].
Defined.

(** ** C7: what a failure of [copy_file_range] comes to *)

Lemma range_calls_snoc inp out calls c n :
  range_calls inp out calls = true →
  range_calls inp out (calls ++ [SysCopyRange inp out c n]) = true.
Proof.
  unfold range_calls. intros H. rewrite forallb_app, H. cbn.
  by rewrite !Z.eqb_refl.
Qed.

(** The loop around [copy_file_range] under a schedule that, after
    interruptions and short transfers that do not reach the end, makes the
    call fail with an error that is not retried on: the loop is left with
    that error, on that call. *)
Lemma range_loop_stopped pre :
  ∀ fuel inp out len off_in off_out s pi posi fi mi di ai ti po poso fo mo dout ao to
    e rest,
  at_pos inp pi posi fi s → regular pi mi di ai ti s → readable fi = true →
  at_pos out po poso fo s → regular po mo dout ao to s → writable fo = true →
  pi ≠ po →
  0 ≤ off_in → off_in + Z.of_nat (granted pre) < len →
  len ≤ Z.of_nat (length di) → len < SIZE_MOD →
  sched s = pre ++ Fail e :: rest → benign pre = true → final e = true →
  (length pre < fuel)%nat →
  ∃ off' s1 c calls,
    range_loop fuel inp out len off_in off_out s = Some (Z.pos e, off', s1) ∧
    sched s1 = rest ∧ errno s1 = Z.pos e ∧
    trace s1 = SysCopyRange inp out c (-1) :: calls ++ trace s ∧
    range_calls inp out calls = true ∧
    off_in ≤ off' ∧ (off_in < off' ↔ transfers pre = true).
Proof.
  induction pre as [|ev pre IH];
    intros fuel inp out len off_in off_out s pi posi fi mi di ai ti po poso fo mo dout
      ao to e rest Hi Hpi Hr Ho Hpo Hw Hne Hofs Hgr Hdi Hlen Hs B Fin Hfuel;
    (destruct fuel as [|fuel]; [cbn [length] in Hfuel; lia|]);
    cbn [range_loop]; rewrite (Z.mod_small off_in) by lia;
    (replace (off_in <? len) with true by (symmetry; apply Z.ltb_lt; lia));
    cbn [granted] in Hgr;
    unfold bind at 1, call;
    rewrite (sys_copy_file_range_files _ _ _ _ _ _ _ _ _ _ _ _ _ _ _ _ _ _ _ _
               Hi Hpi Hr Ho Hpo Hw Hne), Hs; cbn [app grant].
  - change (-1 <? 0) with true. cbv iota. unfold bind, get_errno.
    cbn [errno log set_errno].
    unfold final in Fin. rewrite andb_comm in Fin. rewrite Fin. unfold ret.
    eexists off_in, _, _, []. split; [reflexivity|].
    cbn [sched errno trace log set_errno set_sched app]. split_and!; try done; try lia.
    split; [lia|done].
  - apply benign_cons in B as [Bev B]. destruct ev as [e'|k].
    + (* an interruption: the call is made again *)
      change (-1 <? 0) with true. cbv iota. unfold bind at 1, get_errno.
      cbn [errno log set_errno].
      replace (negb (Z.pos e' =? EAGAIN) && negb (Z.pos e' =? EINTR)) with false.
      2: { symmetry. apply not_true_is_false. rewrite retry_test. lia. }
      set (s0 := log _ _).
      destruct (IH fuel inp out len off_in off_out s0 pi posi fi mi di ai ti
                  po poso fo mo dout ao to e rest)
        as (off' & s1 & c & calls & E & H1 & H2 & H3 & H4 & H5 & H6);
        [done..|cbn [length] in Hfuel; lia|].
      exists off', s1, c, (calls ++ [SysCopyRange inp out
        (if size_sub len off_in >? SSIZE_MAX then SSIZE_MAX else size_sub len off_in)
        (-1)]).
      split; [exact E|]. split_and!; try done.
      * rewrite H3. unfold s0. cbn [trace log set_errno set_sched].
        by rewrite <- app_assoc.
      * by apply range_calls_snoc.
    + (* a transfer of some bytes, not up to the end *)
      rewrite size_sub_small by lia.
      set (toread := if len - off_in >? SSIZE_MAX then SSIZE_MAX else len - off_in).
      assert (Ht : 0 < toread ≤ len - off_in).
      { subst toread. unfold SSIZE_MAX.
        destruct (Z.gtb_spec (len - off_in) (2 ^ 63 - 1)); lia. }
      cbv zeta. set (chunk := take (Nat.min k (Z.to_nat toread)) _).
      assert (Hc : (0 < length chunk ≤ k)%nat).
      { unfold chunk. rewrite length_take, length_drop. lia. }
      replace (Z.of_nat (length chunk) <? 0) with false
        by (symmetry; apply Z.ltb_ge; lia).
      replace (Z.of_nat (length chunk) =? 0) with false
        by (symmetry; apply Z.eqb_neq; lia).
      cbv iota. set (s0 := log _ _).
      destruct (IH fuel inp out len (off_in + Z.of_nat (length chunk))
                  (off_out + Z.of_nat (length chunk)) s0 pi posi fi mi di ai ti
                  po poso fo mo (write_at dout (Z.to_nat off_out) chunk) ao to e rest)
        as (off' & s1 & c & calls & E & H1 & H2 & H3 & H4 & H5 & H6);
        [done
        |unfold regular, s0; cbn [files log set_files]; by rewrite lookup_insert_ne
        |done|done
        |unfold regular, s0; cbn [files log set_files]; by rewrite lookup_insert_eq
        |done|done|lia|lia|done|done|done|done|done|cbn [length] in Hfuel; lia|].
      exists off', s1, c, (calls ++ [SysCopyRange inp out toread
                                       (Z.of_nat (length chunk))]).
      split; [exact E|]. split_and!; try done; try lia.
      * rewrite H3. unfold s0. cbn [trace log set_files set_sched].
        by rewrite <- app_assoc.
      * by apply range_calls_snoc.
      * split; [done|lia].
Qed.

(** C7: what becomes of a failure of [copy_file_range], between two
    different regular files opened at their start.  Let the kernel, after
    interruptions and short transfers that do not reach the end of the
    source, make the call fail with an error [e] that is not EINTR or
    EAGAIN.  Up to that call the code has made calls of [copy_file_range]
    and no others, and the destination holds the bytes transferred.  If
    [e] is EINVAL and no byte had been transferred, [kk_posix_copy_file]
    does not fail: it goes on with the buffered loop, which, if nothing
    but interruptions and short transfers follow, copies the whole source
    and returns 0.  If [e] is another error, or if some bytes had been
    transferred (be [e] EINVAL or not), [kk_posix_copy_file] returns [e]
    there and then: the failed call is the last call made. *)
Theorem range_copy_failure_decides inp out s pi fi mi di ai ti po fo mo dout ao to
    pre e rest :
  at_pos inp pi 0 fi s → regular pi mi di ai ti s → readable fi = true →
  at_pos out po 0 fo s → regular po mo dout ao to s → writable fo = true →
  pi ≠ po → Z.of_nat (length di) < SIZE_MOD →
  sched s = pre ++ Fail e :: rest → benign pre = true → final e = true →
  (granted pre < length di)%nat →
  ∃ moved s1 c calls,
    trace s1 = SysCopyRange inp out c (-1) :: calls ++ trace s ∧
    range_calls inp out calls = true ∧
    errno s1 = Z.pos e ∧ sched s1 = rest ∧
    moved = range_moved (trace s1) - range_moved (trace s) ∧
    (0 < moved ↔ transfers pre = true) ∧
    regular po mo (take (Z.to_nat moved) di ++ drop (Z.to_nat moved) dout) ao to s1 ∧
    (∀ q, q ≠ po → files s1 !! q = files s !! q) ∧
    (Z.pos e = EINVAL → transfers pre = false →
       kk_posix_copy_file inp out (Z.of_nat (length di)) s
         = generic_copy inp out (Z.of_nat (length di)) s1 ∧
       is_Some (generic_copy inp out (Z.of_nat (length di)) s1) ∧
       (benign rest = true →
          ∃ s', generic_copy inp out (Z.of_nat (length di)) s1 = Some (0, s') ∧
                regular po mo (di ++ drop (length di) dout) ao to s')) ∧
    (Z.pos e ≠ EINVAL ∨ transfers pre = true →
       kk_posix_copy_file inp out (Z.of_nat (length di)) s = Some (Z.pos e, s1)).
Proof.
  intros Hi Hpi Hr Ho Hpo Hw Hne Hlen Hs B Fin Hgr.
  set (len := Z.of_nat (length di)) in *.
  destruct (range_loop_stopped pre (retry_fuel len s) inp out len 0 0 s
              pi 0%nat fi mi di ai ti po 0%nat fo mo dout ao to e rest)
    as (moved & s1 & c & calls & E & H1 & H2 & H3 & H4 & H5 & H6);
    [done..|lia|lia|lia|done|done|done|done
    |unfold retry_fuel; rewrite Hs, length_app; lia|].
  destruct (range_loop_spec (retry_fuel len s) inp out len 0 0 s)
    as (err' & off' & s1' & E' & _ & P2 & _); [lia|lia|unfold retry_fuel; lia|].
  rewrite E in E'. injection E' as <- <- <-.
  pose proof E as D.
  eapply range_loop_data in D as (I1 & F2 & F3 & F4 & _);
    [|exact Hi|exact Hpi|done|exact Ho|exact Hpo|done|done|lia|lia|done|lia|cbn; lia].
  rewrite Z.sub_0_r in F2, P2. change (Z.to_nat 0) with 0%nat in F2.
  rewrite drop_0, write_at_start, length_take in F2.
  replace (Nat.min (Z.to_nat moved) (length di)) with (Z.to_nat moved) in F2 by lia.
  exists moved, s1, c, calls. split_and!; try done.
  - unfold regular. by rewrite F2, lookup_insert_eq.
  - intros q Hq. by rewrite F2, lookup_insert_ne.
  - intros He Hno. assert (Hz : moved = 0).
    { destruct (Z.eq_dec moved 0) as [|Hnz]; [done|].
      assert (Hpos : 0 < moved) by lia. apply H6 in Hpos. congruence. }
    rewrite Hz in E, F2. clear P2.
    assert (Ecp : kk_posix_copy_file inp out len s = generic_copy inp out len s1).
    { unfold kk_posix_copy_file, bind. rewrite E, He. reflexivity. }
    split; [exact Ecp|].
    destruct (generic_copy_total inp out len s1) as (err & s2 & G); [lia|].
    split; [by rewrite G|].
    intros Brest. exists s2.
    cbn [Z.to_nat] in F2. rewrite take_0, drop_0 in F2. cbn [app] in F2.
    assert (F1 : files s1 = files s) by (rewrite F2; by apply insert_id).
    pose proof G as G'. unfold generic_copy in G'.
    set (buflen := if 1024 * 1024 >? len then len else 1024 * 1024) in G'.
    assert (Hb : 0 < buflen < SIZE_MOD).
    { subst buflen. destruct (Z.gtb_spec (1024 * 1024) len); [lia|].
      unfold SIZE_MOD. lia. }
    eapply (buffer_loop_data _ _ _ _ _ _ pi 0%nat fi mi di ai ti po 0%nat fo mo dout ao to)
      in G' as (-> & G2 & _);
      [| by (unfold at_pos in *; rewrite F3)
       | by (unfold regular in *; rewrite F1)
       | done
       | by (unfold at_pos in *; rewrite F3)
       | by (unfold regular in *; rewrite F1)
       | done | done | lia | done | lia
       | rewrite drop_0; lia | by rewrite H1].
    split; [done|].
    rewrite drop_0, write_at_start in G2. unfold len in G2.
    rewrite Nat2Z.id, take_ge in G2 by lia.
    unfold regular. by rewrite G2, lookup_insert_eq.
  - intros Hother. unfold kk_posix_copy_file, bind. rewrite E.
    replace (negb (Z.pos e =? EINVAL) || (moved >? 0)) with true; [done|].
    symmetry. apply orb_true_iff. destruct Hother as [Hn|Htr].
    + left. by apply negb_true_iff, Z.eqb_neq.
    + right. apply Z.gtb_lt. by apply H6.
Qed.

Lemma range_copy_failure_decides_witness :
  ∃ moved s1 c calls,
    trace s1 = SysCopyRange 3 4 c (-1) :: calls ++ trace (copying [Fail 4; Fail 22; AtMost 2]) ∧
    range_calls 3 4 calls = true ∧
    errno s1 = Z.pos 22 ∧ sched s1 = [AtMost 2] ∧
    moved = range_moved (trace s1)
            - range_moved (trace (copying [Fail 4; Fail 22; AtMost 2])) ∧
    (0 < moved ↔ transfers [Fail 4] = true) ∧
    regular "dst" 420 (take (Z.to_nat moved) hello ++ drop (Z.to_nat moved) []) 0 0 s1 ∧
    (∀ q, q ≠ "dst" →
          files s1 !! q = files (copying [Fail 4; Fail 22; AtMost 2]) !! q) ∧
    (Z.pos 22 = EINVAL → transfers [Fail 4] = false →
       kk_posix_copy_file 3 4 (Z.of_nat (length hello))
           (copying [Fail 4; Fail 22; AtMost 2])
         = generic_copy 3 4 (Z.of_nat (length hello)) s1 ∧
       is_Some (generic_copy 3 4 (Z.of_nat (length hello)) s1) ∧
       (benign [AtMost 2] = true →
          ∃ s', generic_copy 3 4 (Z.of_nat (length hello)) s1 = Some (0, s') ∧
                regular "dst" 420 (hello ++ drop (length hello) []) 0 0 s')) ∧
    (Z.pos 22 ≠ EINVAL ∨ transfers [Fail 4] = true →
       kk_posix_copy_file 3 4 (Z.of_nat (length hello))
           (copying [Fail 4; Fail 22; AtMost 2]) = Some (Z.pos 22, s1)).
Proof.
  apply (range_copy_failure_decides 3 4 (copying [Fail 4; Fail 22; AtMost 2])
           "src" O_RDONLY 420 hello 0 0 "dst" O_WRONLY 420 [] 0 0
           [Fail 4] 22%positive [AtMost 2]);
    [reflexivity | reflexivity | reflexivity | reflexivity | reflexivity
    | reflexivity | discriminate | reflexivity | reflexivity | reflexivity
    | reflexivity | cbn; lia].
Defined.

(** The record of the calls only grows. *)
Lemma read_loop_trace fuel : ∀ inp buflen ofs buf s r s',
  read_loop fuel inp buflen ofs buf s = Some (r, s') →
  trace s `suffix_of` trace s'.
Proof.
  induction fuel as [|fuel IH]; intros inp buflen ofs buf s r s' H; [done|].
  cbn [read_loop] in H. unfold bind at 1, call in H.
  destruct (sys_read inp _ s) as [[n data] s1] eqn:R.
  apply sys_read_spec in R as (Ht & _).
  assert (H1 : trace s `suffix_of` trace s1) by (rewrite Ht; by apply suffix_cons_r).
  destruct (n <? 0).
  - unfold bind, get_errno in H.
    destruct (negb (errno s1 =? EAGAIN) && negb (errno s1 =? EINTR));
      [by injection H as <- <-|].
    destruct (ofs <? _); [|by injection H as <- <-].
    etrans; [exact H1|]. by eapply IH.
  - destruct (n =? 0); [by injection H as <- <-|].
    destruct (size_add ofs n <? _); [|by injection H as <- <-].
    etrans; [exact H1|]. by eapply IH.
Qed.

Lemma write_loop_trace fuel : ∀ out buf ofs s r s',
  write_loop fuel out buf ofs s = Some (r, s') →
  trace s `suffix_of` trace s'.
Proof.
  induction fuel as [|fuel IH]; intros out buf ofs s r s' H; [done|].
  cbn [write_loop] in H. unfold bind at 1, call in H.
  destruct (sys_write out _ s) as [n s1] eqn:W.
  apply sys_write_spec in W as (Ht & _).
  assert (H1 : trace s `suffix_of` trace s1) by (rewrite Ht; by apply suffix_cons_r).
  destruct (n <? 0).
  - unfold bind, get_errno in H.
    destruct (negb (errno s1 =? EAGAIN) && negb (errno s1 =? EINTR));
      [by injection H as <- <-|].
    destruct (ofs <? _); [|by injection H as <- <-].
    etrans; [exact H1|]. by eapply IH.
  - destruct (n =? 0); [by injection H as <- <-|].
    destruct (size_add ofs n <? _); [|by injection H as <- <-].
    etrans; [exact H1|]. by eapply IH.
Qed.

Lemma range_loop_trace fuel : ∀ inp out len off_in off_out s r s',
  range_loop fuel inp out len off_in off_out s = Some (r, s') →
  trace s `suffix_of` trace s'.
Proof.
  induction fuel as [|fuel IH]; intros inp out len off_in off_out s r s' H; [done|].
  cbn [range_loop] in H.
  destruct (off_in mod SIZE_MOD <? len); [|by injection H as <- <-].
  unfold bind at 1, call in H.
  destruct (sys_copy_file_range inp off_in out off_out _ s)
    as [[[n off_in'] off_out'] s1] eqn:C.
  apply sys_copy_file_range_spec in C as (Ht & _).
  assert (H1 : trace s `suffix_of` trace s1) by (rewrite Ht; by apply suffix_cons_r).
  destruct (n <? 0).
  - unfold bind, get_errno in H.
    destruct (negb (errno s1 =? EAGAIN) && negb (errno s1 =? EINTR));
      [by injection H as <- <-|].
    etrans; [exact H1|]. by eapply IH.
  - destruct (n =? 0); [by injection H as <- <-|].
    etrans; [exact H1|]. by eapply IH.
Qed.

Lemma buffer_loop_trace fuel : ∀ inp out buflen todo s r s',
  buffer_loop fuel inp out buflen todo s = Some (r, s') →
  trace s `suffix_of` trace s'.
Proof.
  induction fuel as [|fuel IH]; intros inp out buflen todo s r s' H; [done|].
  cbn [buffer_loop] in H.
  destruct (todo >? 0); [|by injection H as <- <-].
  unfold bind at 1 in H.
  destruct (kk_posix_read_retry inp _ s) as [[[[e1 rc] buf] s1]|] eqn:E1; [|done].
  apply read_loop_trace in E1.
  destruct (negb (e1 =? 0) || (rc =? 0)); [by injection H as <- <-|].
  unfold bind at 1 in H.
  destruct (kk_posix_write_retry out _ s1) as [[[e2 wc] s2]|] eqn:E2; [|done].
  apply write_loop_trace in E2.
  destruct (negb (e2 =? 0)); [injection H as <- <-; by etrans|].
  etrans; [exact E1|]. etrans; [exact E2|]. by eapply IH.
Qed.

Lemma kk_posix_copy_file_trace inp out len s r s' :
  kk_posix_copy_file inp out len s = Some (r, s') →
  trace s `suffix_of` trace s'.
Proof.
  unfold kk_posix_copy_file. unfold bind at 1.
  destruct (range_loop _ inp out len 0 0 s) as [[[err off] s1]|] eqn:E; [|done].
  apply range_loop_trace in E.
  destruct (negb (err =? EINVAL) || (off >? 0)); [by intros [= <- <-]|].
  intros G. apply buffer_loop_trace in G. by etrans.
Qed.

Lemma suffix_elem_of {A} (x : A) (l1 l2 : list A) :
  l1 `suffix_of` l2 → x ∈ l1 → x ∈ l2.
Proof. intros [k ->] H. apply elem_of_app. by right. Qed.

(** Entering a name in its directory touches no regular file. *)
Lemma link_regular q (fs : gmap string inode) p m d a t :
  fs !! p = Some (Inode m (Bytes d) a t) →
  link q fs !! p = Some (Inode m (Bytes d) a t).
Proof.
  intros H. unfold link. destruct (parent q) as [dir|]; [|done].
  destruct (fs !! dir) as [[m' [d'|ns|] a' t']|] eqn:D; try done.
  rewrite lookup_insert_ne; [done|]. intros ->. congruence.
Qed.

(** Whether [creat] succeeds is a matter of the files, not of the mode
    given nor of the descriptors in use. *)
Lemma creates_spec to mode s :
  creates to s = (0 <=? (sys_creat to mode s).1).
Proof.
  unfold creates, sys_creat. destruct (lowest_free_spec (fdt s)) as [H0 _].
  assert (L : (0 <=? lowest_free (fdt s)) = true) by by apply Z.leb_le.
  destruct (String.eqb to ""); [done|].
  destruct (files s !! to) as [i|].
  - destruct (is_dir i); [done|]. destruct (negb (may_write i)); [done|].
    by destruct i as [m' [d'|ns|] a' t'].
  - by destruct (parent_errno to (files s)).
Qed.

Lemma creates_files to s s' :
  files s' = files s → creates to s' = creates to s.
Proof.
  intros F. unfold creates, sys_creat. rewrite F.
  destruct (lowest_free_spec (fdt s)) as [H0 _].
  destruct (lowest_free_spec (fdt s')) as [H0' _].
  assert (L : (0 <=? lowest_free (fdt s)) = true) by by apply Z.leb_le.
  assert (L' : (0 <=? lowest_free (fdt s')) = true) by by apply Z.leb_le.
  destruct (String.eqb to ""); [done|].
  destruct (files s !! to) as [i|].
  - destruct (is_dir i); [done|]. destruct (negb (may_write i)); [done|].
    destruct i as [m' [d'|ns|] a' t']; cbn [fst]; by rewrite ?L, ?L'.
  - destruct (parent_errno to (files s)); cbn [fst]; by rewrite ?L, ?L'.
Qed.

(** [creat] where it succeeds: the lowest free descriptor, on an empty
    regular file; the other regular files are as they were. *)
Lemma sys_creat_creates to mode s :
  creates to s = true →
  ∃ fs mo ao to_,
    sys_creat to mode s =
      (lowest_free (fdt s),
       log (SysCreat to mode (lowest_free (fdt s)))
         (set_fdt (<[lowest_free (fdt s) := Handle (OnFile to) 0 O_WRONLY]> (fdt s))
            (set_files fs s))) ∧
    fs !! to = Some (Inode mo (Bytes []) ao to_) ∧
    mo = match files s !! to with
         | Some i => i_perm i
         | None => Z.land mode 4095
         end ∧
    (∀ p m d a t, p ≠ to → files s !! p = Some (Inode m (Bytes d) a t) →
                  fs !! p = Some (Inode m (Bytes d) a t)).
Proof.
  rewrite (creates_spec to mode s). unfold sys_creat.
  destruct (String.eqb to ""); [done|].
  destruct (files s !! to) as [i|] eqn:F.
  - destruct (is_dir i); [done|]. destruct (negb (may_write i)); [done|].
    destruct i as [m' [d'|ns|] a' t']; [|done..]. intros _.
    eexists _, _, _, _. split; [reflexivity|]. split; [|split; [done|]].
    + by rewrite lookup_insert_eq.
    + intros p m d a t Hp H. by rewrite lookup_insert_ne.
  - destruct (parent_errno to (files s)); [done|]. intros _.
    eexists _, _, _, _. split; [reflexivity|]. split; [|split; [done|]].
    + by rewrite lookup_insert_eq.
    + intros p m d a t Hp H. rewrite lookup_insert_ne by done. by apply link_regular.
Qed.

(** Whatever the kernel does, what the buffered loop has stored in the
    destination is a run of bytes of the source, taken where the one
    descriptor stood and stored where the other stood. *)
Lemma buffer_loop_prefix fuel :
  ∀ inp out buflen todo s pi posi fi mi di ai ti po poso fo mo dout ao to err s',
  at_pos inp pi posi fi s → regular pi mi di ai ti s → readable fi = true →
  at_pos out po poso fo s → regular po mo dout ao to s → writable fo = true →
  pi ≠ po → (poso ≤ length dout)%nat →
  0 ≤ buflen < SIZE_MOD → 0 ≤ todo < SIZE_MOD →
  buffer_loop fuel inp out buflen todo s = Some (err, s') →
  ∃ k,
    (k ≤ Z.to_nat todo)%nat ∧
    files s' =
      <[po := Inode mo (Bytes (write_at dout poso (take k (drop posi di)))) ao to]>
        (files s) ∧
    (∃ n, at_pos inp pi n fi s') ∧ (∃ n, at_pos out po n fo s') ∧
    (∀ fd, fd ≠ inp → fd ≠ out → fdt s' !! fd = fdt s !! fd) ∧
    tty s' = tty s.
Proof.
  induction fuel as [|fuel IH];
    intros inp out buflen todo s pi posi fi mi di ai ti po poso fo mo dout ao to err s'
      Hi Hpi Hr Ho Hpo Hw Hne Hposo Hbuf Htodo H; [done|].
  assert (Hio : inp ≠ out).
  { intros ->. unfold at_pos in *. congruence. }
  assert (Hid : files s = <[po := Inode mo (Bytes (write_at dout poso (take 0 (drop posi di))))
                                     ao to]> (files s)).
  { rewrite take_0, write_at_nil by done. symmetry. by apply insert_id. }
  cbn [buffer_loop] in H.
  destruct (Z.gtb_spec todo 0) as [Hpos|Hz].
  2: { injection H as <- <-. exists 0%nat. split_and!; eauto. lia. }
  set (toread := if todo >? buflen then buflen else todo) in *.
  assert (Ht : 0 ≤ toread ≤ todo)
    by (subst toread; destruct (Z.gtb_spec todo buflen); lia).
  unfold bind at 1 in H.
  destruct (kk_posix_read_retry inp toread s) as [[[[e1 rc] buf] s1]|] eqn:E1; [|done].
  assert (Ht' : 0 ≤ toread < SIZE_MOD) by lia.
  destruct (read_retry_run _ _ _ _ _ _ _ _ _ _ _ _ _ _ Hi Hpi Hr Ht' E1)
    as (R1 & R2 & R3 & R4 & R5 & R6 & R7 & _).
  assert (Ho1 : at_pos out po poso fo s1)
    by (unfold at_pos in *; rewrite (R5 out) by done; done).
  assert (Hpo1 : regular po mo dout ao to s1) by (unfold regular in *; congruence).
  cbv beta iota in H.
  destruct (negb (e1 =? 0) || (rc =? 0)) eqn:Stop.
  { injection H as <- <-. exists 0%nat. rewrite R6.
    split_and!; eauto; try lia. }
  apply orb_false_iff in Stop as [_ Hrc]. apply Z.eqb_neq in Hrc.
  set (L := drop posi di) in *.
  assert (Hbl : length buf = Z.to_nat rc) by (subst buf; rewrite length_take; lia).
  rewrite (take_ge buf) in H by lia.
  unfold bind at 1 in H.
  destruct (kk_posix_write_retry out buf s1) as [[[e2 wc] s2]|] eqn:E2; [|done].
  assert (Hbl' : Z.of_nat (length buf) < SIZE_MOD) by lia.
  destruct (write_retry_run _ _ _ _ _ _ _ _ _ _ _ _ _ Ho1 Hpo1 Hw Hposo Hbl' E2)
    as (W1 & W2 & W3 & W4 & W5 & _).
  assert (Hi2 : at_pos inp pi (posi + Z.to_nat rc) fi s2)
    by (unfold at_pos in *; rewrite (W4 inp) by done; done).
  assert (Hf2 : ∀ fd, fd ≠ inp → fd ≠ out → fdt s2 !! fd = fdt s !! fd).
  { intros fd K1 K2. by rewrite (W4 fd K2), (R5 fd K1). }
  assert (Hwk : take (Z.to_nat wc) buf = take (Z.to_nat wc) L).
  { rewrite R3, take_take. f_equal. lia. }
  cbv beta iota in H.
  destruct (Z.eqb_spec e2 0) as [->|He2]; cbn [negb] in H.
  2: { injection H as <- <-. exists (Z.to_nat wc).
       rewrite W2, Hwk, R6. split_and!; eauto; try lia; congruence. }
  destruct (write_retry_spec out buf s1 Hbl') as (e2' & wc' & s2' & E2' & P).
  rewrite E2 in E2'. injection E2' as <- <- <-.
  destruct P as (_ & _ & _ & _ & P5 & _). specialize (P5 eq_refl). subst wc.
  rewrite Nat2Z.id in W2, W3. rewrite take_ge in W2 by lia. rewrite Hbl in W3.
  rewrite size_sub_small in H by lia.
  assert (Hpi2 : regular pi mi di ai ti s2).
  { unfold regular in *. rewrite W2, lookup_insert_ne by done. congruence. }
  assert (Hpo2 : regular po mo (write_at dout poso buf) ao to s2)
    by (unfold regular; by rewrite W2, lookup_insert_eq).
  eapply IH in H as (k' & K1 & K2 & K3 & K4 & K5 & K6);
    [|exact Hi2|exact Hpi2|done|exact W3|exact Hpo2|done|done
     |rewrite length_write_at by done; lia|done|lia].
  rewrite <- drop_drop in K2. fold L in K2.
  rewrite <- Hbl in K2 at 1. rewrite write_at_app in K2 by done.
  rewrite R3, take_take_drop in K2.
  rewrite W2, insert_insert_eq, R6 in K2.
  exists (Z.to_nat rc + k')%nat. split_and!; try done; try lia; try congruence.
  intros fd F1 F2. rewrite (K5 fd F1 F2). by apply Hf2.
Qed.

(** [kk_posix_copy_file] under any schedule: what it has stored in the
    destination is a prefix of the source. *)
Lemma kk_posix_copy_file_any inp out s pi fi mi di ai ti po fo mo dout ao to :
  at_pos inp pi 0 fi s → regular pi mi di ai ti s → readable fi = true →
  at_pos out po 0 fo s → regular po mo dout ao to s → writable fo = true →
  pi ≠ po → Z.of_nat (length di) < SIZE_MOD →
  ∃ err k s',
    kk_posix_copy_file inp out (Z.of_nat (length di)) s = Some (err, s') ∧
    (k ≤ length di)%nat ∧
    files s' = <[po := Inode mo (Bytes (take k di ++ drop k dout)) ao to]> (files s) ∧
    (∃ n, at_pos inp pi n fi s') ∧ (∃ n, at_pos out po n fo s') ∧
    (∀ fd, fd ≠ inp → fd ≠ out → fdt s' !! fd = fdt s !! fd) ∧
    tty s' = tty s.
Proof.
  intros Hi Hpi Hr Ho Hpo Hw Hne Hlen.
  set (len := Z.of_nat (length di)) in *.
  unfold kk_posix_copy_file. unfold bind at 1.
  destruct (range_loop_spec (retry_fuel len s) inp out len 0 0 s)
    as (err & off & s1 & E & _); [lia | lia | unfold retry_fuel; lia |].
  rewrite E.
  eapply range_loop_data in E as (I1 & H2 & H3 & H4 & _);
    [|exact Hi|exact Hpi|done|exact Ho|exact Hpo|done|done|lia|lia|done|lia
     |cbn; lia].
  rewrite Z.sub_0_r in H2. change (Z.to_nat 0) with 0%nat in H2.
  rewrite drop_0, write_at_start, length_take in H2.
  replace (Nat.min (Z.to_nat off) (length di)) with (Z.to_nat off) in H2 by lia.
  cbv beta iota.
  destruct (negb (err =? EINVAL) || (off >? 0)) eqn:Through.
  - unfold ret. exists err, (Z.to_nat off), s1. unfold at_pos in *. rewrite H3.
    split_and!; eauto. lia.
  - apply orb_false_iff in Through as [_ Hoff].
    assert (off = 0) as -> by (destruct (Z.gtb_spec off 0); [done|lia]).
    cbn [Z.to_nat take app] in H2. rewrite drop_0 in H2.
    rewrite insert_id in H2 by done.
    destruct (generic_copy_total inp out len s1) as (err' & s2 & G); [lia|].
    rewrite G. unfold generic_copy in G.
    set (buflen := if 1024 * 1024 >? len then len else 1024 * 1024) in G.
    assert (Hb : 0 ≤ buflen < SIZE_MOD).
    { subst buflen. destruct (Z.gtb_spec (1024 * 1024) len); [lia|].
      unfold SIZE_MOD. lia. }
    eapply (buffer_loop_prefix _ _ _ _ _ _ pi 0%nat fi mi di ai ti po 0%nat fo mo dout ao to)
      in G as (k & K1 & K2 & K3 & K4 & K5 & K6);
      [| by (unfold at_pos in *; rewrite H3)
       | by (unfold regular in *; rewrite H2)
       | done
       | by (unfold at_pos in *; rewrite H3)
       | by (unfold regular in *; rewrite H2)
       | done | done | lia | done | lia].
    rewrite drop_0, write_at_start, length_take in K2.
    replace (Nat.min k (length di)) with k in K2 by lia.
    exists err', k, s2. rewrite H2 in K2.
    split_and!; try done; try lia; try congruence.
    intros fd F1 F2. rewrite (K5 fd F1 F2). by rewrite H3.
Qed.

(** [kk_os_copy_file] around [kk_posix_copy_file]: the source is opened,
    the destination created empty, and, whatever the copy in between comes
    to, both are closed again and its status is returned. *)
Lemma kk_os_copy_file_frame from to preserve_mtime s m d a t :
  regular from m d a t s → opens from O_RDONLY s = true →
  from ≠ to → creates to s = true →
  Z.of_nat (length d) < SIZE_MOD →
  ∃ inp out s1 mo ao to_,
    at_pos inp from 0 O_RDONLY s1 ∧ at_pos out to 0 O_WRONLY s1 ∧
    regular from m d a t s1 ∧ regular to mo [] ao to_ s1 ∧
    mo = match files s !! to with
         | Some i => i_perm i
         | None => Z.land (Z.lor S_IFREG (Z.land m 4095)) 4095
         end ∧
    sched s1 = sched s ∧ tty s1 = tty s ∧
    ∀ err s2 k,
      kk_posix_copy_file inp out (Z.of_nat (length d)) s1 = Some (err, s2) →
      files s2 = <[to := Inode mo (Bytes (take k d)) ao to_]> (files s1) →
      (∃ n, at_pos inp from n O_RDONLY s2) → (∃ n, at_pos out to n O_WRONLY s2) →
      (∀ fd, fd ≠ inp → fd ≠ out → fdt s2 !! fd = fdt s1 !! fd) →
      ∃ s' ao' to',
        kk_os_copy_file from to preserve_mtime s = Some (err, s') ∧
        regular to mo (take k d) ao' to' s' ∧ regular from m d a t s' ∧
        (err = 0 → preserve_mtime = true → ao' = a ∧ to' = t) ∧
        fdt s' = fdt s ∧ tty s' = tty s2 ∧ sched s' = sched s2 ∧
        SysCreat to (Z.lor S_IFREG (Z.land m 4095)) out ∈ trace s'.
Proof.
  intros Hp Hop Hne Hc Hlen.
  unfold kk_os_copy_file. unfold bind at 1.
  rewrite (kk_posix_open_regular _ _ _ _ _ _ _ Hp Hop).
  destruct (lowest_free_spec (fdt s)) as [H0 Hfree].
  set (inp := lowest_free (fdt s)) in *.
  replace (inp <? 0) with false by (symmetry; apply Z.ltb_ge; lia). cbv iota.
  set (s0 := log _ _).
  assert (Hi0 : at_pos inp from 0 O_RDONLY s0)
    by (unfold at_pos, s0; cbn; by rewrite lookup_insert_eq).
  assert (Hp0 : regular from m d a t s0) by done.
  assert (Hst : sys_fstat inp stat_zero s0
                = (0, stat_of (Inode m (Bytes d) a t), log (SysFstat inp 0) s0)).
  { unfold sys_fstat. unfold at_pos in Hi0. unfold regular in Hp0. by rewrite Hi0, Hp0. }
  rewrite bind_call, Hst. cbn [fst snd]. cbv beta iota.
  change (0 <? 0) with false. cbv iota.
  cbn [st_mode st_size st_atim st_mtim stat_of kind_bits body_size i_body i_perm
       i_atim i_mtim].
  set (s0' := log (SysFstat inp 0) s0).
  assert (Hc0 : creates to s0' = true) by by rewrite (creates_files to s s0').
  destruct (sys_creat_creates to (Z.lor S_IFREG (Z.land m 4095)) s0' Hc0)
    as (fs & mo & ao & to_ & Hcr & Hto & Hmo & Hoth).
  change (files s0') with (files s) in Hmo.
  destruct (lowest_free_spec (fdt s0')) as [Hout Hofree].
  set (out := lowest_free (fdt s0')) in *.
  assert (Hio : out ≠ inp).
  { intros E. unfold at_pos in Hi0. rewrite E in Hofree.
    change (fdt s0') with (fdt s0) in Hofree. congruence. }
  unfold kk_posix_creat. rewrite bind_call, Hcr. cbn [fst snd].
  replace (out <? 0) with false by (symmetry; apply Z.ltb_ge; lia). cbv iota.
  set (s1 := log (SysCreat _ _ _) _).
  assert (Hi1 : at_pos inp from 0 O_RDONLY s1).
  { unfold at_pos, s1. cbn. rewrite lookup_insert_ne by done. by rewrite lookup_insert_eq. }
  assert (Ho1 : at_pos out to 0 O_WRONLY s1)
    by (unfold at_pos, s1; cbn; by rewrite lookup_insert_eq).
  assert (Hp1 : regular from m d a t s1) by (apply Hoth; done).
  assert (Hto1 : regular to mo [] ao to_ s1) by done.
  assert (Hf1 : ∀ k, k ≠ inp → k ≠ out → fdt s1 !! k = fdt s !! k).
  { intros k K1 K2. unfold s1. cbn. by rewrite !lookup_insert_ne. }
  assert (Ht1 : SysCreat to (Z.lor S_IFREG (Z.land m 4095)) out ∈ trace s1)
    by apply list_elem_of_here.
  assert (Htty1 : tty s1 = tty s) by done.
  assert (Hs1 : sched s1 = sched s) by done.
  clearbody s1.
  rewrite Z.mod_small by lia.
  exists inp, out, s1, mo, ao, to_. split_and!; try done.
  intros err s2 k Ecp F2 (ni & Hi2) (no & Ho2) Hf2.
  unfold bind at 1. rewrite Ecp.
  assert (Hto2 : regular to mo (take k d) ao to_ s2)
    by (unfold regular; by rewrite F2, lookup_insert_eq).
  assert (Hp2 : regular from m d a t s2)
    by (unfold regular; by rewrite F2, lookup_insert_ne).
  assert (Hf : ∃ r s3 ao' to',
    (if (err =? 0) && preserve_mtime then call (sys_futimens out a t) else ret 0) s2
      = Some (r, s3) ∧
    regular to mo (take k d) ao' to' s3 ∧ regular from m d a t s3 ∧
    (err = 0 → preserve_mtime = true → ao' = a ∧ to' = t) ∧
    fdt s3 = fdt s2 ∧ tty s3 = tty s2 ∧ sched s3 = sched s2 ∧
    SysCreat to (Z.lor S_IFREG (Z.land m 4095)) out ∈ trace s3).
  { destruct ((err =? 0) && preserve_mtime) eqn:Fut.
    - unfold call, sys_futimens. unfold at_pos in Ho2. unfold regular in Hto2.
      rewrite Ho2, Hto2. eexists _, _, a, t. split; [reflexivity|].
      unfold regular. cbn [files fdt tty sched trace log set_files].
      rewrite lookup_insert_eq, lookup_insert_ne by done.
      split_and!; try done.
      apply list_elem_of_further.
      by apply (suffix_elem_of _ _ _ (kk_posix_copy_file_trace _ _ _ _ _ _ Ecp)).
    - exists 0, s2, ao, to_. unfold ret. split_and!; try done.
      + intros -> ->. done.
      + by apply (suffix_elem_of _ _ _ (kk_posix_copy_file_trace _ _ _ _ _ _ Ecp)). }
  destruct Hf as (r & s3 & ao' & to' & Ef & Hto3 & Hp3 & Hpres & Hf3 & Htty3 & Hs3 & Ht3).
  unfold bind at 1. rewrite Ef.
  assert (Hc1 : sys_close inp s3
                = (0, log (SysClose inp 0) (set_fdt (delete inp (fdt s3)) s3))).
  { unfold sys_close. unfold at_pos in Hi2. by rewrite Hf3, Hi2. }
  rewrite bind_call, Hc1. cbn [fst snd].
  set (s4 := log (SysClose inp 0) _).
  assert (Hc2 : sys_close out s4
                = (0, log (SysClose out 0) (set_fdt (delete out (fdt s4)) s4))).
  { unfold sys_close, s4. cbn [fdt log set_fdt]. unfold at_pos in Ho2.
    by rewrite lookup_delete_ne, Hf3, Ho2. }
  rewrite bind_call, Hc2. cbn [fst snd].
  unfold bind, get_errno, ret. change (0 =? -1) with false. cbv iota.
  eexists _, ao', to'. split; [reflexivity|].
  unfold regular in *. cbn [files fdt tty sched trace log set_fdt].
  split_and!; try done.
  - apply map_eq. intros fd.
    destruct (decide (fd = out)) as [->|K2].
    { rewrite lookup_delete_eq. symmetry.
      change (fdt s0') with (<[inp := Handle (OnFile from) 0 O_RDONLY]> (fdt s)) in Hofree.
      by rewrite lookup_insert_ne in Hofree. }
    rewrite lookup_delete_ne by done. unfold s4. cbn [fdt log set_fdt].
    destruct (decide (fd = inp)) as [->|K1].
    { by rewrite lookup_delete_eq. }
    rewrite lookup_delete_ne by done.
    by rewrite Hf3, (Hf2 fd K1 K2), (Hf1 fd K1 K2).
  - by do 2 apply list_elem_of_further.
Qed.

(** Copying a regular file to a creatable name under a schedule that lets
    the copy run to its end. *)
Lemma kk_os_copy_file_run from to preserve_mtime s m d a t :
  regular from m d a t s → opens from O_RDONLY s = true →
  from ≠ to → creates to s = true →
  Z.of_nat (length d) < SIZE_MOD →
  copy_schedule (sched s) = true →
  ∃ s' mo ao to_ out,
    kk_os_copy_file from to preserve_mtime s = Some (0, s') ∧
    regular to mo d ao to_ s' ∧ regular from m d a t s' ∧
    mo = match files s !! to with
         | Some i => i_perm i
         | None => Z.land (Z.lor S_IFREG (Z.land m 4095)) 4095
         end ∧
    (preserve_mtime = true → ao = a ∧ to_ = t) ∧
    fdt s' = fdt s ∧ tty s' = tty s ∧
    SysCreat to (Z.lor S_IFREG (Z.land m 4095)) out ∈ trace s' ∧
    (d ≠ [] → benign (sched s') = true).
Proof.
  intros Hp Hop Hne Hc Hlen C.
  destruct (kk_os_copy_file_frame from to preserve_mtime s m d a t Hp Hop Hne Hc Hlen)
    as (inp & out & s1 & mo & ao & to_ & Hi1 & Ho1 & Hp1 & Hto1 & Hmo & Hs1 & Htty1
        & Frame).
  destruct (kk_posix_copy_file_run inp out s1 from O_RDONLY m d a t
              to O_WRONLY mo [] ao to_)
    as (s2 & Ecp & F2 & Hi2 & Ho2 & Hf2 & Htty2 & Hb2);
    [done..|by rewrite Hs1|].
  rewrite drop_nil, app_nil_r in F2. rewrite <- (take_ge d (length d)) in F2 at 1 by done.
  destruct (Frame 0 s2 (length d) Ecp F2 Hi2 Ho2 Hf2)
    as (s' & ao' & to' & E & G1 & G2 & G3 & G4 & G5 & G6 & G7).
  rewrite take_ge in G1 by done.
  exists s', mo, ao', to', out. split_and!; try done; try congruence.
  - by apply G3.
  - intros Hd. rewrite G6. by apply Hb2.
Qed.



(** X8: a copy read back.  After [kk_os_copy_file] has copied a regular
    file that [open] opens for reading to another name at which [creat]
    succeeds and whose file, if there is one already, may be read, under a
    schedule that lets the copy run to
    its end (interruptions are EINTR or EAGAIN, no transfer is cut down to
    nothing, [copy_file_range] works or is refused with EINVAL),
    [kk_os_read_text_file] of the destination returns status 0 and exactly
    the bytes of the source, and the descriptor table is as it was before
    the copy. *)
Theorem copy_then_read from to preserve_mtime s m d a t :
  regular from m d a t s → opens from O_RDONLY s = true →
  from ≠ to → creates to s = true → readable_if_there to s = true →
  Z.of_nat (length d) < SIZE_MOD →
  copy_schedule (sched s) = true →
  ∃ s1 s2,
    kk_os_copy_file from to preserve_mtime s = Some (0, s1) ∧
    kk_os_read_text_file to s1 = Some ((0, Some d), s2) ∧
    fdt s2 = fdt s.
Proof.
  intros Hp Hop Hne Hc Hr Hlen C.
  destruct (kk_os_copy_file_run from to preserve_mtime s m d a t Hp Hop Hne Hc Hlen C)
    as (s1 & mo & ao & to_ & out & E & H1 & _ & Hmo & _ & H4 & _ & _ & Hb).
  assert (Hop1 : opens to O_RDONLY s1 = true).
  { rewrite (opens_regular _ _ _ _ _ _ _ H1).
    rewrite (opens_regular _ _ _ _ _ _ _ Hp) in Hop.
    unfold readable_if_there in Hr. unfold permitted, may_read in *.
    cbn [i_perm] in *. change (writable O_RDONLY) with false in *.
    change (readable O_RDONLY) with true in *. cbn [negb orb andb] in *.
    rewrite andb_true_r in *. subst mo.
    destruct (files s !! to) as [i|]; [done|].
    rewrite Z.land_lor_distr_l, <- !Z.land_assoc.
    change (Z.land S_IFREG 4095) with 0. change (Z.land 4095 4095) with 4095.
    rewrite Z.lor_0_l, <- Z.land_assoc.
    by change (Z.land 4095 S_IRUSR) with S_IRUSR. }
  destruct (read_text_file_run to s1 mo d ao to_ H1 Hop1 Hlen)
    as (n & s2 & E2 & _ & F2 & Hn).
  exists s1, s2. split; [done|]. split; [|congruence].
  rewrite E2. destruct d as [|b d']; [by rewrite take_nil|].
  destruct (Hn (Hb ltac:(done))) as [-> _]. done.
Qed.

Lemma copy_then_read_witness :
  ∃ s1 s2,
    kk_os_copy_file "src" "dst" false
      (set_sched [Fail 22; AtMost 1; Fail 4; AtMost 3]
         (boot (<["src" := Inode 420 (Bytes hello) 7 9]> ∅))) = Some (0, s1) ∧
    kk_os_read_text_file "dst" s1 = Some ((0, Some hello), s2) ∧
    fdt s2 = fdt (set_sched [Fail 22; AtMost 1; Fail 4; AtMost 3]
                    (boot (<["src" := Inode 420 (Bytes hello) 7 9]> ∅))).
Proof.
  apply (copy_then_read "src" "dst" false
           (set_sched [Fail 22; AtMost 1; Fail 4; AtMost 3]
              (boot (<["src" := Inode 420 (Bytes hello) 7 9]> ∅)))
           420 hello 7 9);
    [reflexivity | reflexivity | discriminate | reflexivity | reflexivity
    | reflexivity | reflexivity].
Defined.

(** X9: a copy under any schedule.  Whatever the kernel does to the
    transfers (failures of any kind, short and empty transfers),
    [kk_os_copy_file] from a regular file that [open] opens for reading
    to another name at which [creat] succeeds (another name is another
    file here)
    returns with the destination holding a prefix of the bytes of the
    source and nothing else, the source as it was, both descriptors closed
    (the descriptor table is as it was) and nothing written to the
    terminal. *)
Theorem copy_file_never_corrupts from to preserve_mtime s m d a t :
  regular from m d a t s → opens from O_RDONLY s = true →
  from ≠ to → creates to s = true →
  Z.of_nat (length d) < SIZE_MOD →
  ∃ status k s' mo ao to_,
    kk_os_copy_file from to preserve_mtime s = Some (status, s') ∧
    (k ≤ length d)%nat ∧
    regular to mo (take k d) ao to_ s' ∧ regular from m d a t s' ∧
    fdt s' = fdt s ∧ tty s' = tty s.
Proof.
  intros Hp Hop Hne Hc Hlen.
  destruct (kk_os_copy_file_frame from to preserve_mtime s m d a t Hp Hop Hne Hc Hlen)
    as (inp & out & s1 & mo & ao & to_ & Hi1 & Ho1 & Hp1 & Hto1 & _ & Hs1 & Htty1
        & Frame).
  destruct (kk_posix_copy_file_any inp out s1 from O_RDONLY m d a t
              to O_WRONLY mo [] ao to_)
    as (err & k & s2 & Ecp & Hk & F2 & Hi2 & Ho2 & Hf2 & Htty2); [done..|].
  rewrite drop_nil, app_nil_r in F2.
  destruct (Frame err s2 k Ecp F2 Hi2 Ho2 Hf2)
    as (s' & ao' & to' & E & G1 & G2 & G3 & G4 & G5 & G6 & G7).
  exists err, k, s', mo, ao', to'. split_and!; try done. congruence.
Qed.

Lemma copy_file_never_corrupts_witness :
  ∃ status k s' mo ao to_,
    kk_os_copy_file "src" "dst" true
      (set_sched [AtMost 2; Fail 5]
         (boot (<["src" := Inode 420 (Bytes hello) 7 9]> ∅))) = Some (status, s') ∧
    (k ≤ length hello)%nat ∧
    regular "dst" mo (take k hello) ao to_ s' ∧ regular "src" 420 hello 7 9 s' ∧
    fdt s' = fdt (set_sched [AtMost 2; Fail 5]
                    (boot (<["src" := Inode 420 (Bytes hello) 7 9]> ∅))) ∧
    tty s' = tty (set_sched [AtMost 2; Fail 5]
                    (boot (<["src" := Inode 420 (Bytes hello) 7 9]> ∅))).
Proof.
  apply (copy_file_never_corrupts "src" "dst" true
           (set_sched [AtMost 2; Fail 5]
              (boot (<["src" := Inode 420 (Bytes hello) 7 9]> ∅)))
           420 hello 7 9);
    [reflexivity | reflexivity | discriminate | reflexivity | reflexivity].
Defined.

(** That run: two bytes are copied, the next call fails with EIO, which
    is the status; the times of the source are not carried over. *)
Lemma copy_file_stopped_by_error :
  ∃ s',
    kk_os_copy_file "src" "dst" true
      (set_sched [AtMost 2; Fail 5]
         (boot (<["src" := Inode 420 (Bytes hello) 7 9]> ∅))) = Some (EIO, s') ∧
    files s' !! "dst" = Some (Inode 420 (Bytes (take 2 hello)) 0 0).
Proof.
  eexists. split.
  - vm_compute. reflexivity.
  - reflexivity.
Qed.

(** A source that may not be read: [fstat] fails on the error number of
    the refused [open], nothing is created and the status is EBADF. *)
Lemma copy_file_refused :
  ∃ s',
    kk_os_copy_file "src" "dst" true
      (boot (<["src" := Inode 128 (Bytes hello) 7 9]> ∅)) = Some (EBADF, s') ∧
    files s' !! "dst" = None ∧
    opens "src" O_RDONLY (boot (<["src" := Inode 128 (Bytes hello) 7 9]> ∅)) = false.
Proof.
  eexists. split; [vm_compute; reflexivity|]. split; reflexivity.
Qed.

(** ** Ensuring a directory: every path *)

Lemma evolves_refl fs : evolves fs fs.
Proof. intros p. by left. Qed.

Lemma evolves_trans fs1 fs2 fs3 : evolves fs1 fs2 → evolves fs2 fs3 → evolves fs1 fs3.
Proof.
  intros H12 H23 p. destruct (H23 p) as [E|[N T]].
  - destruct (H12 p) as [E'|[N' T']]; [left; congruence|right]. split; [done|congruence].
  - destruct (H12 p) as [E'|[N' T']].
    + right. split; [|done]. unfold kind_at in E'. rewrite N in E'.
      by destruct (fs1 !! p).
    + unfold kind_at in T'. by rewrite N in T'.
Qed.

Lemma evolves_is_Some fs fs' p : evolves fs fs' → is_Some (fs !! p) → is_Some (fs' !! p).
Proof.
  intros H [i Hi]. unfold evolves, kind_at in H.
  destruct (H p) as [E|[N _]]; [|congruence].
  rewrite Hi in E. by destruct (fs' !! p).
Qed.

Lemma link_kind q fs p : kind_at (link q fs) p = kind_at fs p.
Proof.
  unfold link, kind_at. destruct (parent q) as [dir|]; [|done].
  destruct (fs !! dir) as [[m [d|ns|] a t]|] eqn:D; try done.
  destruct (decide (dir = p)) as [->|Hne].
  - by rewrite lookup_insert_eq, D.
  - by rewrite lookup_insert_ne.
Qed.

(** What [kk_os_ensure_dir] does at one prefix. *)
Lemma ensure_prefix_spec cpath mode s :
  ∃ err s',
    ensure_prefix cpath mode s = Some (err, s') ∧
    evolves (files s) (files s') ∧ fdt s' = fdt s ∧
    (err = 0 → cpath ≠ "" → is_Some (files s' !! cpath)) ∧
    (err ≠ 0 → err = errno s' ∧ err ≠ EEXIST ∧
               ∃ t, trace s' = SysMkdir cpath mode (-1) :: t) ∧
    (cpath ≠ "" → is_Some (files s !! cpath) → err = 0 ∧ files s' = files s).
Proof.
  unfold ensure_prefix.
  destruct (String.eqb_spec cpath "") as [->|Hne]; cbn [negb].
  { exists 0, s. split_and!; try done. apply evolves_refl. }
  unfold bind at 1, call, sys_stat.
  destruct (files s !! cpath) as [i|] eqn:F.
  - destruct (is_dir i) eqn:Hd.
    + apply dir_bit_set, Z.eqb_neq in Hd as Hb. rewrite Hb. cbn [negb].
      eexists 0, _. split; [reflexivity|].
      split_and!; try done; try apply evolves_refl; try (by rewrite F).
    + assert (Hperm : ∀ perm, Z.land (Z.land perm 4095) S_IFDIR = 0).
      { intros perm. rewrite <- Z.land_assoc. change (Z.land 4095 S_IFDIR) with 0.
        apply Z.land_0_r. }
      destruct i as [perm [d|ns|] a t]; [|done|].
      * (* a regular file: [mkdir] answers EEXIST, which is let pass *)
        replace (Z.land (st_mode (stat_of (Inode perm (Bytes d) a t))) S_IFDIR =? 0)
          with true.
        2: { symmetry. apply Z.eqb_eq. simpl. rewrite Z.land_lor_distr_l, Hperm.
             by change (Z.land S_IFREG S_IFDIR) with 0. }
        cbn [negb]. unfold bind, call, sys_mkdir.
        apply String.eqb_neq in Hne as Hne'. rewrite Hne'.
        cbn [files log]. rewrite F. cbn.
        eexists 0, _. split; [reflexivity|].
        split_and!; try done; try apply evolves_refl; try (by rewrite F).
      * (* a socket: its file type has the bit of [S_IFDIR] *)
        replace (Z.land (st_mode (stat_of (Inode perm Socket a t))) S_IFDIR =? 0)
          with false.
        2: { symmetry. apply Z.eqb_neq. simpl. rewrite Z.land_lor_distr_l, Hperm.
             by change (Z.land S_IFSOCK S_IFDIR) with S_IFDIR. }
        cbn [negb].
        eexists 0, _. split; [reflexivity|].
        split_and!; try done; try apply evolves_refl; try (by rewrite F).
  - cbn [failing]. cbv beta iota.
    change (negb (negb (Z.land (st_mode stat_zero) S_IFDIR =? 0))) with true.
    cbv iota. unfold bind, call, sys_mkdir.
    apply String.eqb_neq in Hne as Hne'. rewrite Hne'.
    cbn [files log set_errno]. rewrite F.
    destruct (parent_errno cpath (files s)) as [e|] eqn:P.
    + assert (He : e = ENOTDIR ∨ e = ENOENT).
      { unfold parent_errno in P. destruct (parent cpath) as [dir|]; [|done].
        destruct (String.eqb dir ""); [done|].
        destruct (files s !! dir) as [j|]; [|injection P as <-; by right].
        destruct (is_dir j); [done|]. injection P as <-. by left. }
      unfold get_errno, ret. cbn [failing errno log set_errno fst snd].
      replace (negb (-1 =? 0) && negb (e =? EEXIST)) with true
        by (destruct He as [-> | ->]; done).
      eexists e, _. split; [reflexivity|].
      split_and!.
      * apply evolves_refl.
      * done.
      * intros ->. by destruct He.
      * intros _. split; [done|]. split; [by destruct He as [-> | ->]|]. by eexists.
      * by intros _ [? ?].
    + unfold get_errno, ret. cbn.
      eexists 0, _. split; [reflexivity|].
      split_and!; try done.
      * intros p. cbn [files log set_files].
        destruct (decide (p = cpath)) as [->|Hp].
        -- right. split; [done|]. unfold kind_at. by rewrite lookup_insert_eq.
        -- left. unfold kind_at at 1. rewrite lookup_insert_ne by done.
           apply link_kind.
      * intros _ _. cbn [files log set_files]. rewrite lookup_insert_eq. eauto.
Qed.

(** The loop of [kk_os_ensure_dir], for every path. *)
Lemma ensure_loop_spec rest : ∀ pre mode s,
  ∃ err s',
    ensure_loop pre rest mode s = Some (err, s') ∧
    evolves (files s) (files s') ∧ fdt s' = fdt s ∧
    (err = 0 → ∀ p, p ∈ stops pre rest → p ≠ "" → is_Some (files s' !! p)) ∧
    (err ≠ 0 → err = errno s' ∧ err ≠ EEXIST ∧
               ∃ p t, p ∈ stops pre rest ∧ trace s' = SysMkdir p mode (-1) :: t).
Proof.
  induction rest as [|c rest IH]; intros pre mode s; cbn [ensure_loop stops].
  - destruct (ensure_prefix_spec pre mode s) as (err & s' & E & H1 & H2 & H3 & H4 & _).
    exists err, s'. split_and!; try done.
    + intros H0 p Hp. apply list_elem_of_singleton in Hp as ->. by apply H3.
    + intros Hn. destruct (H4 Hn) as (? & ? & t & Ht). split_and!; try done.
      exists pre, t. split; [apply list_elem_of_here|done].
  - assert (Hstep : ∃ err s1,
      (if is_dir_sep c then ensure_prefix pre mode else ret 0) s = Some (err, s1) ∧
      evolves (files s) (files s1) ∧ fdt s1 = fdt s ∧
      (err = 0 → ∀ p, p ∈ (if is_dir_sep c then [pre] else []) → p ≠ "" →
                      is_Some (files s1 !! p)) ∧
      (err ≠ 0 → err = errno s1 ∧ err ≠ EEXIST ∧
                 ∃ t, is_dir_sep c = true ∧ trace s1 = SysMkdir pre mode (-1) :: t)).
    { destruct (is_dir_sep c).
      - destruct (ensure_prefix_spec pre mode s)
          as (err & s' & E & H1 & H2 & H3 & H4 & _).
        exists err, s'. split_and!; try done.
        + intros H0 p Hp. apply list_elem_of_singleton in Hp as ->. by apply H3.
        + intros Hn. destruct (H4 Hn) as (? & ? & t & Ht). split_and!; try done. eauto.
      - exists 0, s. split_and!; try done; [apply evolves_refl|].
        intros _ p Hp. by apply elem_of_nil in Hp. }
    destruct Hstep as (err & s1 & E & H1 & H2 & H3 & H4).
    unfold bind at 1. rewrite E.
    destruct (Z.eqb_spec err 0) as [->|Hn].
    + destruct (IH (pre +:+ String c EmptyString) mode s1)
        as (err' & s' & E' & I1 & I2 & I3 & I4).
      exists err', s'. split_and!; try done; try congruence.
      * by eapply evolves_trans.
      * intros H0 p Hp Hne. apply elem_of_app in Hp as [Hp|Hp].
        -- apply (evolves_is_Some _ _ _ I1). by apply H3.
        -- by apply I3.
      * intros Hn. destruct (I4 Hn) as (? & ? & p & t & Hp & Ht).
        split_and!; try done. exists p, t. split; [|done].
        apply elem_of_app. by right.
    + exists err, s1. unfold ret. split_and!; try done.
      intros _. destruct (H4 Hn) as (? & ? & t & Hc & Ht).
      split_and!; try done. exists pre, t. split; [|done].
      rewrite Hc. apply elem_of_app. left. apply list_elem_of_here.
Qed.

(** Where every prefix is there already, the loop changes nothing. *)
Lemma ensure_loop_settled rest : ∀ pre mode s,
  (∀ p, p ∈ stops pre rest → p ≠ "" → is_Some (files s !! p)) →
  ∃ s', ensure_loop pre rest mode s = Some (0, s') ∧
        files s' = files s ∧ fdt s' = fdt s.
Proof.
  induction rest as [|c rest IH]; intros pre mode s H; cbn [ensure_loop stops] in *.
  - destruct (ensure_prefix_spec pre mode s) as (err & s' & E & _ & H2 & _ & _ & H5).
    destruct (String.eqb_spec pre "") as [->|Hne].
    { exists s. by split. }
    destruct (H5 Hne) as [-> Hf]; [apply H; [apply list_elem_of_here|done]|].
    exists s'. by split.
  - assert (Hstep : ∃ s1,
      (if is_dir_sep c then ensure_prefix pre mode else ret 0) s = Some (0, s1) ∧
      files s1 = files s ∧ fdt s1 = fdt s).
    { destruct (is_dir_sep c); [|by exists s].
      destruct (String.eqb_spec pre "") as [->|Hne].
      { exists s. by split. }
      destruct (ensure_prefix_spec pre mode s) as (err & s' & E & _ & H2 & _ & _ & H5).
      destruct (H5 Hne) as [-> Hf].
      { apply H; [|done]. apply elem_of_app. left. apply list_elem_of_here. }
      exists s'. by split. }
    destruct Hstep as (s1 & E & F1 & D1).
    unfold bind at 1. rewrite E. change (0 =? 0) with true. cbv iota.
    destruct (IH (pre +:+ String c EmptyString) mode s1) as (s' & E' & F' & D').
    { intros p Hp Hne. rewrite F1. apply H; [|done]. apply elem_of_app. by right. }
    exists s'. split; [done|]. split; congruence.
Qed.

(** X10: what [kk_os_ensure_dir] leaves behind, for every path, mode and
    state.  The file system has only gained directories: no name has
    changed its kind or gone.  On status 0 every prefix of the path that
    ends before a separator or at the end is a directory, unless a file
    that is not a directory had that name already: the "already exists"
    of [mkdir] is taken for success whatever it is that exists, and a
    socket is taken for a directory.  A nonzero
    status is the [errno] of a [mkdir] that failed on one of the prefixes,
    never EEXIST, and that [mkdir] is the last call made: the walk stops
    at the first error. *)
Theorem ensure_dir_outcome path mode s :
  ∃ err s',
    kk_os_ensure_dir path mode s = Some (err, s') ∧
    evolves (files s) (files s') ∧
    (err = 0 → ∀ p, p ∈ stops "" path → p ≠ "" →
       is_directory_at (files s') p = true ∨ kind_at (files s) p = Some false) ∧
    (err ≠ 0 → err = errno s' ∧ err ≠ EEXIST ∧
       ∃ p m t, p ∈ stops "" path ∧ trace s' = SysMkdir p m (-1) :: t).
Proof.
  unfold kk_os_ensure_dir. set (m := if mode <? 0 then _ else mode).
  destruct (ensure_loop_spec path "" m s) as (err & s' & E & H1 & _ & H3 & H4).
  exists err, s'. split_and!; try done.
  - intros H0 p Hp Hne. destruct (H3 H0 p Hp Hne) as [i' Hi'].
    unfold is_directory_at. rewrite Hi'.
    destruct (is_dir i') eqn:D; [by left|right].
    destruct (H1 p) as [K|[_ K]]; unfold kind_at in K; rewrite Hi' in K; cbn in K.
    + unfold kind_at. rewrite <- K. by rewrite D.
    + congruence.
  - intros Hn. destruct (H4 Hn) as (? & ? & p & t & ? & ?).
    split_and!; try done. by exists p, m, t.
Qed.

(** X11: where every prefix of the path has a file of some kind behind it,
    [kk_os_ensure_dir] returns 0 and changes no file, also when one of
    them is a regular file and the directory asked for is not there. *)
Theorem ensure_dir_settled path mode s :
  settled (files s) path = true →
  ∃ s', kk_os_ensure_dir path mode s = Some (0, s') ∧ files s' = files s.
Proof.
  intros H. unfold kk_os_ensure_dir. set (m := if mode <? 0 then _ else mode).
  destruct (ensure_loop_settled path "" m s) as (s' & E & F & _).
  - intros p Hp Hne. unfold settled in H. rewrite forallb_forall in H.
    apply list_elem_of_In, H in Hp. apply orb_true_iff in Hp as [Hp|Hp].
    + by apply String.eqb_eq in Hp.
    + by apply bool_decide_eq_true in Hp.
  - by exists s'.
Qed.

Lemma ensure_dir_settled_witness :
  ∃ s', kk_os_ensure_dir "d/f" 493 (boot (<["d/f" := Inode 420 (Bytes hello) 0 0]>
                                             dir_and_file))
        = Some (0, s') ∧
        files s' = files (boot (<["d/f" := Inode 420 (Bytes hello) 0 0]> dir_and_file)).
Proof.
  apply (ensure_dir_settled "d/f" 493
           (boot (<["d/f" := Inode 420 (Bytes hello) 0 0]> dir_and_file))).
  reflexivity.
Defined.

(** X12: [kk_os_ensure_dir] is idempotent: after a call that returned 0,
    a second call with the same path returns 0 and changes no file. *)
Theorem ensure_dir_idempotent path mode mode' s s1 :
  kk_os_ensure_dir path mode s = Some (0, s1) →
  ∃ s2, kk_os_ensure_dir path mode' s1 = Some (0, s2) ∧ files s2 = files s1.
Proof.
  unfold kk_os_ensure_dir.
  set (m := if mode <? 0 then _ else mode). set (m' := if mode' <? 0 then _ else mode').
  intros E.
  destruct (ensure_loop_spec path "" m s) as (err & s' & E' & _ & _ & H3 & _).
  rewrite E in E'. injection E' as <- <-.
  destruct (ensure_loop_settled path "" m' s1 (H3 eq_refl)) as (s2 & E2 & F & _).
  by exists s2.
Qed.

Lemma ensure_dir_idempotent_witness :
  ∃ s2, kk_os_ensure_dir "a/b" 448 after_ensure = Some (0, s2) ∧
        files s2 = files after_ensure.
Proof.
  apply (ensure_dir_idempotent "a/b" (-1) 448 (boot ∅) after_ensure).
  vm_compute. reflexivity.
Defined.

(** The directory a path lies in, as the path grows by a character. *)
Lemma last_slash_snoc pre c :
  last_slash (pre +:+ String c EmptyString)
  = if Ascii.eqb c "/" then Some (String.length pre) else last_slash pre.
Proof.
  induction pre as [|b r IH].
  - rewrite append_nil_l. cbn. by destruct (Ascii.eqb c "/").
  - rewrite append_cons. cbn [last_slash String.length]. rewrite IH.
    by destruct (Ascii.eqb c "/").
Qed.

Lemma last_slash_lt p i : last_slash p = Some i → (i < String.length p)%nat.
Proof.
  revert i. induction p as [|b r IH]; [done|]. intros i. cbn [last_slash String.length].
  destruct (last_slash r) as [j|].
  - intros [= <-]. specialize (IH j eq_refl). lia.
  - destruct (Ascii.eqb b "/"); [|done]. intros [= <-]. lia.
Qed.

Lemma substring_snoc pre : ∀ i c,
  (i ≤ String.length pre)%nat →
  substring 0 i (pre +:+ String c EmptyString) = substring 0 i pre.
Proof.
  induction pre as [|b r IH]; intros i c Hi.
  - cbn [String.length] in Hi. by replace i with 0%nat by lia.
  - rewrite append_cons. destruct i as [|i]; [done|].
    cbn [substring String.length] in *. rewrite IH by lia. done.
Qed.

Lemma parent_snoc_other pre c :
  Ascii.eqb c "/" = false → parent (pre +:+ String c EmptyString) = parent pre.
Proof.
  intros Hc. unfold parent. rewrite last_slash_snoc, Hc.
  destruct (last_slash pre) as [i|] eqn:L; [|done].
  apply last_slash_lt in L. by rewrite substring_snoc by lia.
Qed.

Lemma parent_snoc_slash pre : parent (pre +:+ "/") = Some pre.
Proof.
  unfold parent. rewrite last_slash_snoc. cbn.
  by rewrite substring_snoc, substring_all.
Qed.

Lemma evolves_parent p fs fs' :
  evolves fs fs' → parent_errno p fs = None → parent_errno p fs' = None.
Proof.
  intros Hev. unfold parent_errno. destruct (parent p) as [dir|]; [|done].
  destruct (String.eqb dir ""); [done|].
  destruct (fs !! dir) as [i|] eqn:F; [|done].
  destruct (is_dir i) eqn:D; [|done]. intros _.
  destruct (Hev dir) as [K|[K _]]; [|congruence].
  unfold kind_at in K. rewrite F in K. cbn in K. rewrite D in K.
  destruct (fs' !! dir) as [i'|]; [|done]. cbn in K. injection K as ->. done.
Qed.

Lemma evolves_not_other p fs fs' :
  evolves fs fs' → kind_at fs p ≠ Some false → kind_at fs' p ≠ Some false.
Proof.
  intros Hev H. destruct (Hev p) as [K|[_ K]]; rewrite K; [done|congruence].
Qed.

(** At a prefix that can be made and is not a file of another kind than
    a directory: status 0, and the prefix is a directory. *)
Lemma ensure_prefix_ok cpath mode s :
  parent_errno cpath (files s) = None →
  kind_at (files s) cpath ≠ Some false →
  ∃ s', ensure_prefix cpath mode s = Some (0, s') ∧
        evolves (files s) (files s') ∧
        (cpath ≠ "" → is_directory_at (files s') cpath = true).
Proof.
  intros Hpar Hreg.
  destruct (ensure_prefix_spec cpath mode s) as (err & s' & E & H1 & _ & H3 & _ & _).
  destruct (String.eqb_spec cpath "") as [->|Hne].
  { exists s. split; [done|]. split; [apply evolves_refl|done]. }
  assert (E0 : ∃ s0, ensure_prefix cpath mode s = Some (0, s0)).
  { unfold kind_at in Hreg.
    destruct (files s !! cpath) as [i|] eqn:F.
    - cbn in Hreg. destruct (is_dir i) eqn:D; [|done].
      eexists. by apply (ensure_prefix_keeps cpath mode s _ Hne F).
    - eexists. by apply ensure_prefix_creates. }
  destruct E0 as (s0 & E0). rewrite E0 in E. injection E as <- <-.
  exists s0. split; [done|]. split; [done|]. intros _.
  destruct (H3 eq_refl Hne) as [i' Hi'].
  unfold is_directory_at. rewrite Hi'.
  pose proof (evolves_not_other cpath _ _ H1 Hreg) as R.
  unfold kind_at in R. rewrite Hi' in R. cbn in R. by destruct (is_dir i').
Qed.

(** The loop succeeds wherever no prefix is a file of another kind than a
    directory. *)
Lemma ensure_loop_chain rest : ∀ pre mode s,
  parent_errno pre (files s) = None →
  (∀ p, p ∈ stops pre rest → kind_at (files s) p ≠ Some false) →
  ∃ s', ensure_loop pre rest mode s = Some (0, s').
Proof.
  induction rest as [|c rest IH]; intros pre mode s Hpar Hreg;
    cbn [ensure_loop stops] in *.
  - destruct (ensure_prefix_ok pre mode s Hpar) as (s' & E & _).
    { apply Hreg, list_elem_of_here. }
    by exists s'.
  - assert (Hstep : ∃ s1,
      (if is_dir_sep c then ensure_prefix pre mode else ret 0) s = Some (0, s1) ∧
      evolves (files s) (files s1) ∧
      parent_errno (pre +:+ String c EmptyString) (files s1) = None).
    { destruct (is_dir_sep c) eqn:Sep.
      - destruct (ensure_prefix_ok pre mode s Hpar) as (s1 & E & Hev & Hdir).
        { apply Hreg, elem_of_app. left. apply list_elem_of_here. }
        exists s1. split; [done|]. split; [done|].
        destruct (Ascii.eqb_spec c "/") as [->|Hc].
        + unfold parent_errno. rewrite parent_snoc_slash.
          destruct (String.eqb_spec pre "") as [->|Hne]; [done|].
          specialize (Hdir Hne). unfold is_directory_at in Hdir.
          destruct (files s1 !! pre) as [i|]; [|done]. by rewrite Hdir.
        + unfold parent_errno. rewrite parent_snoc_other by by apply Ascii.eqb_neq.
          by apply (evolves_parent pre _ _ Hev).
      - exists s. split; [done|]. split; [apply evolves_refl|].
        unfold is_dir_sep in Sep. apply orb_false_iff in Sep as [Sep _].
        unfold parent_errno. by rewrite parent_snoc_other. }
    destruct Hstep as (s1 & E & Hev & Hpar1).
    unfold bind at 1. rewrite E. change (0 =? 0) with true. cbv iota.
    apply IH; [done|]. intros p Hp. apply (evolves_not_other p _ _ Hev).
    apply Hreg, elem_of_app. by right.
Qed.

(** X13: in a file system where [mkdir] fails only because the name
    exists or the directory it lies in is missing or is not one: for every
    path each of whose prefixes (up to each separator and up to the end)
    is a directory or a free name, [kk_os_ensure_dir] returns 0, and
    afterwards every one of these prefixes is a directory: the
    directories that were missing have been made, and nothing but
    directories has been added. *)
Theorem ensure_dir_makes_chain path mode s :
  unobstructed (files s) path = true →
  ∃ s',
    kk_os_ensure_dir path mode s = Some (0, s') ∧
    evolves (files s) (files s') ∧
    ∀ p, p ∈ stops "" path → p ≠ "" → is_directory_at (files s') p = true.
Proof.
  intros Hun. unfold kk_os_ensure_dir. set (m := if mode <? 0 then _ else mode).
  assert (Hreg : ∀ p, p ∈ stops "" path → kind_at (files s) p ≠ Some false).
  { intros p Hp. unfold unobstructed in Hun. rewrite forallb_forall in Hun.
    apply list_elem_of_In, Hun in Hp. intros K. by rewrite K in Hp. }
  destruct (ensure_loop_chain path "" m s eq_refl Hreg) as (s' & E).
  destruct (ensure_loop_spec path "" m s) as (err & s0 & E' & Hev & _ & H3 & _).
  rewrite E in E'. injection E' as <- <-.
  exists s'. split; [done|]. split; [done|].
  intros p Hp Hne. destruct (H3 eq_refl p Hp Hne) as [i' Hi'].
  unfold is_directory_at. rewrite Hi'.
  pose proof (evolves_not_other p _ _ Hev (Hreg p Hp)) as R.
  unfold kind_at in R. rewrite Hi' in R. cbn in R. by destruct (is_dir i').
Qed.

Lemma ensure_dir_makes_chain_witness :
  ∃ s',
    kk_os_ensure_dir "d/x/y" (-1) (boot dir_and_file) = Some (0, s') ∧
    evolves (files (boot dir_and_file)) (files s') ∧
    ∀ p, p ∈ stops "" "d/x/y" → p ≠ "" → is_directory_at (files s') p = true.
Proof.
  apply (ensure_dir_makes_chain "d/x/y" (-1) (boot dir_and_file)). reflexivity.
Defined.

(** A socket in the way: [stat] reports it with the bit of [S_IFDIR] in
    its file type, the code takes it for a directory and goes on; the
    status is that of the [mkdir] below it. *)
Lemma ensure_dir_over_socket :
  ∃ s',
    kk_os_ensure_dir "run/sock/d" (-1)
      (boot (<["run/sock" := Inode 493 Socket 0 0]>
               (<["run" := Inode 493 (Entries ["."; ".."; "sock"]) 0 0]> ∅)))
      = Some (ENOTDIR, s') ∧
    unobstructed (<["run/sock" := Inode 493 Socket 0 0]>
                    (<["run" := Inode 493 (Entries ["."; ".."; "sock"]) 0 0]> ∅))
      "run/sock/d" = false.
Proof.
  eexists. split; [vm_compute; reflexivity|reflexivity].
Qed.

(** With the socket at the end of the path the status is 0, and no
    directory is there. *)
Lemma ensure_dir_at_socket :
  ∃ s',
    kk_os_ensure_dir "sock" (-1) (boot {[ "sock" := Inode 493 Socket 0 0 ]})
      = Some (0, s') ∧
    is_directory_at (files s') "sock" = false.
Proof.
  eexists. split; [vm_compute; reflexivity|reflexivity].
Qed.

(** ** Listing: every directory, and what is not one *)





(** ** The two predicates on files that exist *)

Lemma directory_bit perm b a t :
  negb (Z.land (st_mode (stat_of (Inode perm b a t))) S_IFDIR =? 0)
  = match b with Bytes _ => false | Entries _ | Socket => true end.
Proof.
  simpl. rewrite Z.land_lor_distr_l.
  assert (P : Z.land (Z.land perm 4095) S_IFDIR = 0).
  { rewrite <- Z.land_assoc. change (Z.land 4095 S_IFDIR) with 0. apply Z.land_0_r. }
  rewrite P, Z.lor_0_r. by destruct b.
Qed.

(** X16: on a name that exists the two predicates tell the kind, whatever
    the permission bits of the file (the tests look at one bit of
    [st_mode] each, and the permission bits lie below both): for a
    regular file [kk_os_is_file] is true and [kk_os_is_directory] false,
    for a directory the other way round.  For a socket, which is neither,
    both are true: its file type has both bits.  Neither changes a file or
    a descriptor. *)
Theorem stat_predicates_tell_kinds path s i :
  files s !! path = Some i →
  ∃ s1 s2,
    kk_os_is_directory path s = Some (is_dir i || is_socket i, s1) ∧
    kk_os_is_file path s = Some (negb (is_dir i), s2) ∧
    files s1 = files s ∧ files s2 = files s ∧
    fdt s1 = fdt s ∧ fdt s2 = fdt s.
Proof.
  intros H.
  unfold kk_os_is_directory, kk_os_is_file, kk_posix_stat, bind, call, get_errno,
    ret, sys_stat.
  rewrite H. destruct i as [perm b a t].
  cbn -[stat_of Z.land]. rewrite regular_bit, directory_bit.
  eexists _, _. by destruct b.
Qed.

Lemma stat_predicates_tell_kinds_witness :
  ∃ s1 s2,
    kk_os_is_directory "d" (boot dir_and_file)
      = Some (is_dir (Inode 493 (Entries ["."; ".."]) 0 0)
              || is_socket (Inode 493 (Entries ["."; ".."]) 0 0), s1) ∧
    kk_os_is_file "d" (boot dir_and_file)
      = Some (negb (is_dir (Inode 493 (Entries ["."; ".."]) 0 0)), s2) ∧
    files s1 = files (boot dir_and_file) ∧ files s2 = files (boot dir_and_file) ∧
    fdt s1 = fdt (boot dir_and_file) ∧ fdt s2 = fdt (boot dir_and_file).
Proof.
  apply (stat_predicates_tell_kinds "d" (boot dir_and_file)). reflexivity.
Defined.

(** ** The environment *)

(** Where an entry has a ['='], the scan stops at the first one. *)
Lemma scan_name_split e :
  has_equals e = true →
  ∃ val,
    ptr_add e (scan_name e) = String "=" val ∧
    e = substring 0 (scan_name e) e +:+ String "=" val ∧
    strchr (substring 0 (scan_name e) e) "=" = None.
Proof.
  unfold has_equals. induction e as [|c r IH]; [done|].
  cbn [strchr scan_name]. destruct (Ascii.eqb_spec c "=") as [->|Hc].
  - intros _. exists r. cbn [ptr_add]. split; [done|]. split; [|done].
    by destruct r.
  - intros H. destruct (strchr r "=") eqn:S; [|done].
    destruct (IH eq_refl) as (val & H1 & H2 & H3).
    exists val. cbn [ptr_add substring]. split; [done|].
    rewrite append_cons. split; [by rewrite <- H2|].
    cbn [strchr]. apply Ascii.eqb_neq in Hc. by rewrite Hc, H3.
Qed.

Lemma env_entry_split e :
  has_equals e = true →
  ∃ name val,
    env_entry e = Some (name, val) ∧
    e = name +:+ "=" +:+ val ∧ strchr name "=" = None.
Proof.
  intros H. destruct (scan_name_split e H) as (val & H1 & H2 & H3).
  exists (substring 0 (scan_name e) e), val. unfold env_entry. rewrite H1.
  split; [done|]. split; [|done]. by rewrite append_cons, append_nil_l.
Qed.

(** The copying loop fills the vector two slots an entry, from slot
    [2 * i] on. *)
Lemma env_loop_spec entries : ∀ i (pre : list kk_box_t),
  forallb has_equals entries = true →
  Z.of_nat (length pre) = 2 * i →
  2 * (i + Z.of_nat (length entries)) < SIZE_MOD →
  ∃ pairs,
    env_loop entries i (pre ++ replicate (2 * length entries) kk_box_null)
      = Some (pre ++ flat_map boxed_pair pairs) ∧
    Forall2 (fun e nv => e = nv.1 +:+ "=" +:+ nv.2 ∧ strchr nv.1 "=" = None)
            entries pairs.
Proof.
  induction entries as [|e entries IH]; intros i pre Hall Hpre Hbig.
  - exists []. cbn. by split.
  - cbn [forallb] in Hall. apply andb_true_iff in Hall as [He Hall].
    destruct (env_entry_split e He) as (name & val & E & Hsplit & Hname).
    cbn [env_loop length]. rewrite E.
    cbn [length] in Hbig.
    assert (H2i : size_mul 2 i = 2 * i).
    { unfold size_mul. apply Z.mod_small. lia. }
    rewrite H2i, !size_add_small by lia.
    replace (2 * S (length entries))%nat with (S (S (2 * length entries))) by lia.
    cbn [replicate].
    replace (Z.to_nat (2 * i)) with (length pre + 0)%nat by lia.
    replace (Z.to_nat (2 * i + 1)) with (length pre + 1)%nat by lia.
    rewrite !insert_app_r. cbn [insert list_insert].
    destruct (IH (i + 1) (pre ++ [kk_string_box name; kk_string_box val]) Hall)
      as (pairs & E' & F); [rewrite length_app; cbn [length]; lia | lia |].
    rewrite <- app_assoc in E'. cbn [app] in E'.
    exists ((name, val) :: pairs). split.
    + rewrite E'. cbn [flat_map boxed_pair fst snd app]. by rewrite <- app_assoc.
    + by constructor.
Qed.

(** X17: where every entry of the environment has a ['='],
    [kk_os_get_env] returns a vector of twice as many strings as there are
    entries, the name and the value of each entry side by side in the
    order of the entries; an entry is split at its first ['=']: the name
    has none, and name, ['='] and value together are the entry again (a
    value may hold further ['=']). *)
Theorem get_env_splits_entries entries :
  forallb has_equals entries = true →
  2 * Z.of_nat (length entries) < SIZE_MOD →
  ∃ pairs,
    kk_os_get_env (Some entries) = Some (flat_map boxed_pair pairs) ∧
    Forall2 (fun e nv => e = nv.1 +:+ "=" +:+ nv.2 ∧ strchr nv.1 "=" = None)
            entries pairs.
Proof.
  intros Hall Hbig. unfold kk_os_get_env, kk_vector_alloc.
  assert (Hc : size_mul (Z.of_nat (length entries)) 2 = 2 * Z.of_nat (length entries)).
  { unfold size_mul. rewrite Z.mul_comm. apply Z.mod_small. lia. }
  rewrite Hc.
  replace (Z.to_nat (2 * Z.of_nat (length entries))) with (2 * length entries)%nat by lia.
  destruct (env_loop_spec entries 0 [] Hall) as (pairs & E & F); [done | lia |].
  by exists pairs.
Qed.

Lemma get_env_splits_entries_witness :
  ∃ pairs,
    kk_os_get_env (Some ["HOME=/root"; "OPTS=a=b"; "EMPTY="; "=x"])
      = Some (flat_map boxed_pair pairs) ∧
    Forall2 (fun e nv => e = nv.1 +:+ "=" +:+ nv.2 ∧ strchr nv.1 "=" = None)
            ["HOME=/root"; "OPTS=a=b"; "EMPTY="; "=x"]%string pairs.
Proof.
  apply (get_env_splits_entries ["HOME=/root"; "OPTS=a=b"; "EMPTY="; "=x"]%string);
    [reflexivity | reflexivity].
Defined.

(** The vector of that environment. *)
Lemma get_env_run :
  kk_os_get_env (Some ["HOME=/root"; "OPTS=a=b"; "EMPTY="; "=x"]%string)
  = Some (kk_string_box <$> ["HOME"; "/root"; "OPTS"; "a=b"; "EMPTY"; ""; ""; "x"]%string).
Proof. reflexivity. Qed.

(** ** Running a command *)

Lemma fgets_chunk_spec n : ∀ ahead chunk rest hit,
  fgets_chunk n ahead = (chunk, rest, hit) →
  ahead = chunk ++ rest ∧ (hit = true → rest = []) ∧
  (0 < n → ahead ≠ [] → chunk ≠ [])%nat.
Proof.
  induction n as [|n IH]; intros ahead chunk rest hit; cbn [fgets_chunk].
  - intros [= <- <- <-]. split; [done|]. split; [done|lia].
  - destruct ahead as [|c r]; [by intros [= <- <- <-]|].
    destruct (Ascii.eqb c newline); [by intros [= <- <- <-]|].
    destruct (fgets_chunk n r) as [[ch rs] h] eqn:E. intros [= <- <- <-].
    destruct (IH _ _ _ _ E) as (-> & H2 & _). done.
Qed.

Lemma c_string_zero_free l : zero_free l = true → c_string l = l.
Proof.
  unfold zero_free. induction l as [|c r IH]; [done|]. cbn [forallb c_string].
  intros [Hc Hr]%andb_true_iff. apply negb_true_iff in Hc. rewrite Hc.
  by rewrite IH.
Qed.

(** The reading loop collects the characters of the stream in order; it
    stops at the end of the file with all of them, or at the read error
    with those of the calls before. *)
Lemma run_loop_spec fuel : ∀ f out s,
  (length (f_ahead f) < fuel)%nat → zero_free (f_ahead f) = true →
  ∃ got f' s',
    run_loop fuel f out s = Some ((out ++ got, f'), s') ∧
    got `prefix_of` f_ahead f ∧
    f_error f' = f_error f ∧ f_close f' = f_close f ∧
    match f_error f with
    | None => got = f_ahead f ∧ s' = s
    | Some e => s' = set_errno e s
    end.
Proof.
  induction fuel as [|fuel IH]; intros f out s Hfuel Hz; [lia|].
  cbn [run_loop]. unfold bind at 1, call, sys_fgets.
  assert (Hn : (0 < Z.to_nat (1024 - 1))%nat) by lia.
  destruct (fgets_chunk (Z.to_nat (1024 - 1)) (f_ahead f)) as [[chunk rest] hit] eqn:E.
  destruct (fgets_chunk_spec _ _ _ _ _ E) as (Happ & Hhit & Hne).
  specialize (Hne Hn).
  assert (Hzc : zero_free chunk = true ∧ zero_free rest = true).
  { unfold zero_free in *. rewrite Happ, forallb_app in Hz.
    by apply andb_true_iff in Hz. }
  destruct Hzc as [Hzc Hzr].
  assert (Hstep : ∀ f', f_ahead f' = rest → f_error f' = f_error f →
            f_close f' = f_close f → chunk ≠ [] →
            ∃ got f'' s',
              run_loop fuel f' (out ++ c_string chunk) s = Some ((out ++ got, f''), s') ∧
              got `prefix_of` f_ahead f ∧
              f_error f'' = f_error f ∧ f_close f'' = f_close f ∧
              match f_error f with
              | None => got = f_ahead f ∧ s' = s
              | Some e => s' = set_errno e s
              end).
  { intros f' Ha He Hc Hch.
    destruct (IH f' (out ++ c_string chunk) s) as (got & f'' & s' & R & P & E1 & E2 & Q).
    - rewrite Ha. rewrite Happ, length_app in Hfuel.
      destruct chunk; [done|]. cbn [length] in Hfuel. lia.
    - by rewrite Ha.
    - rewrite c_string_zero_free in R |- * by done. rewrite <- app_assoc in R.
      exists (chunk ++ got), f'', s'. split; [done|]. rewrite Ha in P.
      split; [rewrite Happ; by apply prefix_app|].
      split; [congruence|]. split; [congruence|].
      rewrite He in Q. destruct (f_error f); [done|].
      destruct Q as [-> ->]. by rewrite Ha, Happ. }
  destruct hit.
  - specialize (Hhit eq_refl). subst rest. rewrite app_nil_r in Happ.
    destruct (f_error f) as [e|] eqn:Fe.
    + cbv beta iota. unfold ret. exists [], (File [] (Some e) (f_close f)), (set_errno e s).
      rewrite app_nil_r. split_and!; try done. apply prefix_nil.
    + destruct chunk as [|c ch] eqn:Hch.
      * cbv beta iota. unfold ret. exists [], (File [] None (f_close f)), s.
        rewrite app_nil_r. split_and!; try done. apply prefix_nil.
      * cbv beta iota. rewrite <- Hch in *.
        apply (Hstep (File [] None (f_close f))); try done. by rewrite Hch.
  - cbv beta iota.
    apply (Hstep (File rest (f_error f) (f_close f))); try done.
    apply Hne. intros Hnil. rewrite Hnil in E.
    replace (Z.to_nat (1024 - 1)) with (S (Z.to_nat 1022)) in E by lia.
    cbn [fgets_chunk] in E. done.
Qed.

(** X18: [kk_os_run_command] on a command whose output holds no zero
    character, [pclose] succeeding.  Where the stream ends at the end of
    the file the status is 0 and the output assigned is the whole output
    of the command, in order, however long it is and wherever its lines
    end: the pieces [fgets] delivers, of at most 1023 characters and cut
    after a newline, are joined again.  Where the stream ends on a read
    error the status is its error number and what is assigned is the
    output that was read before the failing call. *)
Theorem run_command_collects_output popen cmd f s :
  popen cmd = inl f → f_close f = None → zero_free (f_ahead f) = true →
  ∃ out s',
    kk_os_run_command popen cmd s =
      Some ((match f_error f with None => 0 | Some e => e end, Some out), s') ∧
    out `prefix_of` f_ahead f ∧
    (f_error f = None → out = f_ahead f).
Proof.
  intros Hp Hc Hz. unfold kk_os_run_command.
  unfold bind at 1, call, sys_popen. rewrite Hp.
  destruct (run_loop_spec (S (length (f_ahead f))) f [] s) as
    (got & f' & s1 & R & P & E1 & E2 & Q); [lia|done|].
  unfold bind at 1. rewrite R. cbv beta iota. cbn [app].
  unfold sys_feof, sys_pclose. rewrite E1, E2, Hc.
  destruct (f_error f) as [e|].
  - subst s1. unfold bind, call, ret, get_errno. cbn.
    eexists got, _. split; [reflexivity|]. by split.
  - destruct Q as [-> ->]. unfold bind, call, ret, get_errno. cbn.
    eexists _, _. split; [reflexivity|]. by split.
Qed.

Lemma run_command_collects_output_witness :
  ∃ out s',
    kk_os_run_command popen_echo "uname -a" (boot ∅) =
      Some ((match f_error (File (list_ascii_of_string "uname -a") None None) with
             | None => 0
             | Some e => e
             end, Some out), s') ∧
    out `prefix_of` f_ahead (File (list_ascii_of_string "uname -a") None None) ∧
    (f_error (File (list_ascii_of_string "uname -a") None None) = None →
     out = f_ahead (File (list_ascii_of_string "uname -a") None None)).
Proof.
  apply (run_command_collects_output popen_echo "uname -a"
           (File (list_ascii_of_string "uname -a") None None) (boot ∅));
    reflexivity.
Defined.

(** A zero character in the output cuts the piece it is in: the rest of
    the line is lost, the next line is not. *)
Lemma run_command_cuts_at_zero :
  ∃ s',
    kk_os_run_command
      (fun _ => inl (File ["a"; "b"; zero; "c"; newline; "e"; "f"]%char None None))
      "cmd" (boot ∅)
    = Some ((0, Some ["a"; "b"; "e"; "f"]%char), s').
Proof. eexists. vm_compute. reflexivity. Qed.

(** Where [popen] fails, the status is its error number and no output is
    assigned. *)
Lemma run_command_popen_fails :
  kk_os_run_command popen_echo "" (boot ∅)
  = Some ((ENOENT, None), set_errno ENOENT (boot ∅)).
Proof. reflexivity. Qed.

(** ** Copying to a name that cannot be created *)

Lemma sys_creat_fails to mode s :
  creatable to s = false →
  ∃ e, sys_creat to mode s = failing (SysCreat to mode) e s ∧
       (e = ENOENT ∨ e = EISDIR ∨ e = ENOTDIR).
Proof.
  unfold creatable, sys_creat. intros C.
  destruct (String.eqb to ""); [eauto|]. cbn [negb andb] in C.
  destruct (files s !! to) as [i|].
  { apply negb_false_iff in C. rewrite C. eauto. }
  unfold parent_errno in *. destruct (parent to) as [dir|]; [|done].
  destruct (String.eqb dir ""); [done|].
  destruct (files s !! dir) as [j|]; [|eauto].
  destruct (is_dir j); [done|eauto 6].
Qed.

(** X19: where the destination cannot be created (its name is empty or
    that of a directory, or the directory it lies in is missing or is not
    one), copying a regular file that [open] opens for reading returns
    the error number of the failed
    [creat], which is not 0, having closed the source again: the
    descriptor table and the files are as they were. *)
Theorem copy_to_uncreatable from to preserve_mtime s m d a t :
  regular from m d a t s → opens from O_RDONLY s = true →
  creatable to s = false →
  ∃ e s',
    kk_os_copy_file from to preserve_mtime s = Some (e, s') ∧
    (e = ENOENT ∨ e = EISDIR ∨ e = ENOTDIR) ∧ errno s' = e ∧
    files s' = files s ∧ fdt s' = fdt s.
Proof.
  intros Hp Hop Hc.
  unfold kk_os_copy_file. unfold bind at 1.
  rewrite (kk_posix_open_regular _ _ _ _ _ _ _ Hp Hop).
  destruct (lowest_free_spec (fdt s)) as [H0 Hfree].
  set (inp := lowest_free (fdt s)) in *.
  replace (inp <? 0) with false by (symmetry; apply Z.ltb_ge; lia). cbv iota.
  set (s0 := log _ _).
  assert (Hi0 : at_pos inp from 0 O_RDONLY s0)
    by (unfold at_pos, s0; cbn; by rewrite lookup_insert_eq).
  assert (Hp0 : regular from m d a t s0) by done.
  assert (Hst : sys_fstat inp stat_zero s0
                = (0, stat_of (Inode m (Bytes d) a t), log (SysFstat inp 0) s0)).
  { unfold sys_fstat. unfold at_pos in Hi0. unfold regular in Hp0. by rewrite Hi0, Hp0. }
  rewrite bind_call, Hst. cbn [fst snd]. cbv beta iota.
  change (0 <? 0) with false. cbv iota.
  set (s0' := log (SysFstat inp 0) s0).
  assert (Hc0 : creatable to s0' = false) by done.
  destruct (sys_creat_fails to (st_mode (stat_of (Inode m (Bytes d) a t))) s0' Hc0)
    as (e & Hcr & He).
  unfold kk_posix_creat. rewrite bind_call, Hcr. cbn [failing fst snd].
  change (-1 <? 0) with true. cbv iota.
  rewrite bind_call. unfold sys_close, s0'. cbn [fdt log set_errno].
  unfold at_pos in Hi0. rewrite Hi0. cbn [fst snd]. unfold get_errno.
  eexists e, _. split; [reflexivity|]. cbn [errno files fdt log set_fdt set_errno].
  split_and!; try done.
  unfold s0. cbn [fdt log set_fdt]. by rewrite delete_insert_id.
Qed.

Lemma copy_to_uncreatable_witness :
  ∃ e s',
    kk_os_copy_file "f" "nodir/g" true (boot dir_and_file) = Some (e, s') ∧
    (e = ENOENT ∨ e = EISDIR ∨ e = ENOTDIR) ∧ errno s' = e ∧
    files s' = files (boot dir_and_file) ∧ fdt s' = fdt (boot dir_and_file).
Proof.
  apply (copy_to_uncreatable "f" "nodir/g" true (boot dir_and_file) 420 hello 0 0);
    reflexivity.
Defined.

(** ** The longest path *)

Lemma path_max_cached_calls n : ∀ v answers,
  0 < v →
  path_max_calls n (PathMax v answers) = (replicate n v, PathMax v answers).
Proof.
  induction n as [|n IH]; intros v answers Hv; [done|].
  cbn [path_max_calls]. unfold kk_os_path_max. cbn [path_max].
  replace (v <=? 0) with false by (symmetry; apply Z.leb_gt; lia).
  cbn [path_max]. by rewrite IH.
Qed.

(** X20: on a unix without [PATH_MAX], from the first call on
    [kk_os_path_max] returns one and the same value, which is at least
    256; [pathconf] is asked once, by the first call, and never again.
    The value is the answer of [pathconf] when that is 256 or more, 256
    for a smaller positive answer, and 4096 when [pathconf] fails. *)
Theorem path_max_is_cached n m answers :
  m < SIZE_MOD →
  ∃ v,
    path_max_calls (S n) (PathMax 0 (m :: answers))
      = (replicate (S n) v, PathMax v answers) ∧
    256 ≤ v ∧
    (256 ≤ m → v = m) ∧ (0 < m < 256 → v = 256) ∧ (m ≤ 0 → v = 4096).
Proof.
  intros Hm. cbn [path_max_calls]. unfold kk_os_path_max at 1.
  cbn [path_max sys_pathconf pathconf_answers]. change (0 <=? 0) with true. cbv iota.
  destruct (Z.leb_spec m 0).
  - exists 4096. cbn [path_max pathconf_answers].
    rewrite path_max_cached_calls by done. split; [done|]. lia.
  - destruct (Z.ltb_spec m 256).
    + exists 256. cbn [path_max pathconf_answers].
      rewrite path_max_cached_calls by done. split; [done|]. lia.
    + exists m. rewrite Z.mod_small by lia. cbn [path_max pathconf_answers].
      rewrite path_max_cached_calls by lia. split; [done|]. lia.
Qed.

Lemma path_max_is_cached_witness :
  ∃ v,
    path_max_calls 3 (PathMax 0 [1024; 77])
      = (replicate 3 v, PathMax v [77]) ∧
    256 ≤ v ∧
    (256 ≤ 1024 → v = 1024) ∧ (0 < 1024 < 256 → v = 256) ∧ (1024 ≤ 0 → v = 4096).
Proof.
  apply (path_max_is_cached 2 1024 [77]). reflexivity.
Defined.
